(** * EmailFlow: the scheduling and dispatch engine

    A shallow embedding of [server/services/scheduler.ts] and of the parts of
    [server/storage.ts] and [shared/schema.ts] it runs on, with the properties
    of the scheduling-and-dispatch core stated over it.

    Conventions.
    - A JavaScript [Date] is its time value: milliseconds since the epoch, a
      [Z].  Time values stay inside the range on which ECMAScript's
      [TimeClip] is the identity.
    - A JavaScript [Map] keeps insertion order; it is an association list
      ([JsMap]).  A JavaScript object used as a string dictionary
      ([Record<string, string>]) is the [gmap string string] of its own
      entries; its prototype is [Object.prototype].
    - The server's time zone is a parameter ([JsDate.Zone]): the offset of
      local time at each instant, and the offset at which a local time is
      read back. What needs a zone without daylight saving says so, with
      [JsDate.fixed].
    - Reading a property of such an object also finds the members it
      inherits ([Js.getProp]).
    - [async] methods run to completion one after the other, and the clock
      is read once per method call; an exception is an explicit outcome of
      the [Eff] monad. *)

From Stdlib Require Import ZArith Lia List Sorted Permutation String Ascii.
From stdpp Require Import base gmap strings pretty.
Import ListNotations.

Local Open Scope Z_scope.

(** ** ECMAScript time values (ECMA-262, "Date objects") *)

Module JsDate.

Definition msPerSecond : Z := 1000.
Definition msPerMinute : Z := 60000.
Definition msPerHour : Z := 3600000.
Definition msPerDay : Z := 86400000.

Definition Day (t : Z) : Z := t / msPerDay.
Definition TimeWithinDay (t : Z) : Z := t mod msPerDay.

Definition isLeap (y : Z) : bool :=
  if negb (y mod 4 =? 0) then false
  else if negb (y mod 100 =? 0) then true
  else if negb (y mod 400 =? 0) then false
  else true.

Definition DaysInYear (y : Z) : Z := if isLeap y then 366 else 365.

Definition DayFromYear (y : Z) : Z :=
  365 * (y - 1970) + (y - 1969) / 4 - (y - 1901) / 100 + (y - 1601) / 400.

Definition TimeFromYear (y : Z) : Z := msPerDay * DayFromYear y.

(** The year of a day number: the largest [y] with [DayFromYear y <= d].
    The estimate [e] from the mean year length is off by at most one. *)
Definition YearFromDay (d : Z) : Z :=
  let e := 1970 + (400 * d) / 146097 in
  if DayFromYear (e + 1) <=? d then e + 1
  else if DayFromYear e <=? d then e
  else e - 1.

Definition leapZ (y : Z) : Z := if isLeap y then 1 else 0.

Definition YearFromTime (t : Z) : Z := YearFromDay (Day t).
Definition InLeapYear (t : Z) : Z := leapZ (YearFromTime t).
Definition DayWithinYear (t : Z) : Z := Day t - DayFromYear (YearFromTime t).

(** Day within the year on which month [m] (0 = January) starts. *)
Definition monthStart (leap : Z) (m : Z) : Z :=
  if m <=? 0 then 0
  else if m =? 1 then 31
  else if m =? 2 then 59 + leap
  else if m =? 3 then 90 + leap
  else if m =? 4 then 120 + leap
  else if m =? 5 then 151 + leap
  else if m =? 6 then 181 + leap
  else if m =? 7 then 212 + leap
  else if m =? 8 then 243 + leap
  else if m =? 9 then 273 + leap
  else if m =? 10 then 304 + leap
  else if m =? 11 then 334 + leap
  else 365 + leap.

Definition monthOfYearDay (leap : Z) (d : Z) : Z :=
  if d <? 31 then 0
  else if d <? 59 + leap then 1
  else if d <? 90 + leap then 2
  else if d <? 120 + leap then 3
  else if d <? 151 + leap then 4
  else if d <? 181 + leap then 5
  else if d <? 212 + leap then 6
  else if d <? 243 + leap then 7
  else if d <? 273 + leap then 8
  else if d <? 304 + leap then 9
  else if d <? 334 + leap then 10
  else 11.

Definition MonthFromTime (t : Z) : Z :=
  monthOfYearDay (InLeapYear t) (DayWithinYear t).

Definition DateFromTime (t : Z) : Z :=
  DayWithinYear t - monthStart (InLeapYear t) (MonthFromTime t) + 1.

Definition HourFromTime (t : Z) : Z := (t / msPerHour) mod 24.
Definition MinFromTime (t : Z) : Z := (t / msPerMinute) mod 60.
Definition SecFromTime (t : Z) : Z := (t / msPerSecond) mod 60.
Definition msFromTime (t : Z) : Z := t mod msPerSecond.

Definition MakeTime (hour min sec ms : Z) : Z :=
  hour * msPerHour + min * msPerMinute + sec * msPerSecond + ms.

(** [MakeDay]: months outside 0..11 carry into the year, and the date is
    added to the first day of the month without any check against the
    month's length. *)
Definition MakeDay (year month date : Z) : Z :=
  let ym := year + month / 12 in
  let mn := month mod 12 in
  DayFromYear ym + monthStart (leapZ ym) mn + date - 1.

Definition MakeDate (day time : Z) : Z := day * msPerDay + time.

Definition DaysInMonth (y m : Z) : Z :=
  monthStart (leapZ y) (m + 1) - monthStart (leapZ y) m.

(** The month after month [m] of year [y]. *)
Definition nextMonth (y m : Z) : Z * Z :=
  if m =? 11 then (y + 1, 0) else (y, m + 1).

(** A time zone, as ECMA-262's [LocalTZA]: [offsetAt t] is the offset of
    local time from UTC at the instant [t], [offsetOfLocal l] the offset at
    which the local time [l] is read back as an instant (the offset before
    the transition, for a local time that a transition skips or repeats). *)
Record Zone := mkZone {
  offsetAt : Z -> Z;
  offsetOfLocal : Z -> Z }.

(** A zone without transitions, at the offset [tza]. *)
Definition fixed (tza : Z) : Zone := mkZone (fun _ => tza) (fun _ => tza).

Section Zone.
Variable zone : Zone.

Definition LocalTime (t : Z) : Z := t + offsetAt zone t.
Definition UTC (l : Z) : Z := l - offsetOfLocal zone l.

Definition getMinutes (t : Z) : Z := MinFromTime (LocalTime t).
Definition getDate (t : Z) : Z := DateFromTime (LocalTime t).
Definition getMonth (t : Z) : Z := MonthFromTime (LocalTime t).

Definition setMinutes (t min : Z) : Z :=
  let l := LocalTime t in
  UTC (MakeDate (Day l)
         (MakeTime (HourFromTime l) min (SecFromTime l) (msFromTime l))).

Definition setDate (t date : Z) : Z :=
  let l := LocalTime t in
  UTC (MakeDate (MakeDay (YearFromTime l) (MonthFromTime l) date)
         (TimeWithinDay l)).

Definition setMonth (t month : Z) : Z :=
  let l := LocalTime t in
  UTC (MakeDate (MakeDay (YearFromTime l) month (DateFromTime l))
         (TimeWithinDay l)).
End Zone.

End JsDate.

(** ** JavaScript [Map]: a finite map that remembers insertion order *)

Module JsMap.
Section Ops.
Context {V : Type}.

Definition t := list (Z * V).

Definition empty : list (Z * V) := [].

Fixpoint get (k : Z) (m : list (Z * V)) : option V :=
  match m with
  | [] => None
  | (k', v) :: m' => if k' =? k then Some v else get k m'
  end.

(** [set] on a key that is present replaces the value where it stands;
    a new key goes to the end. *)
Fixpoint set (k : Z) (v : V) (m : list (Z * V)) : list (Z * V) :=
  match m with
  | [] => [(k, v)]
  | (k', v') :: m' => if k' =? k then (k', v) :: m' else (k', v') :: set k v m'
  end.

Fixpoint delete (k : Z) (m : list (Z * V)) : list (Z * V) :=
  match m with
  | [] => []
  | (k', v') :: m' => if k' =? k then m' else (k', v') :: delete k m'
  end.

Definition keys (m : list (Z * V)) : list Z := map fst m.
Definition values (m : list (Z * V)) : list V := map snd m.
Definition size (m : list (Z * V)) : nat := length m.
End Ops.
Arguments t : clear implicits.
End JsMap.

(** ** The data model ([shared/schema.ts]) *)

Module Client.
Record t := mk {
  id : Z;
  name : string;
  email : string;
  company : option string;
  phone : option string;
  language : string;
  customFields : option (gmap string string);
  lastInteraction : option Z;
  createdAt : Z }.
End Client.

Module EmailTemplate.
Record t := mk {
  id : Z;
  name : string;
  subject : gmap string string;
  content : gmap string string;
  variables : option (list string);
  primaryLanguage : string;
  supportedLanguages : option (list string);
  usageCount : option Z;
  createdAt : Z }.

Definition with_usageCount (n : option Z) (x : t) : t :=
  mk (id x) (name x) (subject x) (content x) (variables x)
     (primaryLanguage x) (supportedLanguages x) n (createdAt x).
End EmailTemplate.

Module ScheduledEmail.
Record t := mk {
  id : Z;
  clientId : Z;
  templateId : Z;
  scheduledFor : Z;
  status : string;
  language : string;
  personalizedSubject : option string;
  personalizedContent : option string;
  sentAt : option Z;
  errorMessage : option string;
  createdAt : Z }.
End ScheduledEmail.

(** [InsertScheduledEmail]: the insert schema omits [id], [createdAt],
    [sentAt], [personalizedSubject] and [personalizedContent]; [status],
    [language] and [errorMessage] stay, and are optional. *)
Module InsertScheduledEmail.
Record t := mk {
  clientId : Z;
  templateId : Z;
  scheduledFor : Z;
  status : option string;
  language : option string;
  errorMessage : option string }.
End InsertScheduledEmail.

(** [Partial<ScheduledEmail>]: every field may be absent; a nullable field
    that is present may hold [null]. *)
Module PartialScheduledEmail.
Record t := mk {
  id : option Z;
  clientId : option Z;
  templateId : option Z;
  scheduledFor : option Z;
  status : option string;
  language : option string;
  personalizedSubject : option (option string);
  personalizedContent : option (option string);
  sentAt : option (option Z);
  errorMessage : option (option string);
  createdAt : option Z }.

(** [{ status, errorMessage }] *)
Definition failure (st msg : string) : t :=
  mk None None None None (Some st) None None None None (Some (Some msg)) None.

(** [{ status, sentAt, personalizedSubject, personalizedContent }] *)
Definition success (st : string) (at_ : Z) (subj cont : string) : t :=
  mk None None None None (Some st) None (Some (Some subj)) (Some (Some cont))
     (Some (Some at_)) None None.
End PartialScheduledEmail.

Module EmailLog.
Record t := mk {
  id : Z;
  clientId : Z;
  templateId : option Z;
  scheduledEmailId : option Z;
  subject : string;
  status : string;
  language : string;
  sentAt : Z;
  deliveredAt : option Z;
  openedAt : option Z;
  errorMessage : option string }.
End EmailLog.

Module InsertEmailLog.
Record t := mk {
  clientId : Z;
  templateId : option Z;
  scheduledEmailId : option Z;
  subject : string;
  status : string;
  language : string;
  errorMessage : option string }.
End InsertEmailLog.

(** [InsertClient]: [id] and [createdAt] are omitted; every column that is
    nullable or has a default is optional. An absent [language] is written
    as the empty string: the store copies the field as it is, and the server
    reads it only through [||], for which both are falsy. *)
Module InsertClient.
Record t := mk {
  name : string;
  email : string;
  company : option string;
  phone : option string;
  language : string;
  customFields : option (gmap string string);
  lastInteraction : option Z }.
End InsertClient.

(** [Partial<InsertClient>] *)
Module PartialInsertClient.
Record t := mk {
  name : option string;
  email : option string;
  company : option (option string);
  phone : option (option string);
  language : option string;
  customFields : option (option (gmap string string));
  lastInteraction : option (option Z) }.
End PartialInsertClient.

(** [InsertEmailTemplate]: [id], [createdAt] and [usageCount] are omitted. *)
Module InsertEmailTemplate.
Record t := mk {
  name : string;
  subject : gmap string string;
  content : gmap string string;
  variables : option (list string);
  primaryLanguage : option string;
  supportedLanguages : option (list string) }.
End InsertEmailTemplate.

(** [Partial<InsertEmailTemplate>] *)
Module PartialInsertEmailTemplate.
Record t := mk {
  name : option string;
  subject : option (gmap string string);
  content : option (gmap string string);
  variables : option (option (list string));
  primaryLanguage : option string;
  supportedLanguages : option (option (list string)) }.
End PartialInsertEmailTemplate.

(** [Partial<EmailLog>] *)
Module PartialEmailLog.
Record t := mk {
  id : option Z;
  clientId : option Z;
  templateId : option (option Z);
  scheduledEmailId : option (option Z);
  subject : option string;
  status : option string;
  language : option string;
  sentAt : option Z;
  deliveredAt : option (option Z);
  openedAt : option (option Z);
  errorMessage : option (option string) }.
End PartialEmailLog.

Module User.
Record t := mk {
  id : Z;
  username : string;
  password : string }.
End User.

Module InsertUser.
Record t := mk {
  username : string;
  password : string }.
End InsertUser.

(** ** JavaScript truthiness, as far as the code relies on it *)

Module Js.
(** [s || d] for a string that may be [undefined] or [null]. *)
Definition or_str (s : option string) (d : string) : string :=
  match s with
  | Some EmptyString => d
  | Some x => x
  | None => d
  end.

(** [n || null] for a number that may be absent: [0] is falsy. *)
Definition or_null_num (n : option Z) : option Z :=
  match n with
  | Some x => if x =? 0 then None else Some x
  | None => None
  end.

(** [s || null] for a string that may be absent. *)
Definition or_null_str (s : option string) : option string :=
  match s with
  | Some EmptyString => None
  | Some x => Some x
  | None => None
  end.

(** What reading a property of a string dictionary gives: a text, or a
    member inherited from [Object.prototype], which is a function or an
    object and never a text. *)
Inductive value :=
| Text (s : string)
| Inherited (name : string).

(** The names of the members of [Object.prototype]. *)
Definition objectPrototype : list string :=
  ["constructor"; "__defineGetter__"; "__defineSetter__"; "hasOwnProperty";
   "__lookupGetter__"; "__lookupSetter__"; "isPrototypeOf";
   "propertyIsEnumerable"; "toString"; "valueOf"; "__proto__";
   "toLocaleString"].

(** [dict[key]]: the dictionary's own entry, else the inherited member of
    that name, else [undefined]. *)
Definition getProp (dict : gmap string string) (key : string) : option value :=
  match dict !! key with
  | Some s => Some (Text s)
  | None =>
      if existsb (String.eqb key) objectPrototype then Some (Inherited key)
      else None
  end.

(** [a || b] where [a] may be [undefined]: only [undefined] and the empty
    text are falsy. *)
Definition or_val (a : option value) (b : value) : value :=
  match a with
  | Some (Text EmptyString) => b
  | Some v => v
  | None => b
  end.

(** [!v] *)
Definition not_val (v : value) : bool :=
  match v with Text EmptyString => true | _ => false end.

(** [{ ...a, ...b }] on string dictionaries: the later spread wins. *)
Definition spread (a b : gmap string string) : gmap string string := b ∪ a.

(** Stable sorting by a numeric key, as [Array.prototype.sort] does with
    the comparator [(a, b) => key(a) - key(b)]. *)
Section Sort.
Context {A : Type} (key : A -> Z).

Fixpoint insert_sorted (x : A) (l : list A) : list A :=
  match l with
  | [] => [x]
  | y :: l' => if key x <=? key y then x :: y :: l' else y :: insert_sorted x l'
  end.

Fixpoint sort (l : list A) : list A :=
  match l with
  | [] => []
  | x :: l' => insert_sorted x (sort l')
  end.
End Sort.

Fixpoint has_gt (s : string) : bool :=
  match s with
  | EmptyString => false
  | String c r => if Ascii.eqb c ">" then true else has_gt r
  end.

Fixpoint strip_from (in_tag : bool) (s : string) : string :=
  match s with
  | EmptyString => EmptyString
  | String c r =>
      if in_tag then
        if Ascii.eqb c ">" then strip_from false r else strip_from true r
      else if Ascii.eqb c "<" && has_gt r then strip_from true r
      else String c (strip_from false r)
  end.

(** [s.replace(/<[^>]*>/g, '')] *)
Definition stripTags (s : string) : string := strip_from false s.

(** Whether the pattern [<[^>]*>] matches somewhere in [s]: some [<] has a
    [>] after it. *)
Fixpoint hasTag (s : string) : bool :=
  match s with
  | EmptyString => false
  | String c r => (Ascii.eqb c "<" && has_gt r) || hasTag r
  end.
End Js.

(** ** The in-memory store ([server/storage.ts], class [MemStorage]) *)

Module MemStorage.
Record t := mk {
  clients : JsMap.t Client.t;
  emailTemplates : JsMap.t EmailTemplate.t;
  scheduledEmails : JsMap.t ScheduledEmail.t;
  emailLogs : JsMap.t EmailLog.t;
  currentClientId : Z;
  currentTemplateId : Z;
  currentScheduledEmailId : Z;
  currentLogId : Z }.

(** The constructor. *)
Definition new : t :=
  mk JsMap.empty JsMap.empty JsMap.empty JsMap.empty 1 1 1 1.

Definition with_emailTemplates (m : JsMap.t EmailTemplate.t) (s : t) : t :=
  mk (clients s) m (scheduledEmails s) (emailLogs s)
     (currentClientId s) (currentTemplateId s)
     (currentScheduledEmailId s) (currentLogId s).

Definition with_scheduledEmails (m : JsMap.t ScheduledEmail.t) (s : t) : t :=
  mk (clients s) (emailTemplates s) m (emailLogs s)
     (currentClientId s) (currentTemplateId s)
     (currentScheduledEmailId s) (currentLogId s).

Definition getClient (id : Z) (s : t) : option Client.t :=
  JsMap.get id (clients s).

Definition getEmailTemplate (id : Z) (s : t) : option EmailTemplate.t :=
  JsMap.get id (emailTemplates s).

Definition incrementTemplateUsage (id : Z) (s : t) : t :=
  match JsMap.get id (emailTemplates s) with
  | Some template =>
      let template' :=
        EmailTemplate.with_usageCount
          (Some (default 0 (Js.or_null_num (EmailTemplate.usageCount template)) + 1))
          template in
      with_emailTemplates (JsMap.set id template' (emailTemplates s)) s
  | None => s
  end.

Definition getScheduledEmail (id : Z) (s : t) : option ScheduledEmail.t :=
  JsMap.get id (scheduledEmails s).

(** The filter of [getPendingScheduledEmails]; [now] is the clock's
    reading, [new Date()]. *)
Definition isDue (now : Z) (email : ScheduledEmail.t) : bool :=
  String.eqb (ScheduledEmail.status email) "pending"
  && (ScheduledEmail.scheduledFor email <=? now).

Definition getPendingScheduledEmails (now : Z) (s : t) : list ScheduledEmail.t :=
  Js.sort ScheduledEmail.scheduledFor
    (List.filter (isDue now) (JsMap.values (scheduledEmails s))).

Definition createScheduledEmail (now : Z) (insertEmail : InsertScheduledEmail.t)
    (s : t) : ScheduledEmail.t * t :=
  let id := currentScheduledEmailId s in
  let email :=
    ScheduledEmail.mk
      id
      (InsertScheduledEmail.clientId insertEmail)
      (InsertScheduledEmail.templateId insertEmail)
      (InsertScheduledEmail.scheduledFor insertEmail)
      "pending"
      (Js.or_str (InsertScheduledEmail.language insertEmail) "en")
      None None None None
      now in
  (email,
   mk (clients s) (emailTemplates s)
      (JsMap.set id email (scheduledEmails s)) (emailLogs s)
      (currentClientId s) (currentTemplateId s) (id + 1) (currentLogId s)).

(** [{ ...existing, ...emailUpdate }] *)
Definition merge (existing : ScheduledEmail.t) (u : PartialScheduledEmail.t)
    : ScheduledEmail.t :=
  ScheduledEmail.mk
    (default (ScheduledEmail.id existing) (PartialScheduledEmail.id u))
    (default (ScheduledEmail.clientId existing) (PartialScheduledEmail.clientId u))
    (default (ScheduledEmail.templateId existing) (PartialScheduledEmail.templateId u))
    (default (ScheduledEmail.scheduledFor existing) (PartialScheduledEmail.scheduledFor u))
    (default (ScheduledEmail.status existing) (PartialScheduledEmail.status u))
    (default (ScheduledEmail.language existing) (PartialScheduledEmail.language u))
    (default (ScheduledEmail.personalizedSubject existing)
       (PartialScheduledEmail.personalizedSubject u))
    (default (ScheduledEmail.personalizedContent existing)
       (PartialScheduledEmail.personalizedContent u))
    (default (ScheduledEmail.sentAt existing) (PartialScheduledEmail.sentAt u))
    (default (ScheduledEmail.errorMessage existing) (PartialScheduledEmail.errorMessage u))
    (default (ScheduledEmail.createdAt existing) (PartialScheduledEmail.createdAt u)).

Definition updateScheduledEmail (id : Z) (emailUpdate : PartialScheduledEmail.t)
    (s : t) : option ScheduledEmail.t * t :=
  match JsMap.get id (scheduledEmails s) with
  | None => (None, s)
  | Some existing =>
      let updated := merge existing emailUpdate in
      (Some updated,
       with_scheduledEmails (JsMap.set id updated (scheduledEmails s)) s)
  end.

Definition deleteScheduledEmail (id : Z) (s : t) : bool * t :=
  (bool_decide (is_Some (JsMap.get id (scheduledEmails s))),
   with_scheduledEmails (JsMap.delete id (scheduledEmails s)) s).


Definition createEmailLog (now : Z) (insertLog : InsertEmailLog.t) (s : t)
    : EmailLog.t * t :=
  let id := currentLogId s in
  let log :=
    EmailLog.mk
      id
      (InsertEmailLog.clientId insertLog)
      (Js.or_null_num (InsertEmailLog.templateId insertLog))
      (Js.or_null_num (InsertEmailLog.scheduledEmailId insertLog))
      (InsertEmailLog.subject insertLog)
      (InsertEmailLog.status insertLog)
      (InsertEmailLog.language insertLog)
      now
      None None
      (Js.or_null_str (InsertEmailLog.errorMessage insertLog)) in
  (log,
   mk (clients s) (emailTemplates s) (scheduledEmails s)
      (JsMap.set id log (emailLogs s))
      (currentClientId s) (currentTemplateId s)
      (currentScheduledEmailId s) (id + 1)).
Definition with_clients (m : JsMap.t Client.t) (s : t) : t :=
  mk m (emailTemplates s) (scheduledEmails s) (emailLogs s)
     (currentClientId s) (currentTemplateId s)
     (currentScheduledEmailId s) (currentLogId s).


(** Newest first: the comparator is [b.createdAt - a.createdAt]. *)
Definition getClients (s : t) : list Client.t :=
  Js.sort (fun c => - Client.createdAt c) (JsMap.values (clients s)).


(** [{ ...existing, ...clientUpdate, company: ..., phone: ... }] *)
Definition mergeClient (existing : Client.t) (u : PartialInsertClient.t)
    : Client.t :=
  Client.mk
    (Client.id existing)
    (default (Client.name existing) (PartialInsertClient.name u))
    (default (Client.email existing) (PartialInsertClient.email u))
    (default (Client.company existing) (PartialInsertClient.company u))
    (default (Client.phone existing) (PartialInsertClient.phone u))
    (default (Client.language existing) (PartialInsertClient.language u))
    (default (Client.customFields existing) (PartialInsertClient.customFields u))
    (default (Client.lastInteraction existing)
       (PartialInsertClient.lastInteraction u))
    (Client.createdAt existing).

Definition updateClient (id : Z) (clientUpdate : PartialInsertClient.t) (s : t)
    : option Client.t * t :=
  match JsMap.get id (clients s) with
  | None => (None, s)
  | Some existing =>
      let updated := mergeClient existing clientUpdate in
      (Some updated, with_clients (JsMap.set id updated (clients s)) s)
  end.

Definition deleteClient (id : Z) (s : t) : bool * t :=
  (bool_decide (is_Some (JsMap.get id (clients s))),
   with_clients (JsMap.delete id (clients s)) s).

Definition getEmailTemplates (s : t) : list EmailTemplate.t :=
  Js.sort (fun x => - EmailTemplate.createdAt x) (JsMap.values (emailTemplates s)).


(** [{ ...existing, ...templateUpdate }] *)
Definition mergeTemplate (existing : EmailTemplate.t)
    (u : PartialInsertEmailTemplate.t) : EmailTemplate.t :=
  EmailTemplate.mk
    (EmailTemplate.id existing)
    (default (EmailTemplate.name existing) (PartialInsertEmailTemplate.name u))
    (default (EmailTemplate.subject existing) (PartialInsertEmailTemplate.subject u))
    (default (EmailTemplate.content existing) (PartialInsertEmailTemplate.content u))
    (default (EmailTemplate.variables existing)
       (PartialInsertEmailTemplate.variables u))
    (default (EmailTemplate.primaryLanguage existing)
       (PartialInsertEmailTemplate.primaryLanguage u))
    (default (EmailTemplate.supportedLanguages existing)
       (PartialInsertEmailTemplate.supportedLanguages u))
    (EmailTemplate.usageCount existing)
    (EmailTemplate.createdAt existing).

Definition updateEmailTemplate (id : Z) (templateUpdate : PartialInsertEmailTemplate.t)
    (s : t) : option EmailTemplate.t * t :=
  match JsMap.get id (emailTemplates s) with
  | None => (None, s)
  | Some existing =>
      let updated := mergeTemplate existing templateUpdate in
      (Some updated,
       with_emailTemplates (JsMap.set id updated (emailTemplates s)) s)
  end.

Definition deleteEmailTemplate (id : Z) (s : t) : bool * t :=
  (bool_decide (is_Some (JsMap.get id (emailTemplates s))),
   with_emailTemplates (JsMap.delete id (emailTemplates s)) s).

(** Newest first: the comparator is [b.sentAt - a.sentAt]. *)
Definition getEmailLogs (s : t) : list EmailLog.t :=
  Js.sort (fun l => - EmailLog.sentAt l) (JsMap.values (emailLogs s)).

Definition getEmailLogsForClient (clientId : Z) (s : t) : list EmailLog.t :=
  Js.sort (fun l => - EmailLog.sentAt l)
    (List.filter (fun log => EmailLog.clientId log =? clientId)
       (JsMap.values (emailLogs s))).



(** The counts of [getEmailStats]. Its [openRate] is floating-point
    arithmetic on [openedEmails] and [emailsSent] and is not part of this
    development. *)
Definition totalClients (s : t) : nat := JsMap.size (clients s).

Definition countsAsSent (log : EmailLog.t) : bool :=
  String.eqb (EmailLog.status log) "sent"
  || String.eqb (EmailLog.status log) "delivered"
  || String.eqb (EmailLog.status log) "opened".

Definition emailsSent (s : t) : nat :=
  length (List.filter countsAsSent (JsMap.values (emailLogs s))).

Definition openedEmails (s : t) : nat :=
  length (List.filter (fun log => String.eqb (EmailLog.status log) "opened")
            (JsMap.values (emailLogs s))).

Definition pendingSends (s : t) : nat :=
  length (List.filter (fun email => String.eqb (ScheduledEmail.status email) "pending")
            (JsMap.values (scheduledEmails s))).
End MemStorage.

(** ** The users of [MemStorage]

    The [users] map and its counter do not meet the rest of the store; they
    are kept in a record of their own. *)

Module Users.
Record t := mk {
  users : JsMap.t User.t;
  currentUserId : Z }.

Definition new : t := mk JsMap.empty 1.

Definition getUser (id : Z) (s : t) : option User.t := JsMap.get id (users s).

Definition getUserByUsername (username : string) (s : t) : option User.t :=
  List.find (fun user => String.eqb (User.username user) username)
    (JsMap.values (users s)).

Definition createUser (insertUser : InsertUser.t) (s : t) : User.t * t :=
  let id := currentUserId s in
  let user :=
    User.mk id (InsertUser.username insertUser) (InsertUser.password insertUser) in
  (user, mk (JsMap.set id user (users s)) (id + 1)).
End Users.

(** ** Effects: the store, the transport and exceptions *)

(** What [sendEmail] is called with. *)
Record EmailParams := mkEmailParams {
  ep_to : string;
  ep_from : string;
  ep_subject : string;
  ep_html : string;
  ep_text : string }.

(** A thrown value: an [Error] with its message, or anything else. *)
Inductive JsError :=
| ErrorObject (message : string)
| NotAnError.

Inductive outcome (A : Type) :=
| Return (a : A)
| Throw (e : JsError).
Arguments Return {A} a.
Arguments Throw {A} e.

(** The world a scheduler method runs in: the [storage] singleton and the
    messages handed to the transport so far, oldest first. *)
Record World := mkWorld {
  storage : MemStorage.t;
  outbox : list EmailParams }.

Definition Eff (A : Type) : Type := World -> outcome A * World.

Definition ret {A} (a : A) : Eff A := fun w => (Return a, w).

Definition bind {A B} (m : Eff A) (k : A -> Eff B) : Eff B :=
  fun w =>
    match m w with
    | (Return a, w') => k a w'
    | (Throw e, w') => (Throw e, w')
    end.

(** [try { body } catch (error) { handler }] *)
Definition try_catch {A} (body : Eff A) (handler : JsError -> Eff A) : Eff A :=
  fun w =>
    match body w with
    | (Return a, w') => (Return a, w')
    | (Throw e, w') => handler e w'
    end.

Notation "'let*' x ':=' m 'in' k" := (bind m (fun x => k))
  (at level 10, x pattern, m at level 100, k at level 200).
Notation "'do' m 'then' k" := (bind m (fun _ => k))
  (at level 10, m at level 100, k at level 200).

(** A read of the store. *)
Definition query {A} (f : MemStorage.t -> A) : Eff A :=
  fun w => (Return (f (storage w)), w).

(** A call of a store method that writes. *)
Definition update {A} (f : MemStorage.t -> A * MemStorage.t) : Eff A :=
  fun w => let '(a, s') := f (storage w) in (Return a, mkWorld s' (outbox w)).

Definition modify (f : MemStorage.t -> MemStorage.t) : Eff unit :=
  fun w => (Return tt, mkWorld (f (storage w)) (outbox w)).

(** [for (const x of xs) { await body(x) }] *)
Fixpoint for_of {A} (xs : list A) (body : A -> Eff unit) : Eff unit :=
  match xs with
  | [] => ret tt
  | x :: xs' => do body x then for_of xs' body
  end.

(** ** The scheduler ([server/services/scheduler.ts], class [EmailScheduler]) *)

Inductive Delay := Immediate | OneDay | OneWeek | OneMonth.

Module EmailScheduler.
Section Scheduler.
(** The server's time zone. *)
Variable zone : JsDate.Zone.
(** [Date.prototype.toLocaleDateString], which depends on the locale. *)
Variable toLocaleDateString : Z -> string.
(** [personalizeContent] of [./email], the template renderer: what it
    returns or throws for the value it is handed and the variables. *)
Variable personalizeContent : Js.value -> gmap string string -> outcome string.
(** [sendEmail] of [./email], the transport: what it answers to a message,
    given the messages it was handed before. *)
Variable sendEmail : list EmailParams -> EmailParams -> outcome bool.

(** A call of the transport: the message is recorded, the answer is the
    transport's. *)
Definition callSendEmail (p : EmailParams) : Eff bool :=
  fun w => (sendEmail (outbox w) p, mkWorld (storage w) (outbox w ++ [p])).

Definition updateScheduledEmail (id : Z) (u : PartialScheduledEmail.t)
    : Eff (option ScheduledEmail.t) :=
  update (MemStorage.updateScheduledEmail id u).

(** [scheduledEmail.language || client.language || 'en'] *)
Definition effectiveLanguage (scheduledEmail : ScheduledEmail.t)
    (client : Client.t) : string :=
  Js.or_str (Some (ScheduledEmail.language scheduledEmail))
    (Js.or_str (Some (Client.language client)) "en").

(** [dict[language] || dict[primaryLanguage] || ''] *)
Definition localized (dict : gmap string string) (language primary : string)
    : Js.value :=
  Js.or_val (Js.getProp dict language)
    (Js.or_val (Js.getProp dict primary) (Js.Text "")).

(** A computation that touches neither the store nor the transport. *)
Definition evaluate {A} (o : outcome A) : Eff A := fun w => (o, w).

(** The personalization variables of a client. *)
Definition variables (client : Client.t) : gmap string string :=
  Js.spread
    (<["client_name" := Client.name client]>
       (<["company" := Js.or_str (Client.company client) ""]>
          (<["last_interaction" :=
               match Client.lastInteraction client with
               | Some d => toLocaleDateString d
               | None => "N/A"
               end]> ∅)))
    (default ∅ (Client.customFields client)).

Definition sendScheduledEmail (now : Z) (scheduledEmail : ScheduledEmail.t)
    : Eff unit :=
  let id := ScheduledEmail.id scheduledEmail in
  try_catch
    (let* client := query (MemStorage.getClient (ScheduledEmail.clientId scheduledEmail)) in
     let* template := query (MemStorage.getEmailTemplate (ScheduledEmail.templateId scheduledEmail)) in
     match client, template with
     | Some client, Some template =>
         let language := effectiveLanguage scheduledEmail client in
         let subject :=
           localized (EmailTemplate.subject template) language
             (EmailTemplate.primaryLanguage template) in
         let content :=
           localized (EmailTemplate.content template) language
             (EmailTemplate.primaryLanguage template) in
         if Js.not_val subject || Js.not_val content then
           do updateScheduledEmail id
                (PartialScheduledEmail.failure "failed"
                   ("Template content not available for language: " +:+ language))
           then ret tt
         else
           let vars := variables client in
           let* personalizedSubject := evaluate (personalizeContent subject vars) in
           let* personalizedContent := evaluate (personalizeContent content vars) in
           let* success :=
             callSendEmail
               (mkEmailParams (Client.email client) "noreply@emailflow.app"
                  personalizedSubject personalizedContent
                  (Js.stripTags personalizedContent)) in
           if success : bool then
             do updateScheduledEmail id
                  (PartialScheduledEmail.success "sent" now
                     personalizedSubject personalizedContent)
             then
             do update (MemStorage.createEmailLog now
                  (InsertEmailLog.mk (Client.id client)
                     (Some (EmailTemplate.id template))
                     (Some id)
                     personalizedSubject "sent" language None))
             then
             modify (MemStorage.incrementTemplateUsage (EmailTemplate.id template))
           else
             do updateScheduledEmail id
                  (PartialScheduledEmail.failure "failed"
                     "Failed to send email via SendGrid")
             then ret tt
     | _, _ =>
         do updateScheduledEmail id
              (PartialScheduledEmail.failure "failed" "Client or template not found")
         then ret tt
     end)
    (fun error =>
       do updateScheduledEmail id
            (PartialScheduledEmail.failure "failed"
               match error with
               | ErrorObject message => message
               | NotAnError => "Unknown error"
               end)
       then ret tt).

Definition processPendingEmails (now : Z) : Eff unit :=
  try_catch
    (let* pendingEmails := query (MemStorage.getPendingScheduledEmails now) in
     for_of pendingEmails (sendScheduledEmail now))
    (fun _ => ret tt).

(** The value of the local [scheduledFor] of [scheduleEmail] after its
    [switch], from the clock's reading [now]. *)
Definition scheduledFor (delay : Delay) (now : Z) : Z :=
  match delay with
  | Immediate => JsDate.setMinutes zone now (JsDate.getMinutes zone now + 1)
  | OneDay => JsDate.setDate zone now (JsDate.getDate zone now + 1)
  | OneWeek => JsDate.setDate zone now (JsDate.getDate zone now + 7)
  | OneMonth => JsDate.setMonth zone now (JsDate.getMonth zone now + 1)
  end.

Definition scheduleEmail (now : Z) (clientId templateId : Z) (delay : Delay)
    (language : option string) (s : MemStorage.t)
    : ScheduledEmail.t * MemStorage.t :=
  MemStorage.createScheduledEmail now
    (InsertScheduledEmail.mk clientId templateId (scheduledFor delay now)
       None (Some (Js.or_str language "en")) None)
    s.
End Scheduler.
(** [start] and [stop]. The timers of the process are the pairs of a handle
    and a period in milliseconds that [setInterval] has registered and
    [clearInterval] has not removed; [intervalId] is the scheduler's field. *)
Record Loop := mkLoop {
  intervalId : option Z;
  timers : list (Z * Z);
  nextTimer : Z }.

Definition setInterval (period : Z) (r : Loop) : Z * Loop :=
  (nextTimer r,
   mkLoop (intervalId r) (timers r ++ [(nextTimer r, period)]) (nextTimer r + 1)).

Definition clearInterval (handle : Z) (r : Loop) : Loop :=
  mkLoop (intervalId r)
    (List.filter (fun t => negb (fst t =? handle)) (timers r))
    (nextTimer r).

Definition start (r : Loop) : Loop :=
  match intervalId r with
  | Some _ => r
  | None =>
      let '(handle, r') := setInterval 60000 r in
      mkLoop (Some handle) (timers r') (nextTimer r')
  end.

Definition stop (r : Loop) : Loop :=
  match intervalId r with
  | Some handle =>
      let r' := clearInterval handle r in
      mkLoop None (timers r') (nextTimer r')
  | None => r
  end.
End EmailScheduler.

(** ** Reference definitions and invariants used by the statements *)

Module Spec.
(** The documented reading of the [1month] delay: one calendar month
    later, the day of the month kept where the next month has it and
    clamped to the last day of that month otherwise. *)
Definition addMonthClamped (zone : JsDate.Zone) (now : Z) : Z :=
  let l := JsDate.LocalTime zone now in
  let y := JsDate.YearFromTime l in
  let m := JsDate.MonthFromTime l in
  let d := JsDate.DateFromTime l in
  let '(y', m') := JsDate.nextMonth y m in
  JsDate.UTC zone
    (JsDate.MakeDate
       (JsDate.MakeDay y' m' (Z.min d (JsDate.DaysInMonth y' m')))
       (JsDate.TimeWithinDay l)).

(** Modelled from the spec: [personalizeContent] of
    [server/services/email.ts], which is not part of the sources at hand.
    Every [{{name}}] whose name is a variable is replaced by the variable's
    value; a placeholder without a matching variable stays as it is. *)
Fixpoint substitute (vars : gmap string string) (inside : option string)
    (s : string) : string :=
  match s with
  | EmptyString =>
      match inside with
      | Some acc => "{{" +:+ acc
      | None => EmptyString
      end
  | String c r =>
      match inside with
      | None =>
          match r with
          | String c' r' =>
              if Ascii.eqb c "{" && Ascii.eqb c' "{"
              then substitute vars (Some EmptyString) r'
              else String c (substitute vars None r)
          | EmptyString => String c EmptyString
          end
      | Some acc =>
          match r with
          | String c' r' =>
              if Ascii.eqb c "}" && Ascii.eqb c' "}"
              then default ("{{" +:+ acc +:+ "}}") (vars !! acc)
                     +:+ substitute vars None r'
              else substitute vars (Some (acc +:+ String c EmptyString)) r
          | EmptyString => "{{" +:+ acc +:+ String c EmptyString
          end
      end
  end.

(** Modelled from the spec: the renderer substitutes by [replace] calls
    on its first argument; handed a value that is not a text, it throws the
    [TypeError] of calling [replace] on it. *)
Definition personalizeContent (v : Js.value) (vars : gmap string string)
    : outcome string :=
  match v with
  | Js.Text s => Return (substitute vars None s)
  | Js.Inherited _ => Throw (ErrorObject "content.replace is not a function")
  end.

(** A transport that accepts every message. *)
Definition acceptAll (_ : list EmailParams) (_ : EmailParams) : outcome bool :=
  Return true.

(** A date format for the examples: the day number since the epoch. *)
Definition dayNumber (t : Z) : string :=
  pretty (JsDate.Day t).
End Spec.

(** The built-in personalization variables of a client, before the custom
    fields are spread over them. *)
Definition builtinVariable (toLocaleDateString : Z -> string)
    (client : Client.t) (k : string) : option string :=
  if String.eqb k "client_name" then Some (Client.name client)
  else if String.eqb k "company" then Some (Js.or_str (Client.company client) "")
  else if String.eqb k "last_interaction" then
    Some match Client.lastInteraction client with
         | Some d => toLocaleDateString d
         | None => "N/A"
         end
  else None.

(** Every value of the map is stored under its own [id]. *)
Definition keyed {V} (idOf : V -> Z) (m : JsMap.t V) : Prop :=
  forall k v, In (k, v) m -> idOf v = k.

(** The keys were handed out by a counter that started at 1 and now stands
    at [next]: they increase along the insertion order and lie in
    [1 .. next - 1]. *)
Definition issued {V} (m : JsMap.t V) (next : Z) : Prop :=
  1 <= next
  /\ StronglySorted Z.lt (JsMap.keys m)
  /\ Forall (fun k => 1 <= k < next) (JsMap.keys m).

(** The invariant of a store that was built by the store's own [create]
    methods and the scheduler. *)
Record wf_store (s : MemStorage.t) : Prop := mk_wf {
  wf_clients : keyed Client.id (MemStorage.clients s);
  wf_clients_issued : issued (MemStorage.clients s) (MemStorage.currentClientId s);
  wf_templates : keyed EmailTemplate.id (MemStorage.emailTemplates s);
  wf_templates_issued :
    issued (MemStorage.emailTemplates s) (MemStorage.currentTemplateId s);
  wf_scheduled : keyed ScheduledEmail.id (MemStorage.scheduledEmails s);
  wf_scheduled_issued :
    issued (MemStorage.scheduledEmails s) (MemStorage.currentScheduledEmailId s);
  wf_logs_issued : issued (MemStorage.emailLogs s) (MemStorage.currentLogId s) }.

(** The timers known to the process were all handed out by its counter. *)
Definition timersIssued (r : EmailScheduler.Loop) : Prop :=
  Forall (fun t => fst t < EmailScheduler.nextTimer r) (EmailScheduler.timers r)
  /\ match EmailScheduler.intervalId r with
     | Some h => h < EmailScheduler.nextTimer r
     | None => True
     end.

(** The order of the due set: earlier due time first, and among equal due
    times the record created first (the smaller id). *)
Definition dueOrder (a b : ScheduledEmail.t) : Prop :=
  ScheduledEmail.scheduledFor a < ScheduledEmail.scheduledFor b
  \/ (ScheduledEmail.scheduledFor a = ScheduledEmail.scheduledFor b
      /\ ScheduledEmail.id a < ScheduledEmail.id b).

(** The record has been dispatched. *)
Definition settled (e : ScheduledEmail.t) : Prop :=
  ScheduledEmail.status e = "sent" \/ ScheduledEmail.status e = "failed".

Definition terminal (status : string) : Prop :=
  status = "sent" \/ status = "failed" \/ status = "cancelled".

(** What a dispatch of [scheduledEmail] for [client] and [template] sends and
    records, in the terms of [sendScheduledEmail]'s local constants. *)
Module Dispatch.
Section Dispatch.
Variable toLocaleDateString : Z -> string.
Variable personalizeContent : Js.value -> gmap string string -> outcome string.

Definition language (e : ScheduledEmail.t) (c : Client.t) : string :=
  EmailScheduler.effectiveLanguage e c.

Definition subject (e : ScheduledEmail.t) (c : Client.t) (t : EmailTemplate.t)
    : Js.value :=
  EmailScheduler.localized (EmailTemplate.subject t) (language e c)
    (EmailTemplate.primaryLanguage t).

Definition content (e : ScheduledEmail.t) (c : Client.t) (t : EmailTemplate.t)
    : Js.value :=
  EmailScheduler.localized (EmailTemplate.content t) (language e c)
    (EmailTemplate.primaryLanguage t).

(** The two calls of the renderer. *)
Definition personalizedSubject (e : ScheduledEmail.t) (c : Client.t)
    (t : EmailTemplate.t) : outcome string :=
  personalizeContent (subject e c t)
    (EmailScheduler.variables toLocaleDateString c).

Definition personalizedContent (e : ScheduledEmail.t) (c : Client.t)
    (t : EmailTemplate.t) : outcome string :=
  personalizeContent (content e c t)
    (EmailScheduler.variables toLocaleDateString c).
End Dispatch.

(** The message handed to the transport, for the rendered subject [ps] and
    the rendered content [pc]. *)
Definition message (c : Client.t) (ps pc : string) : EmailParams :=
  mkEmailParams (Client.email c) "noreply@emailflow.app" ps pc (Js.stripTags pc).

(** The record after a successful send. *)
Definition sent (now : Z) (e : ScheduledEmail.t) (ps pc : string)
    : ScheduledEmail.t :=
  ScheduledEmail.mk (ScheduledEmail.id e) (ScheduledEmail.clientId e)
    (ScheduledEmail.templateId e) (ScheduledEmail.scheduledFor e)
    "sent" (ScheduledEmail.language e) (Some ps) (Some pc)
    (Some now) (ScheduledEmail.errorMessage e) (ScheduledEmail.createdAt e).


(** The record after a failed dispatch. *)
Definition failed (e : ScheduledEmail.t) (msg : string) : ScheduledEmail.t :=
  ScheduledEmail.mk (ScheduledEmail.id e) (ScheduledEmail.clientId e)
    (ScheduledEmail.templateId e) (ScheduledEmail.scheduledFor e)
    "failed" (ScheduledEmail.language e)
    (ScheduledEmail.personalizedSubject e) (ScheduledEmail.personalizedContent e)
    (ScheduledEmail.sentAt e) (Some msg) (ScheduledEmail.createdAt e).

Definition errorText (error : JsError) : string :=
  match error with
  | ErrorObject message => message
  | NotAnError => "Unknown error"
  end.
End Dispatch.

(** The dispatch of [e] in [w] gets as far as the transport and the transport
    accepts the message: client and template resolve, subject and content
    resolve to something truthy, the renderer returns for both, and
    [sendEmail] answers [true]. *)
Definition accepted (toLocaleDateString : Z -> string)
    (personalizeContent : Js.value -> gmap string string -> outcome string)
    (sendEmail : list EmailParams -> EmailParams -> outcome bool)
    (e : ScheduledEmail.t) (w : World) : Prop :=
  exists c t ps pc,
    MemStorage.getClient (ScheduledEmail.clientId e) (storage w) = Some c
    /\ MemStorage.getEmailTemplate (ScheduledEmail.templateId e) (storage w) = Some t
    /\ Js.not_val (Dispatch.subject e c t) = false
    /\ Js.not_val (Dispatch.content e c t) = false
    /\ Dispatch.personalizedSubject toLocaleDateString personalizeContent e c t
       = Return ps
    /\ Dispatch.personalizedContent toLocaleDateString personalizeContent e c t
       = Return pc
    /\ sendEmail (outbox w) (Dispatch.message c ps pc) = Return true.

(** A partial update that sets the status and nothing else. *)
Definition statusUpdate (status : string) : PartialScheduledEmail.t :=
  PartialScheduledEmail.mk None None None None (Some status) None None None None
    None None.

(** Templates up to their usage counters. *)
Definition eraseUsage (m : JsMap.t EmailTemplate.t) : JsMap.t EmailTemplate.t :=
  map (fun kv => (fst kv, EmailTemplate.with_usageCount None (snd kv))) m.

(** [s'] differs from [s] at most in the scheduled emails with an id in
    [ids], in the usage counters, and in the email logs. *)
Record touchesOnly (ids : list Z) (s s' : MemStorage.t) : Prop := mk_touches {
  to_clients : MemStorage.clients s' = MemStorage.clients s;
  to_templates :
    eraseUsage (MemStorage.emailTemplates s') = eraseUsage (MemStorage.emailTemplates s);
  to_scheduled :
    forall k, ~ In k ids ->
      JsMap.get k (MemStorage.scheduledEmails s')
      = JsMap.get k (MemStorage.scheduledEmails s);
  to_keys :
    JsMap.keys (MemStorage.scheduledEmails s')
    = JsMap.keys (MemStorage.scheduledEmails s) }.

(** ** A small deployment, for the examples *)

Module Example.
Definition acme : Client.t :=
  Client.mk 1 "Acme" "ops@acme.test" (Some "Acme Corp") None "en"
    (Some {[ "plan" := "gold" ]}) None 0.

Definition followUp : EmailTemplate.t :=
  EmailTemplate.mk 1 "Follow-up"
    (<["en" := "Hello {{client_name}}"]> {[ "fr" := "Bonjour {{client_name}}" ]})
    {[ "en" := "<p>Hi {{client_name}} of {{company}}</p>" ]}
    (Some ["client_name"; "company"]) "en" (Some ["en"; "fr"]) (Some 0) 0.

(** One client and one template, nothing scheduled yet. *)
Definition base : MemStorage.t :=
  MemStorage.mk [(1, acme)] [(1, followUp)] [] [] 2 2 1 1.

(** 31 January 2023, midnight UTC. *)
Definition T0 : Z := 1675123200000.

(** The server runs on UTC. *)
Definition utc : JsDate.Zone := JsDate.fixed 0.

(** America/New_York around 5 November 2023: daylight saving ends at 06:00
    UTC, when the local clocks go from 02:00 back to 01:00. Before that
    instant local time is four hours behind UTC, from it on five. A local
    time before the 02:00 of that day is read back at the earlier offset,
    also in the repeated hour. *)
Definition newYork : JsDate.Zone :=
  JsDate.mkZone
    (fun t => if t <? 1699164000000 then -14400000 else -18000000)
    (fun l => if l <? 1699149600000 then -14400000 else -18000000).

Definition send :=
  EmailScheduler.sendScheduledEmail Spec.dayNumber Spec.personalizeContent
    Spec.acceptAll.

Definition tick :=
  EmailScheduler.processPendingEmails Spec.dayNumber Spec.personalizeContent
    Spec.acceptAll.

(** Two minutes later. *)
Definition T2 : Z := T0 + 120000.

(** A follow-up for Acme, scheduled at [T0] with delay [immediate]. *)
Definition email1 : ScheduledEmail.t :=
  fst (EmailScheduler.scheduleEmail utc T0 1 1 Immediate None base).

Definition scheduled1 : MemStorage.t :=
  snd (EmailScheduler.scheduleEmail utc T0 1 1 Immediate None base).

(** The same, after the tick two minutes later. *)
Definition afterTick1 : World :=
  snd (tick T2 (mkWorld scheduled1 [])).

(** The record of [afterTick1], which is [sent]. *)
Definition sent1 : ScheduledEmail.t :=
  Dispatch.sent T2 email1 "Hello Acme" "<p>Hi Acme of Acme Corp</p>".

(** A record for a client that does not exist (id 7), then one for Acme,
    both due. *)
Definition emailGhost : ScheduledEmail.t :=
  fst (EmailScheduler.scheduleEmail utc T0 7 1 Immediate None base).

Definition emailAcme2 : ScheduledEmail.t :=
  fst (EmailScheduler.scheduleEmail utc T0 1 1 Immediate None
         (snd (EmailScheduler.scheduleEmail utc T0 7 1 Immediate None base))).

Definition scheduled2 : MemStorage.t :=
  snd (EmailScheduler.scheduleEmail utc T0 1 1 Immediate None
         (snd (EmailScheduler.scheduleEmail utc T0 7 1 Immediate None base))).

(** A record asking for French: the template has a French subject but no
    French content. *)
Definition emailFr : ScheduledEmail.t :=
  fst (EmailScheduler.scheduleEmail utc T0 1 1 Immediate (Some "fr") base).



End Example.

(** * Properties *)

(** ** The calendar functions *)

Ltac month_cases m :=
  let H := fresh in
  assert (H : m = 0 \/ m = 1 \/ m = 2 \/ m = 3 \/ m = 4 \/ m = 5 \/ m = 6
              \/ m = 7 \/ m = 8 \/ m = 9 \/ m = 10 \/ m = 11) by lia;
  repeat (destruct H as [H|H]); subst m.

(** Case analysis on every comparison of the goal, closing the cases that
    arithmetic settles. *)
Ltac cmp_cases :=
  repeat match goal with
    | |- context [?a <? ?b] => destruct (Z.ltb_spec a b); try lia
    | |- context [?a <=? ?b] => destruct (Z.leb_spec a b); try lia
    | |- context [?a =? ?b] => destruct (Z.eqb_spec a b); try lia
    end.

Import JsDate.

Lemma DayFromYear_succ (y : Z) : DayFromYear (y + 1) = DayFromYear y + DaysInYear y.
Proof.
  unfold DayFromYear, DaysInYear, isLeap.
  destruct (Z.eqb_spec (y mod 4) 0), (Z.eqb_spec (y mod 100) 0),
    (Z.eqb_spec (y mod 400) 0); simpl;
    Z.div_mod_to_equations; lia.
Qed.

Lemma DayFromYear_lt (a b : Z) : a < b -> DayFromYear a < DayFromYear b.
Proof. unfold DayFromYear. intros H. Z.div_mod_to_equations. lia. Qed.

Lemma DayFromYear_le (a b : Z) : a <= b -> DayFromYear a <= DayFromYear b.
Proof.
  intros H. destruct (Z.eq_dec a b) as [->|Hne]; [lia|].
  apply Z.lt_le_incl, DayFromYear_lt. lia.
Qed.

(** [YearFromDay] meets the specification of [YearFromTime]: it is the
    largest year that starts on or before the day. *)
Lemma YearFromDay_spec (d : Z) :
  DayFromYear (YearFromDay d) <= d < DayFromYear (YearFromDay d + 1).
Proof.
  unfold YearFromDay.
  set (e := 1970 + 400 * d / 146097).
  assert (He : DayFromYear (e - 1) <= d < DayFromYear (e + 2)).
  { unfold DayFromYear, e. Z.div_mod_to_equations. lia. }
  destruct (Z.leb_spec (DayFromYear (e + 1)) d) as [H1|H1].
  - replace (e + 1 + 1) with (e + 2) by lia. lia.
  - destruct (Z.leb_spec (DayFromYear e) d) as [H2|H2].
    + lia.
    + replace (e - 1 + 1) with e by lia. lia.
Qed.

Lemma YearFromDay_unique (d y : Z) :
  DayFromYear y <= d < DayFromYear (y + 1) -> YearFromDay d = y.
Proof.
  intros [Hlo Hhi]. pose proof (YearFromDay_spec d) as [Slo Shi].
  destruct (Z.lt_trichotomy (YearFromDay d) y) as [Hlt|[Heq|Hgt]]; [|exact Heq|].
  - assert (DayFromYear (YearFromDay d + 1) <= DayFromYear y)
      by (apply DayFromYear_le; lia). lia.
  - assert (DayFromYear (y + 1) <= DayFromYear (YearFromDay d))
      by (apply DayFromYear_le; lia). lia.
Qed.

Lemma leapZ_cases (y : Z) :
  (leapZ y = 0 /\ DaysInYear y = 365) \/ (leapZ y = 1 /\ DaysInYear y = 366).
Proof. unfold leapZ, DaysInYear. destruct (isLeap y); auto. Qed.

Lemma DayWithinYear_range (t : Z) :
  0 <= DayWithinYear t < DaysInYear (YearFromTime t).
Proof.
  unfold DayWithinYear, YearFromTime.
  pose proof (YearFromDay_spec (Day t)) as H.
  rewrite DayFromYear_succ in H. lia.
Qed.

Lemma Day_civil (t : Z) :
  Day t = DayFromYear (YearFromTime t)
          + monthStart (InLeapYear t) (MonthFromTime t) + DateFromTime t - 1.
Proof. unfold DateFromTime, DayWithinYear. lia. Qed.

Lemma time_split (t : Z) : t = MakeDate (Day t) (TimeWithinDay t).
Proof.
  unfold MakeDate, Day, TimeWithinDay, msPerDay. Z.div_mod_to_equations. lia.
Qed.

Lemma TimeWithinDay_range (t : Z) : 0 <= TimeWithinDay t < msPerDay.
Proof. unfold TimeWithinDay, msPerDay. Z.div_mod_to_equations. lia. Qed.

Lemma Day_MakeDate (d tod : Z) :
  0 <= tod < msPerDay -> Day (MakeDate d tod) = d.
Proof.
  unfold Day, MakeDate, msPerDay. intros H. Z.div_mod_to_equations. lia.
Qed.

Lemma TimeWithinDay_MakeDate (d tod : Z) :
  0 <= tod < msPerDay -> TimeWithinDay (MakeDate d tod) = tod.
Proof.
  unfold TimeWithinDay, MakeDate, msPerDay. intros H. Z.div_mod_to_equations. lia.
Qed.

(** The table of month starts, for rewriting. *)
Lemma monthStart_table (leap : Z) :
  monthStart leap 0 = 0 /\ monthStart leap 1 = 31
  /\ monthStart leap 2 = 59 + leap /\ monthStart leap 3 = 90 + leap
  /\ monthStart leap 4 = 120 + leap /\ monthStart leap 5 = 151 + leap
  /\ monthStart leap 6 = 181 + leap /\ monthStart leap 7 = 212 + leap
  /\ monthStart leap 8 = 243 + leap /\ monthStart leap 9 = 273 + leap
  /\ monthStart leap 10 = 304 + leap /\ monthStart leap 11 = 334 + leap
  /\ monthStart leap 12 = 365 + leap.
Proof. repeat split. Qed.

Ltac month_table leap :=
  let H := fresh in
  pose proof (monthStart_table leap) as H;
  change (0 + 1) with 1 in *; change (1 + 1) with 2 in *;
  change (2 + 1) with 3 in *; change (3 + 1) with 4 in *;
  change (4 + 1) with 5 in *; change (5 + 1) with 6 in *;
  change (6 + 1) with 7 in *; change (7 + 1) with 8 in *;
  change (8 + 1) with 9 in *; change (9 + 1) with 10 in *;
  change (10 + 1) with 11 in *; change (11 + 1) with 12 in *;
  lia.

Lemma monthOfYearDay_range (leap d : Z) : 0 <= monthOfYearDay leap d <= 11.
Proof. unfold monthOfYearDay. cmp_cases. Qed.

Lemma monthOfYearDay_bounds (leap d : Z) :
  0 <= leap <= 1 -> 0 <= d < 365 + leap ->
  monthStart leap (monthOfYearDay leap d) <= d
    < monthStart leap (monthOfYearDay leap d + 1).
Proof.
  intros Hl Hd. unfold monthOfYearDay. cmp_cases; month_table leap.
Qed.

Lemma monthOfYearDay_start (leap m d : Z) :
  0 <= leap <= 1 -> 0 <= m <= 11 ->
  monthStart leap m <= d < monthStart leap (m + 1) ->
  monthOfYearDay leap d = m.
Proof.
  intros Hl Hm Hd. unfold monthOfYearDay.
  month_cases m; cmp_cases; month_table leap.
Qed.

Lemma InLeapYear_leapZ (t : Z) : InLeapYear t = leapZ (YearFromTime t).
Proof. reflexivity. Qed.

Lemma leapZ_range (y : Z) : 0 <= leapZ y <= 1.
Proof. unfold leapZ. destruct (isLeap y); lia. Qed.

Lemma MonthFromTime_range (t : Z) : 0 <= MonthFromTime t <= 11.
Proof. apply monthOfYearDay_range. Qed.

Lemma DateFromTime_range (t : Z) :
  1 <= DateFromTime t <= DaysInMonth (YearFromTime t) (MonthFromTime t).
Proof.
  unfold DateFromTime, DaysInMonth, MonthFromTime.
  rewrite InLeapYear_leapZ.
  pose proof (DayWithinYear_range t) as Hr.
  pose proof (leapZ_range (YearFromTime t)) as Hl.
  assert (Hd : 0 <= DayWithinYear t < 365 + leapZ (YearFromTime t))
    by (destruct (leapZ_cases (YearFromTime t)) as [[? ?]|[? ?]]; lia).
  pose proof (monthOfYearDay_bounds _ _ Hl Hd). lia.
Qed.

Lemma DaysInMonth_range (y m : Z) : 0 <= m <= 11 -> 28 <= DaysInMonth y m <= 31.
Proof.
  intros Hm. unfold DaysInMonth. pose proof (leapZ_range y).
  month_cases m; month_table (leapZ y).
Qed.

Lemma MakeDay_in_year (y m d : Z) :
  0 <= m <= 11 -> MakeDay y m d = DayFromYear y + monthStart (leapZ y) m + d - 1.
Proof.
  intros Hm. unfold MakeDay.
  replace (m / 12) with 0 by (Z.div_mod_to_equations; lia).
  replace (m mod 12) with m by (Z.div_mod_to_equations; lia).
  replace (y + 0) with y by lia. reflexivity.
Qed.

(** A date built by [MakeDay] and [MakeDate] from a year, a month and a day
    of that month reads back as that year, month and day. *)
Lemma civil_of_MakeDate (y m d tod : Z) :
  0 <= m <= 11 -> 1 <= d <= DaysInMonth y m -> 0 <= tod < msPerDay ->
  let t := MakeDate (MakeDay y m d) tod in
  YearFromTime t = y /\ MonthFromTime t = m /\ DateFromTime t = d
  /\ TimeWithinDay t = tod.
Proof.
  intros Hm Hd Htod t.
  assert (HD : Day t = DayFromYear y + monthStart (leapZ y) m + d - 1).
  { unfold t. rewrite Day_MakeDate by exact Htod. apply MakeDay_in_year, Hm. }
  unfold DaysInMonth in Hd.
  pose proof (leapZ_range y) as Hl.
  assert (Hms : 0 <= monthStart (leapZ y) m
                /\ monthStart (leapZ y) (m + 1) <= 365 + leapZ y).
  { month_cases m; month_table (leapZ y). }
  assert (HY : YearFromTime t = y).
  { unfold YearFromTime. apply YearFromDay_unique. rewrite DayFromYear_succ, HD.
    destruct (leapZ_cases y) as [[? ?]|[? ?]]; lia. }
  assert (HW : DayWithinYear t = monthStart (leapZ y) m + d - 1).
  { unfold DayWithinYear. rewrite HY, HD. lia. }
  assert (HM : MonthFromTime t = m).
  { unfold MonthFromTime. rewrite InLeapYear_leapZ, HY, HW.
    apply monthOfYearDay_start; lia. }
  repeat split; [exact HY|exact HM| |].
  - unfold DateFromTime. rewrite InLeapYear_leapZ, HM, HY, HW. lia.
  - unfold t. apply TimeWithinDay_MakeDate, Htod.
Qed.

(** The three [Date] setters, as the scheduler calls them, in a zone at a
    fixed offset. *)

Lemma LocalTime_fixed (tza t : Z) : LocalTime (fixed tza) t = t + tza.
Proof. reflexivity. Qed.

Lemma UTC_fixed (tza l : Z) : UTC (fixed tza) l = l - tza.
Proof. reflexivity. Qed.

Lemma setMinutes_next (tza t : Z) :
  setMinutes (fixed tza) t (getMinutes (fixed tza) t + 1) = t + msPerMinute.
Proof.
  unfold setMinutes, getMinutes. rewrite UTC_fixed, LocalTime_fixed.
  unfold MakeDate, MakeTime, Day,
    HourFromTime, MinFromTime, SecFromTime, msFromTime,
    msPerDay, msPerHour, msPerMinute, msPerSecond.
  Z.div_mod_to_equations. lia.
Qed.

Lemma setDate_plus (tza t k : Z) :
  setDate (fixed tza) t (getDate (fixed tza) t + k) = t + k * msPerDay.
Proof.
  unfold setDate, getDate. rewrite UTC_fixed, LocalTime_fixed.
  set (l := t + tza).
  rewrite MakeDay_in_year by apply MonthFromTime_range.
  rewrite <- InLeapYear_leapZ.
  pose proof (Day_civil l) as HD. pose proof (time_split l) as HT.
  unfold MakeDate in *. unfold l in *. lia.
Qed.

Lemma MakeDay_next_month (y m d : Z) :
  0 <= m <= 11 ->
  MakeDay y (m + 1) d
  = DayFromYear y + monthStart (leapZ y) m + DaysInMonth y m + d - 1.
Proof.
  intros Hm. unfold DaysInMonth.
  destruct (Z.eq_dec m 11) as [->|Hne].
  - unfold MakeDay. change ((11 + 1) / 12) with 1. change ((11 + 1) mod 12) with 0.
    change (monthStart (leapZ (y + 1)) 0) with 0. rewrite DayFromYear_succ.
    destruct (leapZ_cases y) as [[? ?]|[? ?]]; month_table (leapZ y).
  - rewrite MakeDay_in_year by lia. lia.
Qed.

(** [setMonth(getMonth() + 1)] adds the length of the current month. *)
Lemma setMonth_next (tza t : Z) :
  let l := LocalTime (fixed tza) t in
  setMonth (fixed tza) t (getMonth (fixed tza) t + 1)
  = t + DaysInMonth (YearFromTime l) (MonthFromTime l) * msPerDay.
Proof.
  intros l. unfold setMonth, getMonth. rewrite UTC_fixed. fold l.
  rewrite MakeDay_next_month by apply MonthFromTime_range.
  rewrite <- InLeapYear_leapZ.
  pose proof (Day_civil l) as HD. pose proof (time_split l) as HT.
  unfold MakeDate in *. unfold l in *. rewrite LocalTime_fixed in *. lia.
Qed.


(** ** The delay resolver *)

Section DelayResolver.
Variable tza : Z.

Lemma scheduledFor_Immediate (now : Z) :
  EmailScheduler.scheduledFor (fixed tza) Immediate now = now + msPerMinute.
Proof. apply setMinutes_next. Qed.

Lemma scheduledFor_OneDay (now : Z) :
  EmailScheduler.scheduledFor (fixed tza) OneDay now = now + msPerDay.
Proof. unfold EmailScheduler.scheduledFor. rewrite setDate_plus. lia. Qed.

Lemma scheduledFor_OneWeek (now : Z) :
  EmailScheduler.scheduledFor (fixed tza) OneWeek now = now + 7 * msPerDay.
Proof. unfold EmailScheduler.scheduledFor. rewrite setDate_plus. lia. Qed.

Lemma scheduledFor_OneMonth (now : Z) :
  EmailScheduler.scheduledFor (fixed tza) OneMonth now
  = now + DaysInMonth (YearFromTime (LocalTime (fixed tza) now))
            (MonthFromTime (LocalTime (fixed tza) now)) * msPerDay.
Proof. apply setMonth_next. Qed.

Lemma MakeDay_carry (y m d : Z) :
  0 <= m <= 11 ->
  MakeDay y (m + 1) d = MakeDay (fst (nextMonth y m)) (snd (nextMonth y m)) d.
Proof.
  intros Hm. unfold nextMonth. destruct (Z.eqb_spec m 11) as [->|Hne]; cbn [fst snd].
  - unfold MakeDay. change ((11 + 1) / 12) with 1. change ((11 + 1) mod 12) with 0.
    change (0 / 12) with 0. change (0 mod 12) with 0.
    replace (y + 1 + 0) with (y + 1) by lia. reflexivity.
  - rewrite !MakeDay_in_year by lia. reflexivity.
Qed.

Lemma MakeDay_overflow (y m d : Z) :
  0 <= m <= 10 -> MakeDay y m d = MakeDay y (m + 1) (d - DaysInMonth y m).
Proof.
  intros Hm. rewrite !MakeDay_in_year by lia. unfold DaysInMonth. lia.
Qed.

Lemma DaysInMonth_December (y : Z) : DaysInMonth y 11 = 31.
Proof. unfold DaysInMonth. month_table (leapZ y). Qed.

Lemma nextMonth_range (y m : Z) : 0 <= m <= 11 -> 0 <= snd (nextMonth y m) <= 11.
Proof. intros Hm. unfold nextMonth. destruct (Z.eqb_spec m 11); cbn; lia. Qed.

(** C4, as the code has it, in a time zone at a fixed offset from UTC. One
    month after [now], [scheduleEmail]'s due time has the same local time of
    day, and its date is the day of the month of [now] in the next calendar
    month when that month has such a day; otherwise the surplus days roll
    over into the month after it (31 January gives 3 March, or 2 March in a
    leap year). Nothing is clamped. *)
Theorem scheduledFor_OneMonth_rolls_over (now : Z) :
  let l := LocalTime (fixed tza) now in
  let d := DateFromTime l in
  let y' := fst (nextMonth (YearFromTime l) (MonthFromTime l)) in
  let m' := snd (nextMonth (YearFromTime l) (MonthFromTime l)) in
  let l' := LocalTime (fixed tza) (EmailScheduler.scheduledFor (fixed tza) OneMonth now) in
  TimeWithinDay l' = TimeWithinDay l
  /\ (d <= DaysInMonth y' m' ->
      YearFromTime l' = y' /\ MonthFromTime l' = m' /\ DateFromTime l' = d)
  /\ (DaysInMonth y' m' < d ->
      YearFromTime l' = y' /\ MonthFromTime l' = m' + 1
      /\ DateFromTime l' = d - DaysInMonth y' m').
Proof.
  intros l d y' m' l'.
  pose proof (MonthFromTime_range l) as Hm.
  pose proof (DateFromTime_range l) as Hd. fold d in Hd.
  pose proof (TimeWithinDay_range l) as Ht.
  pose proof (nextMonth_range (YearFromTime l) _ Hm) as Hm'. fold m' in Hm'.
  pose proof (DaysInMonth_range (YearFromTime l) _ Hm) as Hdim.
  assert (El : l' = MakeDate (MakeDay y' m' d) (TimeWithinDay l)).
  { unfold l', EmailScheduler.scheduledFor, setMonth, getMonth.
    rewrite UTC_fixed, (LocalTime_fixed tza (_ - tza)). fold l. fold d.
    rewrite MakeDay_carry by exact Hm. fold y' m'. lia. }
  split; [|split].
  - rewrite El. apply TimeWithinDay_MakeDate, Ht.
  - intros Hfit. rewrite El.
    destruct (civil_of_MakeDate y' m' d (TimeWithinDay l)) as (HY & HM & HD & _);
      [lia | lia | exact Ht |]. auto.
  - intros Hover. rewrite El.
    assert (Hm10 : 0 <= m' <= 10).
    { destruct (Z.eq_dec m' 11) as [E|E]; [|lia].
      rewrite E, DaysInMonth_December in Hover. lia. }
    pose proof (DaysInMonth_range y' m' Hm') as Hdim'.
    assert (Hm1 : 0 <= m' + 1 <= 11) by lia.
    pose proof (DaysInMonth_range y' (m' + 1) Hm1) as Hdim''.
    rewrite (MakeDay_overflow y' m' d) by exact Hm10.
    destruct (civil_of_MakeDate y' (m' + 1) (d - DaysInMonth y' m') (TimeWithinDay l))
      as (HY & HM & HD & _); [lia | lia | exact Ht |]. auto.
Qed.

(** C7, as the code has it. In a time zone at a fixed offset from UTC
    every delay gives a due time strictly after [now]; the due time grows
    with [now] for [immediate], [1day] and [1week], and for [1month] as long
    as both clock readings lie in the same calendar month. In a zone with
    daylight saving not even the first part holds: in New York, at 06:30 UTC
    on 5 November 2023, the due time of [immediate] is 59 minutes before
    [now]. *)
Theorem scheduledFor_after_now_and_monotone :
  (forall delay now, now < EmailScheduler.scheduledFor (fixed tza) delay now)
  /\ (forall delay now1 now2,
        delay <> OneMonth -> now1 <= now2 ->
        EmailScheduler.scheduledFor (fixed tza) delay now1
        <= EmailScheduler.scheduledFor (fixed tza) delay now2)
  /\ (forall now1 now2,
        now1 <= now2 ->
        YearFromTime (LocalTime (fixed tza) now1) = YearFromTime (LocalTime (fixed tza) now2) ->
        MonthFromTime (LocalTime (fixed tza) now1) = MonthFromTime (LocalTime (fixed tza) now2) ->
        EmailScheduler.scheduledFor (fixed tza) OneMonth now1
        <= EmailScheduler.scheduledFor (fixed tza) OneMonth now2)
  /\ EmailScheduler.scheduledFor Example.newYork Immediate 1699165800000
     = 1699165800000 - 3540000.
Proof.
  split; [|split; [|split; [|vm_compute; reflexivity]]].
  - intros delay now. destruct delay.
    + rewrite scheduledFor_Immediate. unfold msPerMinute. lia.
    + rewrite scheduledFor_OneDay. unfold msPerDay. lia.
    + rewrite scheduledFor_OneWeek. unfold msPerDay. lia.
    + rewrite scheduledFor_OneMonth.
      pose proof (DaysInMonth_range (YearFromTime (LocalTime (fixed tza) now)) _
                    (MonthFromTime_range (LocalTime (fixed tza) now))).
      unfold msPerDay. lia.
  - intros delay now1 now2 Hd Hle. destruct delay; [| | |congruence].
    + rewrite !scheduledFor_Immediate. lia.
    + rewrite !scheduledFor_OneDay. lia.
    + rewrite !scheduledFor_OneWeek. lia.
  - intros now1 now2 Hle HY HM. rewrite !scheduledFor_OneMonth, HY, HM. lia.
Qed.

End DelayResolver.

(** The clock readings of the examples: 31 January and 1 February 2023,
    midnight UTC. *)
Lemma scheduledFor_OneMonth_rolls_over_witness :
  let now := 1675123200000 in
  let due := EmailScheduler.scheduledFor Example.utc OneMonth now in
  JsDate.MonthFromTime (JsDate.LocalTime Example.utc due) = 2
  /\ JsDate.DateFromTime (JsDate.LocalTime Example.utc due) = 3.
Proof.
  intros now due.
  destruct (scheduledFor_OneMonth_rolls_over 0 now) as (_ & _ & H).
  destruct H as (_ & HM & HD); [vm_compute; reflexivity|].
  split; [exact HM | exact HD].
Defined.

(** C4 fails as stated: on 31 January 2023 the due time is 3 March, not the
    clamped 28 February. *)
Lemma scheduledFor_OneMonth_not_clamped :
  let now := 1675123200000 in
  let due := EmailScheduler.scheduledFor Example.utc OneMonth now in
  due <> Spec.addMonthClamped Example.utc now
  /\ JsDate.MonthFromTime (JsDate.LocalTime Example.utc (Spec.addMonthClamped Example.utc now)) = 1
  /\ JsDate.DateFromTime (JsDate.LocalTime Example.utc (Spec.addMonthClamped Example.utc now)) = 28
  /\ JsDate.MonthFromTime (JsDate.LocalTime Example.utc due) = 2
  /\ JsDate.DateFromTime (JsDate.LocalTime Example.utc due) = 3.
Proof. vm_compute. repeat split; congruence. Qed.

Lemma scheduledFor_after_now_and_monotone_witness :
  1675123200000 < EmailScheduler.scheduledFor Example.utc OneMonth 1675123200000
  /\ EmailScheduler.scheduledFor Example.utc OneWeek 1675123200000
     <= EmailScheduler.scheduledFor Example.utc OneWeek 1675209600000
  /\ EmailScheduler.scheduledFor Example.utc OneMonth 1675209600000
     <= EmailScheduler.scheduledFor Example.utc OneMonth 1675296000000.
Proof.
  destruct (scheduledFor_after_now_and_monotone 0) as (H1 & H2 & H3 & _).
  split; [apply H1|split].
  - apply H2; [discriminate | lia].
  - apply H3; [lia | reflexivity | reflexivity].
Defined.

(** C7 fails as stated: for [1month] the due time is not monotone in [now].
    31 January 2023 is due on 3 March, the later 1 February on 1 March. *)
Lemma scheduledFor_OneMonth_not_monotone :
  ~ (forall delay now1 now2,
       now1 <= now2 ->
       EmailScheduler.scheduledFor Example.utc delay now1
       <= EmailScheduler.scheduledFor Example.utc delay now2).
Proof.
  intros H. specialize (H OneMonth 1675123200000 1675209600000).
  vm_compute in H. apply H; [discriminate | reflexivity].
Qed.

(** In New York, one minute after half past one in the repeated hour of
    5 November 2023 is read back in the hour before it: scheduled at 06:30
    UTC with delay [immediate], the record is due at 05:31 UTC, 59 minutes
    before it was scheduled. An hour before the clocks change, at 05:00
    UTC, and two hours after, at 08:00 UTC, the record is due one minute
    later. *)
Lemma scheduledFor_Immediate_daylight_saving :
  let now := 1699165800000 in
  EmailScheduler.scheduledFor Example.newYork Immediate now = now - 3540000
  /\ EmailScheduler.scheduledFor Example.newYork Immediate now < now
  /\ EmailScheduler.scheduledFor Example.newYork Immediate 1699160400000
     = 1699160400000 + 60000
  /\ EmailScheduler.scheduledFor Example.newYork Immediate 1699171200000
     = 1699171200000 + 60000.
Proof. vm_compute. repeat split. Qed.

(** ** Insertion-ordered maps *)

Section JsMapFacts.
Context {V : Type}.
Implicit Types (m : JsMap.t V) (k : Z) (v : V).

Lemma get_set_eq k v m : JsMap.get k (JsMap.set k v m) = Some v.
Proof.
  induction m as [|[k' v'] m IH]; cbn.
  - rewrite Z.eqb_refl. reflexivity.
  - destruct (Z.eqb_spec k' k) as [E|E]; cbn.
    + rewrite E, Z.eqb_refl. reflexivity.
    + destruct (Z.eqb_spec k' k); [contradiction|exact IH].
Qed.

Lemma get_set_ne k k' v m : k <> k' -> JsMap.get k' (JsMap.set k v m) = JsMap.get k' m.
Proof.
  intros Hne. induction m as [|[k0 v0] m IH]; cbn.
  - destruct (Z.eqb_spec k k'); [contradiction|reflexivity].
  - destruct (Z.eqb_spec k0 k) as [E|E]; cbn.
    + destruct (Z.eqb_spec k0 k'); [congruence|reflexivity].
    + destruct (Z.eqb_spec k0 k'); [reflexivity|exact IH].
Qed.

Lemma get_Some_In k v m : JsMap.get k m = Some v -> In (k, v) m.
Proof.
  induction m as [|[k' v'] m IH]; cbn; [discriminate|].
  destruct (Z.eqb_spec k' k) as [E|E].
  - intros [= ->]. left. congruence.
  - intros H. right. auto.
Qed.

Lemma get_None_keys k m : JsMap.get k m = None <-> ~ In k (JsMap.keys m).
Proof.
  induction m as [|[k' v'] m IH]; cbn; [tauto|].
  destruct (Z.eqb_spec k' k) as [E|E]; split; intros H.
  - discriminate.
  - exfalso. apply H. left. exact E.
  - intros [Hk|Hk]; [contradiction|]. apply IH in H. contradiction.
  - apply IH. intros Hk. apply H. right. exact Hk.
Qed.

Lemma get_Some_keys k v m : JsMap.get k m = Some v -> In k (JsMap.keys m).
Proof. intros H. apply get_Some_In in H. apply (in_map fst) in H. exact H. Qed.

Lemma In_get k v m : List.NoDup (JsMap.keys m) -> In (k, v) m -> JsMap.get k m = Some v.
Proof.
  induction m as [|[k' v'] m IH]; cbn; [tauto|].
  intros Hnd Hin. apply List.NoDup_cons_iff in Hnd as [Hk' Hnd].
  destruct Hin as [[= -> ->]|Hin].
  - rewrite Z.eqb_refl. reflexivity.
  - destruct (Z.eqb_spec k' k) as [E|E]; [|auto].
    exfalso. apply Hk'. rewrite E. apply (in_map fst) in Hin. exact Hin.
Qed.

(** A key that is present keeps its place. *)
Lemma keys_set_present k v m :
  In k (JsMap.keys m) -> JsMap.keys (JsMap.set k v m) = JsMap.keys m.
Proof.
  induction m as [|[k' v'] m IH]; cbn; [tauto|].
  intros Hin. destruct (Z.eqb_spec k' k) as [E|E]; cbn; [reflexivity|].
  f_equal. apply IH. destruct Hin; [contradiction|assumption].
Qed.

(** A new key goes to the end. *)
Lemma set_fresh k v m : ~ In k (JsMap.keys m) -> JsMap.set k v m = m ++ [(k, v)].
Proof.
  induction m as [|[k' v'] m IH]; cbn; [reflexivity|].
  intros Hin. destruct (Z.eqb_spec k' k) as [E|E]; [tauto|].
  f_equal. apply IH. tauto.
Qed.

Lemma In_set k v k' v' m :
  In (k', v') (JsMap.set k v m) -> (k' = k /\ v' = v) \/ In (k', v') m.
Proof.
  induction m as [|[k0 v0] m IH]; cbn.
  - intros [[= <- <-]|[]]. left. tauto.
  - destruct (Z.eqb_spec k0 k) as [E|E]; cbn.
    + intros [[= <- <-]|H]; [left; tauto|right; tauto].
    + intros [H|H]; [right; tauto|]. apply IH in H. tauto.
Qed.

Lemma keyed_set (idOf : V -> Z) k v m :
  keyed idOf m -> idOf v = k -> keyed idOf (JsMap.set k v m).
Proof.
  intros Hk Hv k' v' Hin. apply In_set in Hin as [[-> ->]|Hin]; [exact Hv|].
  apply Hk, Hin.
Qed.

Lemma issued_NoDup m next : issued m next -> List.NoDup (JsMap.keys m).
Proof.
  intros (_ & Hs & _). induction Hs as [|k l Hs IH Hall]; constructor; [|exact IH].
  intros Hin. rewrite List.Forall_forall in Hall. specialize (Hall _ Hin). lia.
Qed.

Lemma issued_fresh m next : issued m next -> ~ In next (JsMap.keys m).
Proof.
  intros (_ & _ & Hb) Hin. rewrite List.Forall_forall in Hb. specialize (Hb _ Hin). lia.
Qed.

Lemma issued_set_present k v m next :
  In k (JsMap.keys m) -> issued m next -> issued (JsMap.set k v m) next.
Proof. intros Hin. unfold issued. rewrite keys_set_present by exact Hin. tauto. Qed.

Lemma StronglySorted_snoc (l : list Z) (x : Z) :
  StronglySorted Z.lt l -> Forall (fun k => k < x) l -> StronglySorted Z.lt (l ++ [x]).
Proof.
  induction 1 as [|k l Hs IH Hall]; intros Hb; cbn.
  - repeat constructor.
  - apply List.Forall_cons_iff in Hb as [Hk Hb]. constructor; [auto|].
    apply List.Forall_app. split; [exact Hall|]. repeat constructor. exact Hk.
Qed.

Lemma issued_set_next v m next :
  issued m next -> issued (JsMap.set next v m) (next + 1).
Proof.
  intros Hi. pose proof (issued_fresh _ _ Hi) as Hf. destruct Hi as (Hpos & Hs & Hb).
  rewrite set_fresh by exact Hf. unfold issued, JsMap.keys. rewrite map_app. cbn.
  split; [lia|]. split.
  - apply StronglySorted_snoc; [exact Hs|].
    eapply List.Forall_impl; [|exact Hb]. cbn. intros; lia.
  - apply List.Forall_app. split.
    + eapply List.Forall_impl; [|exact Hb]. cbn. intros; lia.
    + repeat constructor; lia.
Qed.

Lemma keyed_get (idOf : V -> Z) k v m :
  keyed idOf m -> JsMap.get k m = Some v -> idOf v = k.
Proof. intros Hk Hg. apply Hk, get_Some_In, Hg. Qed.

Lemma issued_get_pos k v m next : issued m next -> JsMap.get k m = Some v -> 1 <= k < next.
Proof.
  intros (_ & _ & Hb) Hg. rewrite List.Forall_forall in Hb. apply Hb.
  eapply get_Some_keys, Hg.
Qed.

End JsMapFacts.

(** ** The stable sort *)

Section SortFacts.
Context {A : Type} (key : A -> Z).

Lemma insert_sorted_perm (x : A) (l : list A) :
  Permutation (Js.insert_sorted key x l) (x :: l).
Proof.
  induction l as [|y l IH]; cbn; [reflexivity|].
  destruct (key x <=? key y); [reflexivity|].
  rewrite IH. apply perm_swap.
Qed.

Lemma sort_perm (l : list A) : Permutation (Js.sort key l) l.
Proof.
  induction l as [|x l IH]; cbn; [reflexivity|].
  rewrite insert_sorted_perm. constructor. exact IH.
Qed.

(** [tie] orders the elements of the input from front to back; the sort
    orders by [key] and leaves elements of equal key in the order [tie]. *)
Variable tie : A -> A -> Prop.

Definition keyThenTie (a b : A) : Prop :=
  key a < key b \/ (key a = key b /\ tie a b).

Lemma insert_sorted_sorted (x : A) (l : list A) :
  Forall (tie x) l -> StronglySorted keyThenTie l ->
  StronglySorted keyThenTie (Js.insert_sorted key x l).
Proof.
  intros Htie Hs. induction Hs as [|y l Hs IH Hall]; cbn.
  - repeat constructor.
  - apply List.Forall_cons_iff in Htie as [Hxy Htie].
    destruct (Z.leb_spec (key x) (key y)) as [Hle|Hgt].
    + constructor; [constructor; assumption|].
      constructor.
      * unfold keyThenTie. destruct (Z.eq_dec (key x) (key y)); [right|left]; auto; lia.
      * rewrite List.Forall_forall in *. intros z Hz.
        specialize (Hall z Hz). specialize (Htie z Hz). unfold keyThenTie in *.
        destruct (Z.eq_dec (key x) (key z)); [right|left]; auto; lia.
    + constructor; [apply IH, Htie|].
      rewrite (List.Forall_forall (keyThenTie y)). intros z Hz.
      apply (Permutation_in _ (insert_sorted_perm x l)) in Hz.
      destruct Hz as [<-|Hz].
      * left. lia.
      * rewrite List.Forall_forall in Hall. apply Hall, Hz.
Qed.

Lemma sort_sorted (l : list A) :
  StronglySorted tie l -> StronglySorted keyThenTie (Js.sort key l).
Proof.
  induction 1 as [|x l Hs IH Hall]; cbn; [constructor|].
  apply insert_sorted_sorted; [|exact IH].
  rewrite List.Forall_forall in *. intros z Hz. apply Hall.
  apply (Permutation_in _ (sort_perm l)), Hz.
Qed.

Lemma filter_StronglySorted (p : A -> bool) (l : list A) :
  StronglySorted tie l -> StronglySorted tie (List.filter p l).
Proof.
  induction 1 as [|x l Hs IH Hall]; cbn; [constructor|].
  destruct (p x); [|exact IH]. constructor; [exact IH|].
  rewrite List.Forall_forall in *. intros z Hz. apply List.filter_In in Hz as [Hz _]. auto.
Qed.

End SortFacts.

(** ** The store *)

Lemma values_sorted_by_id {V} (idOf : V -> Z) (m : JsMap.t V) :
  keyed idOf m -> StronglySorted Z.lt (JsMap.keys m) ->
  StronglySorted (fun a b => idOf a < idOf b) (JsMap.values m).
Proof.
  induction m as [|[k v] m IH]; cbn; intros Hk Hs; [constructor|].
  apply StronglySorted_inv in Hs as [Hs Hall]. constructor.
  - apply IH; [|exact Hs]. intros k' v' Hin. apply Hk. right. exact Hin.
  - rewrite List.Forall_forall in *. intros v' Hin.
    apply in_map_iff in Hin as ([k' v''] & E & Hin). cbn in E. subst v''.
    rewrite (Hk k v) by (left; reflexivity).
    rewrite (Hk k' v') by (right; exact Hin).
    apply Hall. apply (in_map fst) in Hin. exact Hin.
Qed.

Lemma dueOrder_irrefl (a : ScheduledEmail.t) : ~ dueOrder a a.
Proof. unfold dueOrder. lia. Qed.

Lemma StronglySorted_NoDup {A} (R : A -> A -> Prop) (l : list A) :
  (forall a, ~ R a a) -> StronglySorted R l -> List.NoDup l.
Proof.
  intros Hirr. induction 1 as [|x l Hs IH Hall]; constructor; [|exact IH].
  intros Hin. rewrite List.Forall_forall in Hall. exact (Hirr x (Hall x Hin)).
Qed.

Lemma isDue_spec (now : Z) (e : ScheduledEmail.t) :
  MemStorage.isDue now e = true
  <-> ScheduledEmail.status e = "pending" /\ ScheduledEmail.scheduledFor e <= now.
Proof.
  unfold MemStorage.isDue. rewrite andb_true_iff, String.eqb_eq, Z.leb_le. tauto.
Qed.

Lemma In_getPendingScheduledEmails (now : Z) (s : MemStorage.t) (e : ScheduledEmail.t) :
  In e (MemStorage.getPendingScheduledEmails now s)
  <-> In e (JsMap.values (MemStorage.scheduledEmails s))
      /\ ScheduledEmail.status e = "pending"
      /\ ScheduledEmail.scheduledFor e <= now.
Proof.
  unfold MemStorage.getPendingScheduledEmails. rewrite <- isDue_spec, <- List.filter_In.
  split; intros H.
  - eapply Permutation_in; [apply sort_perm|exact H].
  - eapply Permutation_in; [apply Permutation_sym, sort_perm|exact H].
Qed.

Lemma StronglySorted_weaken {A} (R R' : A -> A -> Prop) (l : list A) :
  (forall a b, R a b -> R' a b) -> StronglySorted R l -> StronglySorted R' l.
Proof.
  intros HR. induction 1 as [|x l Hs IH Hall]; constructor; [exact IH|].
  eapply List.Forall_impl; [|exact Hall]. intros b. apply HR.
Qed.

Lemma due_sorted_by_time (now : Z) (s : MemStorage.t) :
  StronglySorted
    (fun a b => ScheduledEmail.scheduledFor a <= ScheduledEmail.scheduledFor b)
    (MemStorage.getPendingScheduledEmails now s).
Proof.
  unfold MemStorage.getPendingScheduledEmails.
  set (l := List.filter _ _).
  assert (Hany : StronglySorted (fun _ _ : ScheduledEmail.t => True) l).
  { induction l as [|x l IH]; constructor; [exact IH|].
    apply List.Forall_forall. intros; exact I. }
  apply (sort_sorted ScheduledEmail.scheduledFor) in Hany.
  eapply StronglySorted_weaken; [|exact Hany].
  unfold keyThenTie. intros a b. cbn. lia.
Qed.

Lemma due_sorted (now : Z) (s : MemStorage.t) :
  wf_store s -> StronglySorted dueOrder (MemStorage.getPendingScheduledEmails now s).
Proof.
  intros Hwf. unfold MemStorage.getPendingScheduledEmails.
  apply (sort_sorted ScheduledEmail.scheduledFor
           (fun a b => ScheduledEmail.id a < ScheduledEmail.id b)).
  apply filter_StronglySorted, values_sorted_by_id.
  - apply (wf_scheduled _ Hwf).
  - apply (wf_scheduled_issued _ Hwf).
Qed.

(** C8. The due-set query returns exactly the records that are [pending]
    and due at or before [now], earliest due time first; in a store built by
    the store's own methods each of them comes once, and records of equal
    due time come in the order of their creation (ascending id). *)
Theorem getPendingScheduledEmails_due_set (now : Z) (s : MemStorage.t) :
  let due := MemStorage.getPendingScheduledEmails now s in
  (forall e,
     In e due
     <-> In e (JsMap.values (MemStorage.scheduledEmails s))
         /\ ScheduledEmail.status e = "pending"
         /\ ScheduledEmail.scheduledFor e <= now)
  /\ StronglySorted
       (fun a b => ScheduledEmail.scheduledFor a <= ScheduledEmail.scheduledFor b)
       due
  /\ (wf_store s -> StronglySorted dueOrder due /\ List.NoDup due).
Proof.
  intros due. split; [|split].
  - intros e. apply In_getPendingScheduledEmails.
  - apply due_sorted_by_time.
  - intros Hwf. pose proof (due_sorted now s Hwf) as Hs. split; [exact Hs|].
    eapply StronglySorted_NoDup; [apply dueOrder_irrefl|exact Hs].
Qed.

(** C10. A record made by [createScheduledEmail] is [pending] and has no
    sent time, no resolved subject or content and no error message,
    whatever the insert input carries, and it is the record the store then
    holds under the new id. *)
Theorem createScheduledEmail_pending (now : Z) (insertEmail : InsertScheduledEmail.t)
    (s : MemStorage.t) :
  let email := fst (MemStorage.createScheduledEmail now insertEmail s) in
  let s' := snd (MemStorage.createScheduledEmail now insertEmail s) in
  ScheduledEmail.status email = "pending"
  /\ ScheduledEmail.sentAt email = None
  /\ ScheduledEmail.personalizedSubject email = None
  /\ ScheduledEmail.personalizedContent email = None
  /\ ScheduledEmail.errorMessage email = None
  /\ ScheduledEmail.id email = MemStorage.currentScheduledEmailId s
  /\ MemStorage.getScheduledEmail (ScheduledEmail.id email) s' = Some email.
Proof.
  cbn. repeat split. unfold MemStorage.getScheduledEmail. cbn. apply get_set_eq.
Qed.

(** ** The variable bag *)

(** C9. The variable bag of a client maps every custom field name to the
    custom field's value, and every other name to the built-in of that name:
    [client_name] to the client's name, [company] to the company or the
    empty string, [last_interaction] to the formatted date or [N/A]. A
    custom field named like a built-in therefore overrides it. *)
Theorem variables_lookup (toLocaleDateString : Z -> string) (client : Client.t)
    (k : string) :
  EmailScheduler.variables toLocaleDateString client !! k
  = match default ∅ (Client.customFields client) !! k with
    | Some v => Some v
    | None => builtinVariable toLocaleDateString client k
    end.
Proof.
  unfold EmailScheduler.variables, Js.spread. rewrite lookup_union.
  destruct (default ∅ (Client.customFields client) !! k) as [v|] eqn:E.
  - match goal with |- Some v ∪ ?o = _ => destruct o; reflexivity end.
  - rewrite (left_id None _). unfold builtinVariable.
    destruct (String.eqb_spec k "client_name") as [->|H1];
      [rewrite lookup_insert_eq; reflexivity|].
    rewrite lookup_insert_ne by congruence.
    destruct (String.eqb_spec k "company") as [->|H2];
      [rewrite lookup_insert_eq; reflexivity|].
    rewrite lookup_insert_ne by congruence.
    destruct (String.eqb_spec k "last_interaction") as [->|H3];
      [rewrite lookup_insert_eq; reflexivity|].
    rewrite lookup_insert_ne by congruence. apply lookup_empty.
Qed.

(** ** Store methods: what they change *)

Lemma usage_increment (n : option Z) :
  default 0 (Js.or_null_num n) + 1 = default 0 n + 1.
Proof. destruct n as [n|]; cbn; [|reflexivity]. destruct (Z.eqb_spec n 0); cbn; lia. Qed.

Lemma updateScheduledEmail_present (id : Z) (u : PartialScheduledEmail.t)
    (s : MemStorage.t) (e : ScheduledEmail.t) :
  MemStorage.getScheduledEmail id s = Some e ->
  MemStorage.updateScheduledEmail id u s
  = (Some (MemStorage.merge e u),
     MemStorage.with_scheduledEmails
       (JsMap.set id (MemStorage.merge e u) (MemStorage.scheduledEmails s)) s).
Proof.
  unfold MemStorage.getScheduledEmail, MemStorage.updateScheduledEmail.
  intros ->. reflexivity.
Qed.

Lemma eraseUsage_get (k : Z) (m : JsMap.t EmailTemplate.t) :
  JsMap.get k (eraseUsage m)
  = option_map (EmailTemplate.with_usageCount None) (JsMap.get k m).
Proof.
  induction m as [|[k' t] m IH]; cbn; [reflexivity|].
  destruct (k' =? k); [reflexivity|exact IH].
Qed.

Lemma eraseUsage_set (k : Z) (n : option Z) (t : EmailTemplate.t)
    (m : JsMap.t EmailTemplate.t) :
  JsMap.get k m = Some t ->
  eraseUsage (JsMap.set k (EmailTemplate.with_usageCount n t) m) = eraseUsage m.
Proof.
  induction m as [|[k' t'] m IH]; cbn; [discriminate|].
  destruct (Z.eqb_spec k' k) as [E|E]; cbn.
  - intros [= ->]. reflexivity.
  - intros H. f_equal. apply IH, H.
Qed.

Lemma touchesOnly_refl (ids : list Z) (s : MemStorage.t) : touchesOnly ids s s.
Proof. constructor; reflexivity. Qed.

Lemma touchesOnly_trans (ids1 ids2 : list Z) (s1 s2 s3 : MemStorage.t) :
  touchesOnly ids1 s1 s2 -> touchesOnly ids2 s2 s3 ->
  touchesOnly (ids1 ++ ids2) s1 s3.
Proof.
  intros [Hc1 Ht1 Hs1 Hk1] [Hc2 Ht2 Hs2 Hk2]. constructor.
  - congruence.
  - congruence.
  - intros k Hk. rewrite Hs2, Hs1; [reflexivity| |];
      intros Hin; apply Hk, in_or_app; tauto.
  - congruence.
Qed.

Lemma touchesOnly_update (id : Z) (u : PartialScheduledEmail.t) (s : MemStorage.t) :
  touchesOnly [id] s (snd (MemStorage.updateScheduledEmail id u s)).
Proof.
  unfold MemStorage.updateScheduledEmail.
  destruct (JsMap.get id (MemStorage.scheduledEmails s)) as [e|] eqn:E; cbn.
  - constructor; cbn; try reflexivity.
    + intros k Hk. apply get_set_ne. intros ->. apply Hk. left. reflexivity.
    + apply keys_set_present. eapply get_Some_keys, E.
  - apply touchesOnly_refl.
Qed.

Lemma touchesOnly_createEmailLog (now : Z) (l : InsertEmailLog.t) (s : MemStorage.t) :
  touchesOnly [] s (snd (MemStorage.createEmailLog now l s)).
Proof. constructor; reflexivity. Qed.

Lemma touchesOnly_incrementTemplateUsage (id : Z) (s : MemStorage.t) :
  touchesOnly [] s (MemStorage.incrementTemplateUsage id s).
Proof.
  unfold MemStorage.incrementTemplateUsage.
  destruct (JsMap.get id (MemStorage.emailTemplates s)) as [t|] eqn:E.
  - constructor; cbn; try reflexivity. apply eraseUsage_set, E.
  - apply touchesOnly_refl.
Qed.

(** The store's invariant, and the methods that keep it. *)

Lemma wf_new : wf_store MemStorage.new.
Proof.
  constructor; cbn; try (intros k v []);
    (split; [lia|split; constructor]).
Qed.

Lemma wf_createScheduledEmail (now : Z) (i : InsertScheduledEmail.t) (s : MemStorage.t) :
  wf_store s -> wf_store (snd (MemStorage.createScheduledEmail now i s)).
Proof.
  intros [H1 H2 H3 H4 H5 H6 H7]. constructor; cbn; try assumption.
  - apply keyed_set; [exact H5|reflexivity].
  - apply issued_set_next; assumption.
Qed.

Lemma wf_updateScheduledEmail (id : Z) (u : PartialScheduledEmail.t) (s : MemStorage.t) :
  PartialScheduledEmail.id u = None ->
  wf_store s -> wf_store (snd (MemStorage.updateScheduledEmail id u s)).
Proof.
  intros Hu Hwf. unfold MemStorage.updateScheduledEmail.
  destruct (JsMap.get id (MemStorage.scheduledEmails s)) as [e|] eqn:E; cbn;
    [|exact Hwf].
  destruct Hwf as [H1 H2 H3 H4 H5 H6 H7]. constructor; cbn; try assumption.
  - apply keyed_set; [exact H5|].
    unfold MemStorage.merge. cbn. rewrite Hu. cbn. eapply keyed_get; eassumption.
  - apply issued_set_present; [eapply get_Some_keys, E|exact H6].
Qed.

Lemma wf_createEmailLog (now : Z) (l : InsertEmailLog.t) (s : MemStorage.t) :
  wf_store s -> wf_store (snd (MemStorage.createEmailLog now l s)).
Proof.
  intros [H1 H2 H3 H4 H5 H6 H7]. constructor; cbn; try assumption.
  apply issued_set_next; assumption.
Qed.

Lemma wf_incrementTemplateUsage (id : Z) (s : MemStorage.t) :
  wf_store s -> wf_store (MemStorage.incrementTemplateUsage id s).
Proof.
  intros Hwf. unfold MemStorage.incrementTemplateUsage.
  destruct (JsMap.get id (MemStorage.emailTemplates s)) as [t|] eqn:E; [|exact Hwf].
  destruct Hwf as [H1 H2 H3 H4 H5 H6 H7]. constructor; cbn; try assumption.
  - apply keyed_set; [exact H3|]. cbn. eapply keyed_get; eassumption.
  - apply issued_set_present; [eapply get_Some_keys, E|exact H4].
Qed.

(** ** The dispatch engine *)

Section DispatchFacts.
Variable toLocaleDateString : Z -> string.
Variable personalizeContent : Js.value -> gmap string string -> outcome string.
Variable sendEmail : list EmailParams -> EmailParams -> outcome bool.

Local Abbreviation send :=
  (EmailScheduler.sendScheduledEmail toLocaleDateString personalizeContent sendEmail).
Local Abbreviation tick :=
  (EmailScheduler.processPendingEmails toLocaleDateString personalizeContent sendEmail).
Local Abbreviation variables := (EmailScheduler.variables toLocaleDateString).
Local Abbreviation personalizedSubject :=
  (Dispatch.personalizedSubject toLocaleDateString personalizeContent).
Local Abbreviation personalizedContent :=
  (Dispatch.personalizedContent toLocaleDateString personalizeContent).
Local Abbreviation accepted :=
  (accepted toLocaleDateString personalizeContent sendEmail).

Implicit Types (e : ScheduledEmail.t) (c : Client.t) (t : EmailTemplate.t)
  (w : World) (now : Z) (ps pc : string).


Lemma not_val_false (v : Js.value) : Js.not_val v = false <-> v <> Js.Text "".
Proof. destruct v as [[|]|]; cbn; split; congruence. Qed.

Ltac run_send :=
  unfold EmailScheduler.sendScheduledEmail, EmailScheduler.updateScheduledEmail,
    EmailScheduler.callSendEmail, EmailScheduler.evaluate,
    try_catch, bind, query, update, modify, ret;
  cbn [storage outbox].

(** The ways a dispatch ends. *)

Lemma send_not_found now e w :
  MemStorage.getClient (ScheduledEmail.clientId e) (storage w) = None
  \/ MemStorage.getEmailTemplate (ScheduledEmail.templateId e) (storage w) = None ->
  send now e w
  = (Return tt,
     mkWorld
       (snd (MemStorage.updateScheduledEmail (ScheduledEmail.id e)
               (PartialScheduledEmail.failure "failed" "Client or template not found")
               (storage w)))
       (outbox w)).
Proof.
  intros H. run_send.
  destruct (MemStorage.getClient _ _) as [c|], (MemStorage.getEmailTemplate _ _) as [t|];
    try (destruct H; discriminate);
    destruct (MemStorage.updateScheduledEmail _ _ _); reflexivity.
Qed.

Lemma send_content_unavailable now e c t w :
  MemStorage.getClient (ScheduledEmail.clientId e) (storage w) = Some c ->
  MemStorage.getEmailTemplate (ScheduledEmail.templateId e) (storage w) = Some t ->
  Js.not_val (Dispatch.subject e c t) = true
  \/ Js.not_val (Dispatch.content e c t) = true ->
  send now e w
  = (Return tt,
     mkWorld
       (snd (MemStorage.updateScheduledEmail (ScheduledEmail.id e)
               (PartialScheduledEmail.failure "failed"
                  ("Template content not available for language: "
                   +:+ Dispatch.language e c))
               (storage w)))
       (outbox w)).
Proof.
  intros Hc Ht H. run_send. rewrite Hc, Ht.
  fold (Dispatch.language e c). fold (Dispatch.subject e c t) (Dispatch.content e c t).
  replace (Js.not_val (Dispatch.subject e c t) || Js.not_val (Dispatch.content e c t))
    with true by (symmetry; apply orb_true_iff; exact H).
  destruct (MemStorage.updateScheduledEmail _ _ _); reflexivity.
Qed.

(** The renderer throws, for the subject or, the subject rendered, for the
    content. *)
Lemma send_render_throws now e c t w (error : JsError) :
  MemStorage.getClient (ScheduledEmail.clientId e) (storage w) = Some c ->
  MemStorage.getEmailTemplate (ScheduledEmail.templateId e) (storage w) = Some t ->
  Js.not_val (Dispatch.subject e c t) = false ->
  Js.not_val (Dispatch.content e c t) = false ->
  personalizedSubject e c t = Throw error
  \/ (exists ps, personalizedSubject e c t = Return ps
                 /\ personalizedContent e c t = Throw error) ->
  send now e w
  = (Return tt,
     mkWorld
       (snd (MemStorage.updateScheduledEmail (ScheduledEmail.id e)
               (PartialScheduledEmail.failure "failed" (Dispatch.errorText error))
               (storage w)))
       (outbox w)).
Proof.
  intros Hc Ht Hs Hn H. run_send. rewrite Hc, Ht.
  fold (Dispatch.language e c). fold (Dispatch.subject e c t) (Dispatch.content e c t).
  rewrite Hs, Hn. cbn [orb].
  fold (personalizedSubject e c t) (personalizedContent e c t).
  destruct H as [H|(ps & H1 & H2)].
  - rewrite H. cbn [storage outbox].
    destruct (MemStorage.updateScheduledEmail _ _ _); reflexivity.
  - rewrite H1, H2. cbn [storage outbox].
    destruct (MemStorage.updateScheduledEmail _ _ _); reflexivity.
Qed.

Lemma send_transport now e c t ps pc w :
  MemStorage.getClient (ScheduledEmail.clientId e) (storage w) = Some c ->
  MemStorage.getEmailTemplate (ScheduledEmail.templateId e) (storage w) = Some t ->
  Js.not_val (Dispatch.subject e c t) = false ->
  Js.not_val (Dispatch.content e c t) = false ->
  personalizedSubject e c t = Return ps ->
  personalizedContent e c t = Return pc ->
  send now e w
  = (Return tt,
     mkWorld
       match sendEmail (outbox w) (Dispatch.message c ps pc) with
       | Return true =>
           MemStorage.incrementTemplateUsage (EmailTemplate.id t)
             (snd (MemStorage.createEmailLog now
                     (InsertEmailLog.mk (Client.id c) (Some (EmailTemplate.id t))
                        (Some (ScheduledEmail.id e)) ps
                        "sent" (Dispatch.language e c) None)
                     (snd (MemStorage.updateScheduledEmail (ScheduledEmail.id e)
                             (PartialScheduledEmail.success "sent" now ps pc)
                             (storage w)))))
       | Return false =>
           snd (MemStorage.updateScheduledEmail (ScheduledEmail.id e)
                  (PartialScheduledEmail.failure "failed"
                     "Failed to send email via SendGrid")
                  (storage w))
       | Throw error =>
           snd (MemStorage.updateScheduledEmail (ScheduledEmail.id e)
                  (PartialScheduledEmail.failure "failed" (Dispatch.errorText error))
                  (storage w))
       end
       (outbox w ++ [Dispatch.message c ps pc])).
Proof.
  intros Hc Ht Hs Hn Hps Hpc. run_send. rewrite Hc, Ht.
  fold (Dispatch.language e c). fold (Dispatch.subject e c t) (Dispatch.content e c t).
  rewrite Hs, Hn. cbn [orb].
  fold (personalizedSubject e c t) (personalizedContent e c t).
  rewrite Hps, Hpc. fold (Dispatch.message c ps pc).
  destruct (sendEmail (outbox w) (Dispatch.message c ps pc)) as [[|]|error];
    cbn [storage outbox].
  - destruct (MemStorage.updateScheduledEmail _ _ _) as [o s1]. cbn [snd storage outbox].
    destruct (MemStorage.createEmailLog _ _ _) as [l s2]. reflexivity.
  - destruct (MemStorage.updateScheduledEmail _ _ _); reflexivity.
  - destruct (MemStorage.updateScheduledEmail _ _ _); reflexivity.
Qed.

(** Every dispatch ends in one of two ways: the record is marked [failed]
    and nothing else is written, or the message went out and was accepted. *)
Lemma send_outcome now e w :
  (~ accepted e w
   /\ exists msg out,
        send now e w
        = (Return tt,
           mkWorld
             (snd (MemStorage.updateScheduledEmail (ScheduledEmail.id e)
                     (PartialScheduledEmail.failure "failed" msg) (storage w)))
             out)
        /\ (out = outbox w \/ exists m, out = outbox w ++ [m]))
  \/ (exists c t ps pc,
        MemStorage.getClient (ScheduledEmail.clientId e) (storage w) = Some c
        /\ MemStorage.getEmailTemplate (ScheduledEmail.templateId e) (storage w) = Some t
        /\ Js.not_val (Dispatch.subject e c t) = false
        /\ Js.not_val (Dispatch.content e c t) = false
        /\ personalizedSubject e c t = Return ps
        /\ personalizedContent e c t = Return pc
        /\ sendEmail (outbox w) (Dispatch.message c ps pc) = Return true
        /\ send now e w
           = (Return tt,
              mkWorld
                (MemStorage.incrementTemplateUsage (EmailTemplate.id t)
                   (snd (MemStorage.createEmailLog now
                           (InsertEmailLog.mk (Client.id c) (Some (EmailTemplate.id t))
                              (Some (ScheduledEmail.id e)) ps
                              "sent" (Dispatch.language e c) None)
                           (snd (MemStorage.updateScheduledEmail (ScheduledEmail.id e)
                                   (PartialScheduledEmail.success "sent" now ps pc)
                                   (storage w))))))
                (outbox w ++ [Dispatch.message c ps pc]))).
Proof.
  destruct (MemStorage.getClient (ScheduledEmail.clientId e) (storage w)) as [c|] eqn:Hc.
  2:{ left. split.
      - intros (c & t & ps & pc & Hc' & _). congruence.
      - eexists _, _. split; [apply send_not_found; tauto|]. left. reflexivity. }
  destruct (MemStorage.getEmailTemplate (ScheduledEmail.templateId e) (storage w))
    as [t|] eqn:Ht.
  2:{ left. split.
      - intros (c' & t & ps & pc & _ & Ht' & _). congruence.
      - eexists _, _. split; [apply send_not_found; tauto|]. left. reflexivity. }
  destruct (Js.not_val (Dispatch.subject e c t)) eqn:Hs.
  { left. split.
    - intros (c' & t' & ps & pc & Hc' & Ht' & Hs' & _). congruence.
    - eexists _, _. split; [apply (send_content_unavailable now e c t); tauto|].
      left. reflexivity. }
  destruct (Js.not_val (Dispatch.content e c t)) eqn:Hn.
  { left. split.
    - intros (c' & t' & ps & pc & Hc' & Ht' & _ & Hn' & _). congruence.
    - eexists _, _. split; [apply (send_content_unavailable now e c t); tauto|].
      left. reflexivity. }
  destruct (personalizedSubject e c t) as [ps|error] eqn:Hps.
  2:{ left. split.
      - intros (c' & t' & ps & pc & Hc' & Ht' & _ & _ & Hps' & _). congruence.
      - eexists _, _.
        split; [apply (send_render_throws now e c t w error); tauto|].
        left. reflexivity. }
  destruct (personalizedContent e c t) as [pc|error] eqn:Hpc.
  2:{ left. split.
      - intros (c' & t' & ps' & pc & Hc' & Ht' & _ & _ & _ & Hpc' & _). congruence.
      - eexists _, _.
        split; [apply (send_render_throws now e c t w error); eauto|].
        left. reflexivity. }
  pose proof (send_transport now e c t ps pc w Hc Ht Hs Hn Hps Hpc) as Hsend.
  destruct (sendEmail (outbox w) (Dispatch.message c ps pc)) as [[|]|error] eqn:Hr.
  - right. exists c, t, ps, pc. repeat split; assumption.
  - left. split.
    + intros (c' & t' & ps' & pc' & Hc' & Ht' & _ & _ & Hps' & Hpc' & Hr').
      congruence.
    + eexists _, _. split; [exact Hsend|]. right. eexists. reflexivity.
  - left. split.
    + intros (c' & t' & ps' & pc' & Hc' & Ht' & _ & _ & Hps' & Hpc' & Hr').
      congruence.
    + eexists _, _. split; [exact Hsend|]. right. eexists. reflexivity.
Qed.

(** A dispatch never throws. *)
Lemma send_returns now e w : fst (send now e w) = Return tt.
Proof.
  destruct (send_outcome now e w)
    as [(_ & msg & out & -> & _)|(c & t & ps & pc & _ & _ & _ & _ & _ & _ & _ & ->)];
    reflexivity.
Qed.

(** A dispatch calls the transport at most once, and writes no scheduled
    email but its own. *)
Lemma send_frame now e w :
  touchesOnly [ScheduledEmail.id e] (storage w) (storage (snd (send now e w)))
  /\ (length (outbox (snd (send now e w))) <= S (length (outbox w)))%nat.
Proof.
  destruct (send_outcome now e w)
    as [(_ & msg & out & -> & Hout)
       |(c & t & ps & pc & _ & _ & _ & _ & _ & _ & _ & ->)];
    cbn [snd storage outbox].
  - split; [apply touchesOnly_update|].
    destruct Hout as [->|[m ->]]; [lia|rewrite length_app; cbn; lia].
  - split; [|rewrite length_app; cbn; lia].
    change [ScheduledEmail.id e] with (([ScheduledEmail.id e] ++ []) ++ []).
    eapply touchesOnly_trans; [|apply touchesOnly_incrementTemplateUsage].
    eapply touchesOnly_trans; [|apply touchesOnly_createEmailLog].
    apply touchesOnly_update.
Qed.

Lemma send_wf now e w : wf_store (storage w) -> wf_store (storage (snd (send now e w))).
Proof.
  intros Hwf.
  destruct (send_outcome now e w)
    as [(_ & msg & out & -> & _)|(c & t & ps & pc & _ & _ & _ & _ & _ & _ & _ & ->)];
    cbn [snd storage].
  - apply wf_updateScheduledEmail; [reflexivity|exact Hwf].
  - apply wf_incrementTemplateUsage, wf_createEmailLog, wf_updateScheduledEmail;
      [reflexivity|exact Hwf].
Qed.

Lemma incrementTemplateUsage_present (id : Z) (s : MemStorage.t) t :
  MemStorage.getEmailTemplate id s = Some t ->
  MemStorage.incrementTemplateUsage id s
  = MemStorage.with_emailTemplates
      (JsMap.set id
         (EmailTemplate.with_usageCount
            (Some (default 0 (EmailTemplate.usageCount t) + 1)) t)
         (MemStorage.emailTemplates s)) s.
Proof.
  unfold MemStorage.getEmailTemplate, MemStorage.incrementTemplateUsage.
  intros ->. rewrite usage_increment. reflexivity.
Qed.

(** The language of a dispatch is the record's, else the client's, else
    [en]. *)
Lemma effectiveLanguage_cases e c :
  EmailScheduler.effectiveLanguage e c
  = if String.eqb (ScheduledEmail.language e) "" then
      if String.eqb (Client.language c) "" then "en" else Client.language c
    else ScheduledEmail.language e.
Proof.
  unfold EmailScheduler.effectiveLanguage.
  destruct (ScheduledEmail.language e) as [|a l]; [|reflexivity].
  destruct (Client.language c) as [|a l]; reflexivity.
Qed.

(** C1. When the record is in a well-formed store, its client and template
    resolve, the language of the dispatch (the record's, else the client's,
    else [en]) yields a subject and a content that are not empty, the
    renderer returns [ps] for the subject and [pc] for the content and the
    transport accepts the message, a dispatch returns normally and leaves
    the record [sent] with the time of the dispatch, [ps] and [pc] and its
    other fields as they were; the log has exactly one more entry, [sent],
    for this client, template and record, with the subject [ps] and the
    language of the dispatch; the usage counter of this template is one
    higher and every other template is as it was; the transport was called
    once, with the client's address, [ps], [pc] and [pc] without its tags. *)
Theorem sendScheduledEmail_success now e c t w (lang : string)
    (subject content : Js.value) ps pc :
  wf_store (storage w) ->
  MemStorage.getScheduledEmail (ScheduledEmail.id e) (storage w) = Some e ->
  MemStorage.getClient (ScheduledEmail.clientId e) (storage w) = Some c ->
  MemStorage.getEmailTemplate (ScheduledEmail.templateId e) (storage w) = Some t ->
  lang = (if String.eqb (ScheduledEmail.language e) "" then
            if String.eqb (Client.language c) "" then "en" else Client.language c
          else ScheduledEmail.language e) ->
  subject = Js.or_val (Js.getProp (EmailTemplate.subject t) lang)
              (Js.or_val (Js.getProp (EmailTemplate.subject t)
                            (EmailTemplate.primaryLanguage t)) (Js.Text "")) ->
  content = Js.or_val (Js.getProp (EmailTemplate.content t) lang)
              (Js.or_val (Js.getProp (EmailTemplate.content t)
                            (EmailTemplate.primaryLanguage t)) (Js.Text "")) ->
  subject <> Js.Text "" ->
  content <> Js.Text "" ->
  personalizeContent subject (variables c) = Return ps ->
  personalizeContent content (variables c) = Return pc ->
  sendEmail (outbox w)
    (mkEmailParams (Client.email c) "noreply@emailflow.app" ps pc (Js.stripTags pc))
  = Return true ->
  let w' := snd (send now e w) in
  fst (send now e w) = Return tt
  /\ MemStorage.getScheduledEmail (ScheduledEmail.id e) (storage w')
     = Some (ScheduledEmail.mk (ScheduledEmail.id e) (ScheduledEmail.clientId e)
               (ScheduledEmail.templateId e) (ScheduledEmail.scheduledFor e)
               "sent" (ScheduledEmail.language e) (Some ps) (Some pc) (Some now)
               (ScheduledEmail.errorMessage e) (ScheduledEmail.createdAt e))
  /\ MemStorage.emailLogs (storage w')
     = MemStorage.emailLogs (storage w)
       ++ [(MemStorage.currentLogId (storage w),
            EmailLog.mk (MemStorage.currentLogId (storage w))
              (ScheduledEmail.clientId e) (Some (ScheduledEmail.templateId e))
              (Some (ScheduledEmail.id e)) ps "sent" lang now None None None)]
  /\ MemStorage.getEmailTemplate (ScheduledEmail.templateId e) (storage w')
     = Some (EmailTemplate.with_usageCount
               (Some (default 0 (EmailTemplate.usageCount t) + 1)) t)
  /\ (forall k, k <> ScheduledEmail.templateId e ->
        MemStorage.getEmailTemplate k (storage w')
        = MemStorage.getEmailTemplate k (storage w))
  /\ outbox w'
     = outbox w
       ++ [mkEmailParams (Client.email c) "noreply@emailflow.app" ps pc
             (Js.stripTags pc)].
Proof.
  intros Hwf He Hc Ht Hlang Hsubj Hcont Hs Hn Hps Hpc Hok w'.
  split; [apply send_returns|].
  assert (Ecid : Client.id c = ScheduledEmail.clientId e)
    by (eapply keyed_get; [apply (wf_clients _ Hwf)|exact Hc]).
  assert (Etid : EmailTemplate.id t = ScheduledEmail.templateId e)
    by (eapply keyed_get; [apply (wf_templates _ Hwf)|exact Ht]).
  pose proof (issued_get_pos _ _ _ _ (wf_templates_issued _ Hwf) Ht) as Htpos.
  pose proof (issued_get_pos _ _ _ _ (wf_scheduled_issued _ Hwf) He) as Hepos.
  pose proof (issued_fresh _ _ (wf_logs_issued _ Hwf)) as Hfresh.
  rewrite <- effectiveLanguage_cases in Hlang.
  assert (Es : Dispatch.subject e c t = subject) by (subst lang subject; reflexivity).
  assert (En : Dispatch.content e c t = content) by (subst lang content; reflexivity).
  unfold w'.
  rewrite (send_transport now e c t ps pc);
    [ | assumption | assumption
      | rewrite Es; apply not_val_false, Hs
      | rewrite En; apply not_val_false, Hn
      | unfold Dispatch.personalizedSubject; rewrite Es; exact Hps
      | unfold Dispatch.personalizedContent; rewrite En; exact Hpc ].
  unfold Dispatch.message, Dispatch.language. rewrite <- Hlang, Hok.
  rewrite (updateScheduledEmail_present _ _ _ _ He). cbn [snd storage outbox].
  rewrite Ecid, Etid.
  erewrite incrementTemplateUsage_present by exact Ht.
  cbn. unfold MemStorage.getScheduledEmail, MemStorage.getEmailTemplate. cbn.
  repeat split.
  - apply get_set_eq.
  - rewrite set_fresh by exact Hfresh.
    destruct (Z.eqb_spec (ScheduledEmail.templateId e) 0); [lia|].
    destruct (Z.eqb_spec (ScheduledEmail.id e) 0); [lia|]. reflexivity.
  - apply get_set_eq.
  - intros k Hk. apply get_set_ne. congruence.
Qed.

(** C2. When the client or the template of a stored record does not
    resolve, a dispatch returns normally and leaves the record [failed] with
    the message [Client or template not found]; the transport is not called,
    no log entry is made and no template changes. *)
Theorem sendScheduledEmail_not_found now e w :
  MemStorage.getScheduledEmail (ScheduledEmail.id e) (storage w) = Some e ->
  MemStorage.getClient (ScheduledEmail.clientId e) (storage w) = None
  \/ MemStorage.getEmailTemplate (ScheduledEmail.templateId e) (storage w) = None ->
  let w' := snd (send now e w) in
  fst (send now e w) = Return tt
  /\ MemStorage.getScheduledEmail (ScheduledEmail.id e) (storage w')
     = Some (Dispatch.failed e "Client or template not found")
  /\ outbox w' = outbox w
  /\ MemStorage.emailLogs (storage w') = MemStorage.emailLogs (storage w)
  /\ MemStorage.emailTemplates (storage w') = MemStorage.emailTemplates (storage w).
Proof.
  intros He Hmiss w'. split; [apply send_returns|].
  unfold w'. rewrite send_not_found by exact Hmiss.
  rewrite (updateScheduledEmail_present _ _ _ _ He). cbn.
  repeat split. unfold MemStorage.getScheduledEmail. cbn. apply get_set_eq.
Qed.









(** *** The tick *)

Lemma for_of_cons now e (l : list ScheduledEmail.t) w :
  for_of (e :: l) (send now) w = for_of l (send now) (snd (send now e w)).
Proof.
  cbn [for_of]. unfold bind. pose proof (send_returns now e w) as H.
  destruct (send now e w) as [[[]|err] w1]; cbn in *; [reflexivity|discriminate].
Qed.

Lemma for_of_returns now (l : list ScheduledEmail.t) w :
  fst (for_of l (send now) w) = Return tt.
Proof.
  revert w. induction l as [|e l IH]; intros w; [reflexivity|].
  rewrite for_of_cons. apply IH.
Qed.

Lemma tick_for_of now w :
  tick now w
  = (Return tt,
     snd (for_of (MemStorage.getPendingScheduledEmails now (storage w)) (send now) w)).
Proof.
  unfold EmailScheduler.processPendingEmails, try_catch, bind, query.
  pose proof (for_of_returns now
                (MemStorage.getPendingScheduledEmails now (storage w)) w) as H.
  destruct (for_of _ _ w) as [[[]|err] w1]; cbn in *; [reflexivity|discriminate].
Qed.

Lemma for_of_frame now (l : list ScheduledEmail.t) w :
  touchesOnly (map ScheduledEmail.id l) (storage w)
    (storage (snd (for_of l (send now) w)))
  /\ (length (outbox (snd (for_of l (send now) w))) <= length (outbox w) + length l)%nat.
Proof.
  revert w. induction l as [|e l IH]; intros w.
  - cbn. split; [apply touchesOnly_refl|lia].
  - rewrite for_of_cons. destruct (send_frame now e w) as [Hf Ho].
    destruct (IH (snd (send now e w))) as [Hf' Ho']. split.
    + change (map ScheduledEmail.id (e :: l))
        with ([ScheduledEmail.id e] ++ map ScheduledEmail.id l).
      eapply touchesOnly_trans; eassumption.
    + cbn [length]. lia.
Qed.

Lemma for_of_wf now (l : list ScheduledEmail.t) w :
  wf_store (storage w) -> wf_store (storage (snd (for_of l (send now) w))).
Proof.
  revert w. induction l as [|e l IH]; intros w Hwf; [exact Hwf|].
  rewrite for_of_cons. apply IH, send_wf, Hwf.
Qed.

(** A record of a well-formed store is stored under its id, and no other
    record has that id. *)
Lemma stored_value_get (s : MemStorage.t) e :
  wf_store s -> In e (JsMap.values (MemStorage.scheduledEmails s)) ->
  MemStorage.getScheduledEmail (ScheduledEmail.id e) s = Some e.
Proof.
  intros Hwf Hin. apply in_map_iff in Hin as ([k e'] & E & Hin). cbn in E. subst e'.
  rewrite (wf_scheduled _ Hwf _ _ Hin).
  apply In_get; [|exact Hin]. eapply issued_NoDup, (wf_scheduled_issued _ Hwf).
Qed.

Lemma due_get now (s : MemStorage.t) e :
  wf_store s -> In e (MemStorage.getPendingScheduledEmails now s) ->
  MemStorage.getScheduledEmail (ScheduledEmail.id e) s = Some e
  /\ ScheduledEmail.status e = "pending".
Proof.
  intros Hwf Hin. apply In_getPendingScheduledEmails in Hin as (Hin & Hp & _).
  split; [apply stored_value_get; assumption|exact Hp].
Qed.

Lemma due_ids_NoDup now (s : MemStorage.t) :
  wf_store s ->
  List.NoDup (map ScheduledEmail.id (MemStorage.getPendingScheduledEmails now s)).
Proof.
  intros Hwf.
  assert (Hnd : List.NoDup (MemStorage.getPendingScheduledEmails now s)).
  { eapply StronglySorted_NoDup; [apply dueOrder_irrefl|apply due_sorted, Hwf]. }
  assert (Hinj : forall a b,
             In a (MemStorage.getPendingScheduledEmails now s) ->
             In b (MemStorage.getPendingScheduledEmails now s) ->
             ScheduledEmail.id a = ScheduledEmail.id b -> a = b).
  { intros a b Ha Hb E.
    apply (due_get now s a Hwf) in Ha as [Ha _].
    apply (due_get now s b Hwf) in Hb as [Hb _].
    rewrite E in Ha. congruence. }
  induction Hnd as [|x l Hx Hnd IH]; cbn; constructor.
  - intros Hin. apply in_map_iff in Hin as (y & E & Hy).
    assert (y = x) by (apply Hinj; [right; exact Hy|left; reflexivity|exact E]).
    subst y. contradiction.
  - apply IH. intros a b Ha Hb. apply Hinj; right; assumption.
Qed.

Lemma erase_lookup (m m' : JsMap.t EmailTemplate.t) (k : Z) t :
  eraseUsage m' = eraseUsage m -> JsMap.get k m = Some t ->
  exists t', JsMap.get k m' = Some t'
             /\ EmailTemplate.with_usageCount None t' = EmailTemplate.with_usageCount None t.
Proof.
  intros E H. pose proof (eraseUsage_get k m') as H'.
  rewrite E, eraseUsage_get, H in H'. cbn in H'.
  destruct (JsMap.get k m') as [t'|]; cbn in H'; [|discriminate].
  exists t'. split; [reflexivity|congruence].
Qed.

Lemma same_content_message e c t t' :
  EmailTemplate.with_usageCount None t' = EmailTemplate.with_usageCount None t ->
  Dispatch.subject e c t' = Dispatch.subject e c t
  /\ Dispatch.content e c t' = Dispatch.content e c t
  /\ personalizedSubject e c t' = personalizedSubject e c t
  /\ personalizedContent e c t' = personalizedContent e c t.
Proof.
  intros E. destruct t, t'. cbn in E. injection E as -> -> -> -> -> -> -> ->.
  repeat split.
Qed.

(** A record that can be sent stays [sent] once its turn in the batch has
    come, whatever happens to the records around it. *)
Lemma for_of_reaches_sent now e c t ps pc (l : list ScheduledEmail.t) :
  Js.not_val (Dispatch.subject e c t) = false ->
  Js.not_val (Dispatch.content e c t) = false ->
  personalizedSubject e c t = Return ps ->
  personalizedContent e c t = Return pc ->
  (forall h, sendEmail h (Dispatch.message c ps pc) = Return true) ->
  forall w,
    List.NoDup (map ScheduledEmail.id l) -> In e l ->
    MemStorage.getScheduledEmail (ScheduledEmail.id e) (storage w) = Some e ->
    MemStorage.getClient (ScheduledEmail.clientId e) (storage w) = Some c ->
    (exists t', MemStorage.getEmailTemplate (ScheduledEmail.templateId e) (storage w)
                = Some t'
                /\ EmailTemplate.with_usageCount None t'
                   = EmailTemplate.with_usageCount None t) ->
    exists e',
      MemStorage.getScheduledEmail (ScheduledEmail.id e)
        (storage (snd (for_of l (send now) w))) = Some e'
      /\ ScheduledEmail.status e' = "sent".
Proof.
  intros Hs Hn Hps Hpc Hok.
  induction l as [|x l IH]; intros w Hnd Hin He Hc (t' & Ht' & Et');
    [destruct Hin|].
  cbn in Hnd. apply List.NoDup_cons_iff in Hnd as [Hx Hnd].
  rewrite for_of_cons.
  destruct (same_content_message e c t t' Et') as (Es & En & Eps & Epc).
  destruct Hin as [->|Hin].
  - (* the record's own turn *)
    destruct (for_of_frame now l (snd (send now e w))) as [[_ _ Hsch _] _].
    unfold MemStorage.getScheduledEmail. rewrite Hsch by exact Hx.
    rewrite (send_transport now e c t' ps pc) by (try assumption; congruence).
    rewrite Hok. rewrite (updateScheduledEmail_present _ _ _ _ He).
    cbn [snd storage].
    rewrite (to_scheduled _ _ _ (touchesOnly_incrementTemplateUsage _ _))
      by (intros []).
    eexists. split; [cbn; apply get_set_eq|reflexivity].
  - (* another record's turn *)
    assert (Hid : ScheduledEmail.id x <> ScheduledEmail.id e).
    { intros E. apply Hx. rewrite E. apply in_map, Hin. }
    destruct (send_frame now x w) as [[Hcl Htm Hsch _] _].
    apply IH; try assumption.
    + unfold MemStorage.getScheduledEmail in *. rewrite Hsch; [exact He|].
      intros [E|[]]. contradiction.
    + unfold MemStorage.getClient in *. rewrite Hcl. exact Hc.
    + destruct (erase_lookup _ _ _ _ Htm Ht') as (t'' & Ht'' & Et'').
      exists t''. split; [exact Ht''|congruence].
Qed.

Lemma length_set_le {V} (k : Z) (v : V) (m : JsMap.t V) :
  (length (JsMap.set k v m) <= S (length m))%nat.
Proof.
  induction m as [|[k' v'] m IH]; cbn; [lia|].
  destruct (k' =? k); cbn; lia.
Qed.

Lemma emailLogs_update (id : Z) (u : PartialScheduledEmail.t) (s : MemStorage.t) :
  MemStorage.emailLogs (snd (MemStorage.updateScheduledEmail id u s))
  = MemStorage.emailLogs s.
Proof.
  unfold MemStorage.updateScheduledEmail.
  destruct (JsMap.get id (MemStorage.scheduledEmails s)); reflexivity.
Qed.

Lemma emailLogs_incrementTemplateUsage (id : Z) (s : MemStorage.t) :
  MemStorage.emailLogs (MemStorage.incrementTemplateUsage id s) = MemStorage.emailLogs s.
Proof.
  unfold MemStorage.incrementTemplateUsage.
  destruct (JsMap.get id (MemStorage.emailTemplates s)); reflexivity.
Qed.

(** A dispatch makes at most one log entry. *)
Lemma send_logs now e w :
  (length (MemStorage.emailLogs (storage (snd (send now e w))))
   <= S (length (MemStorage.emailLogs (storage w))))%nat.
Proof.
  destruct (send_outcome now e w)
    as [(_ & msg & out & -> & _)|(c & t & ps & pc & _ & _ & _ & _ & _ & _ & _ & ->)];
    cbn [snd storage].
  - rewrite emailLogs_update. lia.
  - rewrite emailLogs_incrementTemplateUsage. cbn. rewrite emailLogs_update.
    apply length_set_le.
Qed.

Lemma for_of_logs now (l : list ScheduledEmail.t) w :
  (length (MemStorage.emailLogs (storage (snd (for_of l (send now) w))))
   <= length (MemStorage.emailLogs (storage w)) + length l)%nat.
Proof.
  revert w. induction l as [|e l IH]; intros w; [cbn; lia|].
  rewrite for_of_cons. pose proof (send_logs now e w). pose proof (IH (snd (send now e w))).
  cbn [length]. lia.
Qed.

Lemma terminal_not_pending (st : string) : terminal st -> st <> "pending".
Proof. intros [-> | [-> | ->]]; discriminate. Qed.

(** C5, as the code has it. [sendScheduledEmail] has no guard of its own;
    the guard is the due-set query of the tick, its only caller. A tick on a
    well-formed store leaves every record whose status is terminal exactly
    as it was, calls the transport and writes a log entry at most once for
    each record that is pending and due, and changes nothing at all when
    every record is terminal. *)
Theorem tick_leaves_terminal_records now w :
  wf_store (storage w) ->
  let due := MemStorage.getPendingScheduledEmails now (storage w) in
  let w' := snd (tick now w) in
  (forall k e,
     MemStorage.getScheduledEmail k (storage w) = Some e ->
     terminal (ScheduledEmail.status e) ->
     MemStorage.getScheduledEmail k (storage w') = Some e)
  /\ (length (outbox w') <= length (outbox w) + length due)%nat
  /\ (length (MemStorage.emailLogs (storage w'))
      <= length (MemStorage.emailLogs (storage w)) + length due)%nat
  /\ ((forall e, In e (JsMap.values (MemStorage.scheduledEmails (storage w))) ->
         terminal (ScheduledEmail.status e)) ->
      w' = w).
Proof.
  intros Hwf due w'. unfold w'. rewrite tick_for_of. cbn [snd]. fold due.
  destruct (for_of_frame now due w) as [[_ _ Hsch _] Hout].
  split; [|split; [exact Hout|split; [apply for_of_logs|]]].
  - intros k e Hk Hterm. unfold MemStorage.getScheduledEmail in *.
    rewrite Hsch; [exact Hk|]. intros Hin.
    apply in_map_iff in Hin as (e' & E & Hin).
    apply (due_get now _ e' Hwf) in Hin as [Hget Hp].
    unfold MemStorage.getScheduledEmail in Hget. rewrite E, Hk in Hget.
    injection Hget as ->. apply terminal_not_pending in Hterm. contradiction.
  - intros Hall. assert (E : due = []).
    { destruct due as [|e l] eqn:Ed; [reflexivity|]. exfalso.
      assert (Hin : In e due) by (rewrite Ed; left; reflexivity).
      apply In_getPendingScheduledEmails in Hin as (Hin & Hp & _).
      apply Hall, terminal_not_pending in Hin. contradiction. }
    rewrite E. reflexivity.
Qed.

(** C6. A dispatch always returns normally, whatever the renderer and the
    transport do. When the transport declines the message or throws, the
    record is left [failed] with the error text in its error message; when
    the renderer throws, for the subject or for the content, the record is
    left [failed] with the text of that error and the transport is not
    called. A tick returns normally too and runs the dispatch of every due
    record, in order; so a due record that can be sent is [sent] after the
    tick, whatever became of the records before it. *)
Theorem failures_stay_in_the_record now w :
  (forall e, fst (send now e w) = Return tt)
  /\ (forall e c t ps pc,
        MemStorage.getScheduledEmail (ScheduledEmail.id e) (storage w) = Some e ->
        MemStorage.getClient (ScheduledEmail.clientId e) (storage w) = Some c ->
        MemStorage.getEmailTemplate (ScheduledEmail.templateId e) (storage w) = Some t ->
        Dispatch.subject e c t <> Js.Text "" ->
        Dispatch.content e c t <> Js.Text "" ->
        personalizeContent (Dispatch.subject e c t) (variables c) = Return ps ->
        personalizeContent (Dispatch.content e c t) (variables c) = Return pc ->
        forall msg,
          sendEmail (outbox w) (Dispatch.message c ps pc) = Return false
            /\ msg = "Failed to send email via SendGrid"
          \/ (exists error,
                sendEmail (outbox w) (Dispatch.message c ps pc) = Throw error
                /\ msg = Dispatch.errorText error) ->
          MemStorage.getScheduledEmail (ScheduledEmail.id e)
            (storage (snd (send now e w)))
          = Some (Dispatch.failed e msg))
  /\ (forall e c t error,
        MemStorage.getScheduledEmail (ScheduledEmail.id e) (storage w) = Some e ->
        MemStorage.getClient (ScheduledEmail.clientId e) (storage w) = Some c ->
        MemStorage.getEmailTemplate (ScheduledEmail.templateId e) (storage w) = Some t ->
        Dispatch.subject e c t <> Js.Text "" ->
        Dispatch.content e c t <> Js.Text "" ->
        personalizeContent (Dispatch.subject e c t) (variables c) = Throw error
        \/ (exists ps,
              personalizeContent (Dispatch.subject e c t) (variables c) = Return ps
              /\ personalizeContent (Dispatch.content e c t) (variables c)
                 = Throw error) ->
        MemStorage.getScheduledEmail (ScheduledEmail.id e)
          (storage (snd (send now e w)))
        = Some (Dispatch.failed e (Dispatch.errorText error))
        /\ outbox (snd (send now e w)) = outbox w)
  /\ tick now w
     = (Return tt,
        snd (for_of (MemStorage.getPendingScheduledEmails now (storage w))
               (send now) w))
  /\ (forall e c t ps pc,
        wf_store (storage w) ->
        In e (MemStorage.getPendingScheduledEmails now (storage w)) ->
        MemStorage.getClient (ScheduledEmail.clientId e) (storage w) = Some c ->
        MemStorage.getEmailTemplate (ScheduledEmail.templateId e) (storage w) = Some t ->
        Dispatch.subject e c t <> Js.Text "" ->
        Dispatch.content e c t <> Js.Text "" ->
        personalizeContent (Dispatch.subject e c t) (variables c) = Return ps ->
        personalizeContent (Dispatch.content e c t) (variables c) = Return pc ->
        (forall h, sendEmail h (Dispatch.message c ps pc) = Return true) ->
        exists e',
          MemStorage.getScheduledEmail (ScheduledEmail.id e)
            (storage (snd (tick now w))) = Some e'
          /\ ScheduledEmail.status e' = "sent").
Proof.
  split; [intros e; apply send_returns|].
  split; [|split; [|split; [apply tick_for_of|]]].
  - intros e c t ps pc He Hc Ht Hs Hn Hps Hpc msg Hfail.
    rewrite (send_transport now e c t ps pc)
      by (try assumption; apply not_val_false; assumption).
    cbn [snd storage].
    destruct Hfail as [[-> ->] | (error & -> & ->)];
      rewrite (updateScheduledEmail_present _ _ _ _ He); cbn;
      unfold MemStorage.getScheduledEmail; cbn; apply get_set_eq.
  - intros e c t error He Hc Ht Hs Hn Hthrow.
    rewrite (send_render_throws now e c t w error)
      by (try assumption; apply not_val_false; assumption).
    rewrite (updateScheduledEmail_present _ _ _ _ He). cbn.
    split; [|reflexivity]. unfold MemStorage.getScheduledEmail. cbn. apply get_set_eq.
  - intros e c t ps pc Hwf Hin Hc Ht Hs Hn Hps Hpc Hok. rewrite tick_for_of. cbn [snd].
    apply (for_of_reaches_sent now e c t ps pc);
      try assumption; try (apply not_val_false; assumption).
    + apply due_ids_NoDup, Hwf.
    + apply (due_get now _ e Hwf Hin).
    + exists t. split; [exact Ht|reflexivity].
Qed.

Lemma tick_wf now w : wf_store (storage w) -> wf_store (storage (snd (tick now w))).
Proof. intros Hwf. rewrite tick_for_of. apply for_of_wf, Hwf. Qed.

End DispatchFacts.

(** ** The example deployment *)

Lemma wf_scheduleEmail (zone : JsDate.Zone) (now clientId templateId : Z)
    (delay : Delay) (language : option string) (s : MemStorage.t) :
  wf_store s ->
  wf_store (snd (EmailScheduler.scheduleEmail zone now clientId templateId delay language s)).
Proof. apply wf_createScheduledEmail. Qed.

Lemma issued_nil {V} (next : Z) : 1 <= next -> issued (@nil (Z * V)) next.
Proof. intros H. split; [exact H|]. split; constructor. Qed.

Lemma issued_one {V} (v : V) : issued [(1, v)] 2.
Proof.
  split; [lia|]. split; cbn.
  - constructor; constructor.
  - constructor; [lia|constructor].
Qed.

Lemma wf_base : wf_store Example.base.
Proof.
  constructor; cbn.
  - intros k v [[= <- <-]|[]]. reflexivity.
  - apply issued_one.
  - intros k v [[= <- <-]|[]]. reflexivity.
  - apply issued_one.
  - intros k v [].
  - apply issued_nil. lia.
  - apply issued_nil. lia.
Qed.

Lemma wf_scheduled1 : wf_store Example.scheduled1.
Proof. apply wf_scheduleEmail, wf_base. Qed.

Lemma wf_scheduled2 : wf_store Example.scheduled2.
Proof. apply wf_scheduleEmail, wf_scheduleEmail, wf_base. Qed.

Lemma wf_afterTick1 : wf_store (storage Example.afterTick1).
Proof. apply tick_wf, wf_scheduled1. Qed.

(** The end-to-end scenario: scheduled at [T0] with delay [immediate], the
    record is due one minute later; the dispatch of the tick at [T0] plus
    two minutes sends it, in English, the language [scheduleEmail] gave
    it. *)
Lemma sendScheduledEmail_success_witness :
  let w' := snd (Example.send Example.T2 Example.email1 (mkWorld Example.scheduled1 [])) in
  ScheduledEmail.scheduledFor Example.email1 = Example.T0 + 60000
  /\ MemStorage.getScheduledEmail 1 (storage w')
     = Some (ScheduledEmail.mk 1 1 1 (Example.T0 + 60000) "sent" "en"
               (Some "Hello Acme") (Some "<p>Hi Acme of Acme Corp</p>")
               (Some Example.T2) None Example.T0)
  /\ MemStorage.emailLogs (storage w')
     = [(1, EmailLog.mk 1 1 (Some 1) (Some 1) "Hello Acme" "sent" "en" Example.T2
              None None None)]
  /\ option_map EmailTemplate.usageCount (MemStorage.getEmailTemplate 1 (storage w'))
     = Some (Some 1)
  /\ outbox w'
     = [mkEmailParams "ops@acme.test" "noreply@emailflow.app" "Hello Acme"
          "<p>Hi Acme of Acme Corp</p>" "Hi Acme of Acme Corp"].
Proof.
  intros w'.
  destruct (sendScheduledEmail_success Spec.dayNumber Spec.personalizeContent
              Spec.acceptAll Example.T2 Example.email1 Example.acme Example.followUp
              (mkWorld Example.scheduled1 []) "en"
              (Js.Text "Hello {{client_name}}")
              (Js.Text "<p>Hi {{client_name}} of {{company}}</p>")
              "Hello Acme" "<p>Hi Acme of Acme Corp</p>")
    as (_ & Hrec & Hlog & Huse & _ & Hout).
  - apply wf_scheduled1.
  - reflexivity.
  - reflexivity.
  - reflexivity.
  - reflexivity.
  - vm_compute. reflexivity.
  - vm_compute. reflexivity.
  - discriminate.
  - discriminate.
  - vm_compute. reflexivity.
  - vm_compute. reflexivity.
  - reflexivity.
  - unfold w', Example.send.
    split; [reflexivity|]. split; [exact Hrec|]. split; [exact Hlog|]. split.
    + change (ScheduledEmail.templateId Example.email1) with 1 in Huse.
      rewrite Huse. reflexivity.
    + exact Hout.
Defined.

Lemma sendScheduledEmail_not_found_witness :
  let w' := snd (Example.send Example.T2 Example.emailGhost
                   (mkWorld Example.scheduled2 [])) in
  MemStorage.getScheduledEmail 1 (storage w')
  = Some (Dispatch.failed Example.emailGhost "Client or template not found")
  /\ outbox w' = []
  /\ MemStorage.emailLogs (storage w') = [].
Proof.
  intros w'.
  destruct (sendScheduledEmail_not_found Spec.dayNumber Spec.personalizeContent
              Spec.acceptAll Example.T2 Example.emailGhost
              (mkWorld Example.scheduled2 []))
    as (_ & Hrec & Hout & Hlog & _).
  - reflexivity.
  - left. reflexivity.
  - split; [exact Hrec|]. split; [exact Hout|exact Hlog].
Defined.




Lemma all_terminal_afterTick1 (e : ScheduledEmail.t) :
  In e (JsMap.values (MemStorage.scheduledEmails (storage Example.afterTick1))) ->
  terminal (ScheduledEmail.status e).
Proof.
  intros H. vm_compute in H. destruct H as [<-|[]]. left. reflexivity.
Qed.

(** A second tick over the store whose only record is [sent] changes
    nothing. *)
Lemma tick_leaves_terminal_records_witness :
  snd (Example.tick (Example.T2 + 60000) Example.afterTick1) = Example.afterTick1
  /\ MemStorage.getScheduledEmail 1
       (storage (snd (Example.tick (Example.T2 + 60000) Example.afterTick1)))
     = Some Example.sent1.
Proof.
  destruct (tick_leaves_terminal_records Spec.dayNumber Spec.personalizeContent
              Spec.acceptAll (Example.T2 + 60000) Example.afterTick1 wf_afterTick1)
    as (Hkeep & _ & _ & Hsame).
  split.
  - apply Hsame, all_terminal_afterTick1.
  - apply Hkeep; [vm_compute; reflexivity|]. left. reflexivity.
Defined.

(** C5 fails as stated: a dispatch of the [sent] record sends the message
    again, writes a second log entry, counts the template a second time and
    overwrites the record's sent time. *)
Lemma sendScheduledEmail_resends_terminal_record :
  let w := Example.afterTick1 in
  let w' := snd (Example.send (Example.T2 + 60000) Example.sent1 w) in
  MemStorage.getScheduledEmail 1 (storage w) = Some Example.sent1
  /\ ScheduledEmail.status Example.sent1 = "sent"
  /\ length (outbox w) = 1%nat /\ length (outbox w') = 2%nat
  /\ length (MemStorage.emailLogs (storage w)) = 1%nat
  /\ length (MemStorage.emailLogs (storage w')) = 2%nat
  /\ option_map EmailTemplate.usageCount (MemStorage.getEmailTemplate 1 (storage w'))
     = Some (Some 2)
  /\ option_map ScheduledEmail.sentAt (MemStorage.getScheduledEmail 1 (storage w'))
     = Some (Some (Example.T2 + 60000))
  /\ w' <> w.
Proof. vm_compute. repeat split. discriminate. Qed.

(** Batch isolation: the first due record fails as its client is missing,
    the second is sent all the same. *)
Lemma failures_stay_in_the_record_witness :
  let w := mkWorld Example.scheduled2 [] in
  MemStorage.getPendingScheduledEmails Example.T2 (storage w)
  = [Example.emailGhost; Example.emailAcme2]
  /\ MemStorage.getClient (ScheduledEmail.clientId Example.emailGhost) (storage w) = None
  /\ exists e',
       MemStorage.getScheduledEmail 2 (storage (snd (Example.tick Example.T2 w)))
       = Some e'
       /\ ScheduledEmail.status e' = "sent".
Proof.
  intros w. split; [reflexivity|]. split; [reflexivity|].
  destruct (failures_stay_in_the_record Spec.dayNumber Spec.personalizeContent
              Spec.acceptAll Example.T2 w) as (_ & _ & _ & _ & H).
  apply (H Example.emailAcme2 Example.acme Example.followUp
           "Hello Acme" "<p>Hi Acme of Acme Corp</p>").
  - apply wf_scheduled2.
  - vm_compute. right. left. reflexivity.
  - reflexivity.
  - reflexivity.
  - vm_compute. discriminate.
  - vm_compute. discriminate.
  - vm_compute. reflexivity.
  - vm_compute. reflexivity.
  - reflexivity.
Defined.

(** Two records with the same due time come out in the order of their
    creation. *)
Lemma getPendingScheduledEmails_due_set_witness :
  StronglySorted dueOrder
    (MemStorage.getPendingScheduledEmails Example.T2 Example.scheduled2)
  /\ MemStorage.getPendingScheduledEmails Example.T2 Example.scheduled2
     = [Example.emailGhost; Example.emailAcme2]
  /\ MemStorage.getPendingScheduledEmails Example.T0 Example.scheduled2 = [].
Proof.
  destruct (getPendingScheduledEmails_due_set Example.T2 Example.scheduled2)
    as (_ & _ & Hs).
  destruct (Hs wf_scheduled2) as [Hs' _].
  split; [exact Hs'|]. split; reflexivity.
Defined.

(** * Further properties of the store and the scheduler *)

(** ** The plain-text part *)

Lemma has_gt_strip_from (b : bool) (s : string) :
  Js.has_gt s = false -> Js.has_gt (Js.strip_from b s) = false.
Proof.
  revert b. induction s as [|c r IH]; intros b H; [reflexivity|].
  cbn in H. destruct (Ascii.eqb c ">") eqn:Ec; [discriminate|].
  cbn. rewrite Ec. destruct b; [apply IH, H|].
  rewrite H, andb_false_r. cbn. rewrite Ec. apply IH, H.
Qed.

Lemma hasTag_strip_from (b : bool) (s : string) :
  Js.hasTag (Js.strip_from b s) = false.
Proof.
  revert b. induction s as [|c r IH]; intros b; [reflexivity|].
  cbn. destruct b.
  - destruct (Ascii.eqb c ">"); apply IH.
  - destruct (Ascii.eqb c "<" && Js.has_gt r) eqn:E; [apply IH|].
    cbn. rewrite IH, orb_false_r.
    apply andb_false_iff in E as [E|E]; [rewrite E; reflexivity|].
    rewrite (has_gt_strip_from false r E). apply andb_false_r.
Qed.

Lemma strip_from_no_tag (s : string) :
  Js.hasTag s = false -> Js.strip_from false s = s.
Proof.
  induction s as [|c r IH]; [reflexivity|].
  cbn. intros H. apply orb_false_iff in H as [H1 H2].
  rewrite H1, IH by exact H2. reflexivity.
Qed.

(** X1. The plain-text part of a message has no markup tag left in it;
    stripping is the identity on a text without tags, and so stripping twice
    is stripping once. *)
Theorem stripTags_removes_every_tag (s : string) :
  Js.hasTag (Js.stripTags s) = false
  /\ (Js.hasTag s = false -> Js.stripTags s = s)
  /\ Js.stripTags (Js.stripTags s) = Js.stripTags s.
Proof.
  split; [apply hasTag_strip_from|]. split; [apply strip_from_no_tag|].
  apply strip_from_no_tag, hasTag_strip_from.
Qed.

Lemma stripTags_removes_every_tag_witness :
  Js.stripTags "a <b>c</b> < d" = "a c < d"
  /\ Js.stripTags "2 < 3" = "2 < 3".
Proof.
  split; [reflexivity|].
  destruct (stripTags_removes_every_tag "2 < 3") as (_ & H & _).
  apply H. reflexivity.
Defined.

(** ** The delays, in milliseconds *)

Lemma scheduledFor_gt (tza : Z) (delay : Delay) (now : Z) :
  now < EmailScheduler.scheduledFor (fixed tza) delay now.
Proof.
  destruct delay.
  - rewrite scheduledFor_Immediate. unfold msPerMinute. lia.
  - rewrite scheduledFor_OneDay. unfold msPerDay. lia.
  - rewrite scheduledFor_OneWeek. unfold msPerDay. lia.
  - rewrite scheduledFor_OneMonth.
    pose proof (DaysInMonth_range (YearFromTime (LocalTime (fixed tza) now)) _
                  (MonthFromTime_range (LocalTime (fixed tza) now))).
    unfold msPerDay. lia.
Qed.

(** X2. In a zone at a fixed offset, [immediate] is due exactly one minute
    after the clock's reading, [1day] exactly 24 hours and [1week] exactly
    168 hours after it, and [1month] a whole number of days after it, between
    28 and 31: the length of the current calendar month. *)
Theorem scheduledFor_offsets (tza now : Z) :
  EmailScheduler.scheduledFor (fixed tza) Immediate now = now + 60000
  /\ EmailScheduler.scheduledFor (fixed tza) OneDay now = now + 86400000
  /\ EmailScheduler.scheduledFor (fixed tza) OneWeek now = now + 604800000
  /\ exists days,
       28 <= days <= 31
       /\ days = DaysInMonth (YearFromTime (LocalTime (fixed tza) now))
                   (MonthFromTime (LocalTime (fixed tza) now))
       /\ EmailScheduler.scheduledFor (fixed tza) OneMonth now = now + days * 86400000.
Proof.
  rewrite scheduledFor_Immediate, scheduledFor_OneDay, scheduledFor_OneWeek,
    scheduledFor_OneMonth.
  unfold msPerMinute, msPerDay. repeat split; try lia.
  eexists. split; [|split; reflexivity].
  apply DaysInMonth_range, MonthFromTime_range.
Qed.

(** ** More on insertion-ordered maps *)

Section JsMapMore.
Context {V : Type}.
Implicit Types (m : JsMap.t V) (k : Z) (v : V).

Lemma In_set_self k v m : In (k, v) (JsMap.set k v m).
Proof. apply get_Some_In, get_set_eq. Qed.

Lemma In_delete k k' v m : In (k', v) (JsMap.delete k m) -> In (k', v) m.
Proof.
  induction m as [|[k0 v0] m IH]; cbn; [tauto|].
  destruct (k0 =? k); cbn; [tauto|]. intros [H|H]; [tauto|]. right. apply IH, H.
Qed.

Lemma get_delete_ne k k' m : k <> k' -> JsMap.get k' (JsMap.delete k m) = JsMap.get k' m.
Proof.
  intros Hne. induction m as [|[k0 v0] m IH]; cbn; [reflexivity|].
  destruct (Z.eqb_spec k0 k) as [E|E]; cbn.
  - destruct (Z.eqb_spec k0 k'); [congruence|reflexivity].
  - destruct (k0 =? k'); [reflexivity|exact IH].
Qed.

Lemma delete_absent k m : ~ In k (JsMap.keys m) -> JsMap.delete k m = m.
Proof.
  induction m as [|[k0 v0] m IH]; cbn; [reflexivity|].
  intros H. destruct (Z.eqb_spec k0 k) as [E|E]; [tauto|].
  f_equal. apply IH. tauto.
Qed.

Lemma get_delete_eq k m :
  List.NoDup (JsMap.keys m) -> JsMap.get k (JsMap.delete k m) = None.
Proof.
  induction m as [|[k0 v0] m IH]; cbn; [reflexivity|].
  intros Hnd. apply List.NoDup_cons_iff in Hnd as [Hk Hnd].
  destruct (Z.eqb_spec k0 k) as [E|E]; cbn.
  - apply get_None_keys. rewrite <- E. exact Hk.
  - destruct (Z.eqb_spec k0 k); [contradiction|apply IH, Hnd].
Qed.

Lemma keys_delete_incl k k' m : In k' (JsMap.keys (JsMap.delete k m)) -> In k' (JsMap.keys m).
Proof.
  intros H. apply in_map_iff in H as ([k0 v0] & E & H). cbn in E. subst k0.
  apply In_delete in H. apply (in_map fst) in H. exact H.
Qed.

Lemma keyed_delete (idOf : V -> Z) k m : keyed idOf m -> keyed idOf (JsMap.delete k m).
Proof. intros H k' v Hin. apply H. eapply In_delete, Hin. Qed.

Lemma StronglySorted_delete k m :
  StronglySorted Z.lt (JsMap.keys m) -> StronglySorted Z.lt (JsMap.keys (JsMap.delete k m)).
Proof.
  induction m as [|[k0 v0] m IH]; cbn; [auto|].
  intros H. apply StronglySorted_inv in H as [Hs Hall].
  destruct (k0 =? k); cbn; [exact Hs|]. constructor; [apply IH, Hs|].
  rewrite List.Forall_forall in *. intros x Hx. apply Hall. eapply keys_delete_incl, Hx.
Qed.

Lemma issued_delete k m next : issued m next -> issued (JsMap.delete k m) next.
Proof.
  intros (Hpos & Hs & Hb). split; [exact Hpos|]. split; [apply StronglySorted_delete, Hs|].
  rewrite List.Forall_forall in *. intros x Hx. apply Hb. eapply keys_delete_incl, Hx.
Qed.

(** Counting the values that satisfy [p], when one value is replaced. *)
Lemma count_set_present (p : V -> bool) k v v0 m :
  List.NoDup (JsMap.keys m) -> JsMap.get k m = Some v0 ->
  (length (List.filter p (JsMap.values (JsMap.set k v m))) + (if p v0 then 1 else 0)
   = length (List.filter p (JsMap.values m)) + (if p v then 1 else 0))%nat.
Proof.
  induction m as [|[k0 x] m IH]; cbn; [discriminate|].
  intros Hnd Hg. apply List.NoDup_cons_iff in Hnd as [Hk Hnd].
  destruct (Z.eqb_spec k0 k) as [E|E]; cbn.
  - injection Hg as ->. unfold JsMap.values. destruct (p v), (p v0); cbn; lia.
  - specialize (IH Hnd Hg). unfold JsMap.values in *. destruct (p x); cbn; lia.
Qed.

Lemma values_snoc m k v : JsMap.values (m ++ [(k, v)]) = JsMap.values m ++ [v].
Proof. unfold JsMap.values. rewrite map_app. reflexivity. Qed.

End JsMapMore.

Lemma filter_length_snoc {A} (p : A -> bool) (l : list A) (x : A) :
  length (List.filter p (l ++ [x]))
  = (length (List.filter p l) + (if p x then 1 else 0))%nat.
Proof.
  rewrite List.filter_app, length_app. cbn. destruct (p x); reflexivity.
Qed.

(** ** Clients *)




Lemma wf_updateClient (id : Z) (u : PartialInsertClient.t) (s : MemStorage.t) :
  wf_store s -> wf_store (snd (MemStorage.updateClient id u s)).
Proof.
  intros Hwf. unfold MemStorage.updateClient.
  destruct (JsMap.get id (MemStorage.clients s)) as [c|] eqn:E; cbn; [|exact Hwf].
  destruct Hwf as [H1 H2 H3 H4 H5 H6 H7]. constructor; cbn; try assumption.
  - apply keyed_set; [exact H1|]. cbn. eapply keyed_get; eassumption.
  - apply issued_set_present; [eapply get_Some_keys, E|exact H2].
Qed.

(** X4. [updateClient] on an id that is not stored answers [undefined] and
    changes nothing. On a stored client it answers the merged client, which
    keeps its id and creation time and has, for the name, the address, the
    company, the phone, the language, the custom fields and the last
    interaction alike, the update's value where the update gives the field
    and the stored value where it does not; the merged client is what a
    lookup then gives, no other client changes, and no client is added or
    moved. *)
Theorem updateClient_merges (id : Z) (u : PartialInsertClient.t) (s : MemStorage.t) :
  (MemStorage.getClient id s = None -> MemStorage.updateClient id u s = (None, s))
  /\ (forall c,
        MemStorage.getClient id s = Some c ->
        let c' := MemStorage.mergeClient c u in
        let s' := snd (MemStorage.updateClient id u s) in
        fst (MemStorage.updateClient id u s) = Some c'
        /\ Client.id c' = Client.id c /\ Client.createdAt c' = Client.createdAt c
        /\ (forall x, PartialInsertClient.email u = Some x -> Client.email c' = x)
        /\ (PartialInsertClient.email u = None -> Client.email c' = Client.email c)
        /\ MemStorage.getClient id s' = Some c'
        /\ (forall k, k <> id -> MemStorage.getClient k s' = MemStorage.getClient k s)
        /\ JsMap.keys (MemStorage.clients s') = JsMap.keys (MemStorage.clients s)
        /\ (wf_store s -> wf_store s')
        /\ c' = Client.mk (Client.id c)
                  match PartialInsertClient.name u with
                  | Some x => x
                  | None => Client.name c
                  end
                  match PartialInsertClient.email u with
                  | Some x => x
                  | None => Client.email c
                  end
                  match PartialInsertClient.company u with
                  | Some x => x
                  | None => Client.company c
                  end
                  match PartialInsertClient.phone u with
                  | Some x => x
                  | None => Client.phone c
                  end
                  match PartialInsertClient.language u with
                  | Some x => x
                  | None => Client.language c
                  end
                  match PartialInsertClient.customFields u with
                  | Some x => x
                  | None => Client.customFields c
                  end
                  match PartialInsertClient.lastInteraction u with
                  | Some x => x
                  | None => Client.lastInteraction c
                  end
                  (Client.createdAt c)).
Proof.
  unfold MemStorage.getClient, MemStorage.updateClient. split.
  - intros ->. reflexivity.
  - intros c Hc. rewrite Hc. cbn. do 3 (split; [reflexivity|]).
    split; [intros x ->; reflexivity|]. split; [intros ->; reflexivity|].
    split; [apply get_set_eq|].
    split; [intros k Hk; apply get_set_ne; congruence|].
    split; [apply keys_set_present; eapply get_Some_keys, Hc|].
    split; [|reflexivity].
    intros Hwf. pose proof (wf_updateClient id u s Hwf) as H.
      unfold MemStorage.updateClient in H. rewrite Hc in H. exact H.
Qed.

(** Acme gets a new address and a new company, and loses its phone; name,
    language and custom fields, which the update does not give, stay. *)
Lemma updateClient_merges_witness :
  let u := PartialInsertClient.mk None (Some "new@acme.test")
             (Some (Some "Acme Ltd")) (Some None) None None (Some (Some 5)) in
  MemStorage.updateClient 9 u Example.base = (None, Example.base)
  /\ MemStorage.getClient 1 (snd (MemStorage.updateClient 1 u Example.base))
     = Some (Client.mk 1 "Acme" "new@acme.test" (Some "Acme Ltd") None "en"
               (Some {[ "plan" := "gold" ]}) (Some 5) 0).
Proof.
  intros u. destruct (updateClient_merges 9 u Example.base) as [Hmiss _].
  destruct (updateClient_merges 1 u Example.base) as [_ Hhit].
  split; [apply Hmiss; reflexivity|].
  destruct (Hhit Example.acme eq_refl) as (_ & _ & _ & _ & _ & Hget & _ & _ & _ & Hall).
  rewrite Hget, Hall. reflexivity.
Defined.

Lemma wf_deleteClient (id : Z) (s : MemStorage.t) :
  wf_store s -> wf_store (snd (MemStorage.deleteClient id s)).
Proof.
  intros [H1 H2 H3 H4 H5 H6 H7]. constructor; cbn; try assumption.
  - apply keyed_delete, H1.
  - apply issued_delete, H2.
Qed.

Lemma bool_decide_is_Some {A} (o : option A) :
  bool_decide (is_Some o) = match o with Some _ => true | None => false end.
Proof.
  destruct o; [apply bool_decide_eq_true; eauto|].
  apply bool_decide_eq_false. intros [x Hx]. discriminate.
Qed.

(** X5. [deleteClient] answers [true] exactly when the id was stored.
    Afterwards the id is not found, every other client is as before, and a
    second delete of the same id answers [false] and changes nothing. *)
Theorem deleteClient_removes (id : Z) (s : MemStorage.t) :
  wf_store s ->
  let s' := snd (MemStorage.deleteClient id s) in
  (fst (MemStorage.deleteClient id s) = true <-> is_Some (MemStorage.getClient id s))
  /\ MemStorage.getClient id s' = None
  /\ (forall k, k <> id -> MemStorage.getClient k s' = MemStorage.getClient k s)
  /\ MemStorage.deleteClient id s' = (false, s')
  /\ wf_store s'.
Proof.
  intros Hwf s'. unfold MemStorage.getClient, MemStorage.deleteClient in *. cbn.
  pose proof (issued_NoDup _ _ (wf_clients_issued _ Hwf)) as Hnd.
  assert (Hgone : JsMap.get id (JsMap.delete id (MemStorage.clients s)) = None)
    by (apply get_delete_eq, Hnd).
  split; [apply bool_decide_eq_true|]. split; [exact Hgone|].
  split; [intros k Hk; apply get_delete_ne; congruence|].
  split; [|apply (wf_deleteClient id s Hwf)].
  unfold s'. cbn. rewrite Hgone, bool_decide_is_Some. f_equal.
  unfold MemStorage.with_clients. cbn. f_equal.
  apply delete_absent, get_None_keys, Hgone.
Qed.

Lemma deleteClient_removes_witness :
  fst (MemStorage.deleteClient 1 Example.base) = true
  /\ MemStorage.getClient 1 (snd (MemStorage.deleteClient 1 Example.base)) = None.
Proof.
  destruct (deleteClient_removes 1 Example.base wf_base) as (Hret & Hgone & _).
  split; [|exact Hgone]. apply Hret. eexists. reflexivity.
Defined.

(** ** Templates *)





Lemma wf_updateEmailTemplate (id : Z) (u : PartialInsertEmailTemplate.t)
    (s : MemStorage.t) :
  wf_store s -> wf_store (snd (MemStorage.updateEmailTemplate id u s)).
Proof.
  intros Hwf. unfold MemStorage.updateEmailTemplate.
  destruct (JsMap.get id (MemStorage.emailTemplates s)) as [x|] eqn:E; cbn; [|exact Hwf].
  destruct Hwf as [H1 H2 H3 H4 H5 H6 H7]. constructor; cbn; try assumption.
  - apply keyed_set; [exact H3|]. cbn. eapply keyed_get; eassumption.
  - apply issued_set_present; [eapply get_Some_keys, E|exact H4].
Qed.

(** X7. [updateEmailTemplate] on an id that is not stored answers
    [undefined] and changes nothing. On a stored template it answers and
    stores the merged template, which keeps its id, its creation time and
    its usage count, whatever the update holds; no other template changes. *)
Theorem updateEmailTemplate_keeps_usage (id : Z) (u : PartialInsertEmailTemplate.t)
    (s : MemStorage.t) :
  (MemStorage.getEmailTemplate id s = None ->
   MemStorage.updateEmailTemplate id u s = (None, s))
  /\ (forall x,
        MemStorage.getEmailTemplate id s = Some x ->
        let x' := MemStorage.mergeTemplate x u in
        let s' := snd (MemStorage.updateEmailTemplate id u s) in
        fst (MemStorage.updateEmailTemplate id u s) = Some x'
        /\ MemStorage.getEmailTemplate id s' = Some x'
        /\ EmailTemplate.usageCount x' = EmailTemplate.usageCount x
        /\ EmailTemplate.id x' = EmailTemplate.id x
        /\ EmailTemplate.createdAt x' = EmailTemplate.createdAt x
        /\ (forall d, PartialInsertEmailTemplate.content u = Some d ->
              EmailTemplate.content x' = d)
        /\ (forall k, k <> id ->
              MemStorage.getEmailTemplate k s' = MemStorage.getEmailTemplate k s)
        /\ (wf_store s -> wf_store s')).
Proof.
  unfold MemStorage.getEmailTemplate, MemStorage.updateEmailTemplate. split.
  - intros ->. reflexivity.
  - intros x Hx. rewrite Hx. cbn. split; [reflexivity|].
    split; [apply get_set_eq|]. do 3 (split; [reflexivity|]).
    split; [intros d ->; reflexivity|].
    split; [intros k Hk; apply get_set_ne; congruence|].
    intros Hwf. pose proof (wf_updateEmailTemplate id u s Hwf) as H.
    unfold MemStorage.updateEmailTemplate in H. rewrite Hx in H. exact H.
Qed.

Lemma updateEmailTemplate_keeps_usage_witness :
  let u := PartialInsertEmailTemplate.mk (Some "Renamed") None None None None None in
  MemStorage.updateEmailTemplate 9 u Example.base = (None, Example.base)
  /\ option_map EmailTemplate.usageCount
       (MemStorage.getEmailTemplate 1
          (snd (MemStorage.updateEmailTemplate 1 u Example.base)))
     = Some (Some 0).
Proof.
  intros u. destruct (updateEmailTemplate_keeps_usage 9 u Example.base) as [Hmiss _].
  destruct (updateEmailTemplate_keeps_usage 1 u Example.base) as [_ Hhit].
  split; [apply Hmiss; reflexivity|].
  destruct (Hhit Example.followUp eq_refl) as (_ & Hget & Huse & _).
  rewrite Hget. cbn [option_map]. rewrite Huse. reflexivity.
Defined.

Lemma incrementTemplateUsage_absent (id : Z) (s : MemStorage.t) :
  MemStorage.getEmailTemplate id s = None -> MemStorage.incrementTemplateUsage id s = s.
Proof.
  unfold MemStorage.getEmailTemplate, MemStorage.incrementTemplateUsage.
  intros ->. reflexivity.
Qed.

Lemma incrementTemplateUsage_lookup (id : Z) (s : MemStorage.t) (x : EmailTemplate.t) :
  MemStorage.getEmailTemplate id s = Some x ->
  MemStorage.getEmailTemplate id (MemStorage.incrementTemplateUsage id s)
  = Some (EmailTemplate.with_usageCount
            (Some (default 0 (EmailTemplate.usageCount x) + 1)) x)
  /\ forall k, k <> id ->
       MemStorage.getEmailTemplate k (MemStorage.incrementTemplateUsage id s)
       = MemStorage.getEmailTemplate k s.
Proof.
  intros Hx. rewrite (incrementTemplateUsage_present id s x Hx).
  unfold MemStorage.getEmailTemplate. cbn. split; [apply get_set_eq|].
  intros k Hk. apply get_set_ne. congruence.
Qed.

(** X8. [incrementTemplateUsage] on an id that is not stored changes
    nothing. Called [n] times on a stored template it raises the usage count
    by [n] (a [null] count is read as 0), leaves every other field of the
    template as it is, and touches no other template. *)
Theorem incrementTemplateUsage_counts (id : Z) (n : nat) (s : MemStorage.t) :
  let s' := Nat.iter n (MemStorage.incrementTemplateUsage id) s in
  (MemStorage.getEmailTemplate id s = None -> s' = s)
  /\ (forall x,
        MemStorage.getEmailTemplate id s = Some x ->
        exists x',
          MemStorage.getEmailTemplate id s' = Some x'
          /\ default 0 (EmailTemplate.usageCount x')
             = default 0 (EmailTemplate.usageCount x) + Z.of_nat n
          /\ EmailTemplate.with_usageCount None x' = EmailTemplate.with_usageCount None x)
  /\ (forall k, k <> id ->
        MemStorage.getEmailTemplate k s' = MemStorage.getEmailTemplate k s).
Proof.
  induction n as [|n IH]; cbn zeta.
  - split; [reflexivity|]. split; [|reflexivity].
    intros x Hx. exists x. split; [exact Hx|]. split; [cbn; lia|reflexivity].
  - cbn zeta in IH. destruct IH as (IH0 & IH1 & IH2).
    change (Nat.iter (S n) (MemStorage.incrementTemplateUsage id) s)
      with (MemStorage.incrementTemplateUsage id
              (Nat.iter n (MemStorage.incrementTemplateUsage id) s)).
    set (s1 := Nat.iter n (MemStorage.incrementTemplateUsage id) s) in *.
    split; [|split].
    + intros Hnone. rewrite (IH0 Hnone). apply incrementTemplateUsage_absent, Hnone.
    + intros x Hx. destruct (IH1 x Hx) as (x1 & H1 & Hcount & Hsame).
      destruct (incrementTemplateUsage_lookup id s1 x1 H1) as [Hget _].
      eexists. split; [exact Hget|]. split.
      * cbn. lia.
      * destruct x1. cbn in *. exact Hsame.
    + intros k Hk. rewrite <- (IH2 k Hk).
      destruct (MemStorage.getEmailTemplate id s1) as [x1|] eqn:E.
      * apply (incrementTemplateUsage_lookup id s1 x1 E), Hk.
      * rewrite incrementTemplateUsage_absent by exact E. reflexivity.
Qed.

Lemma incrementTemplateUsage_counts_witness :
  option_map EmailTemplate.usageCount
    (MemStorage.getEmailTemplate 1
       (Nat.iter 3 (MemStorage.incrementTemplateUsage 1) Example.base))
  = Some (Some 3)
  /\ Nat.iter 3 (MemStorage.incrementTemplateUsage 9) Example.base = Example.base.
Proof.
  destruct (incrementTemplateUsage_counts 9 3 Example.base) as (Hmiss & _ & _).
  split; [reflexivity|]. apply Hmiss. reflexivity.
Defined.

(** ** The list views *)

Section SortMore.
Context {A : Type} (key : A -> Z).

Lemma sort_sorted_le (l : list A) :
  StronglySorted (fun a b => key a <= key b) (Js.sort key l).
Proof.
  assert (Hany : StronglySorted (fun _ _ : A => True) l).
  { induction l as [|x l IH]; constructor; [exact IH|].
    apply List.Forall_forall. intros; exact I. }
  apply (sort_sorted key) in Hany.
  eapply StronglySorted_weaken; [|exact Hany].
  unfold keyThenTie. intros a b. cbn. lia.
Qed.

Lemma insert_sorted_head (x : A) (l : list A) :
  Forall (fun y => key x <= key y) l -> Js.insert_sorted key x l = x :: l.
Proof.
  destruct l as [|y l]; [reflexivity|]. intros H.
  apply List.Forall_cons_iff in H as [H _]. cbn.
  destruct (Z.leb_spec (key x) (key y)); [reflexivity|lia].
Qed.

Lemma filter_insert_sorted (p : A -> bool) (x : A) (l : list A) :
  StronglySorted (fun a b => key a <= key b) l ->
  List.filter p (Js.insert_sorted key x l)
  = if p x then Js.insert_sorted key x (List.filter p l) else List.filter p l.
Proof.
  induction 1 as [|y l Hs IH Hall]; cbn.
  - destruct (p x); reflexivity.
  - destruct (Z.leb_spec (key x) (key y)) as [Hle|Hgt]; cbn.
    + destruct (p x); [|reflexivity].
      symmetry. apply insert_sorted_head.
      assert (Hxy : Forall (fun z => key x <= key z) (y :: l)).
      { constructor; [exact Hle|]. eapply List.Forall_impl; [|exact Hall].
        cbn. intros; lia. }
      rewrite List.Forall_forall in *. intros z Hz.
      apply Hxy. apply (List.filter_In p z (y :: l)) in Hz. tauto.
    + rewrite IH. destruct (p y), (p x); cbn; try reflexivity.
      destruct (Z.leb_spec (key x) (key y)); [lia|reflexivity].
Qed.

(** Filtering commutes with the stable sort. *)
Lemma filter_sort (p : A -> bool) (l : list A) :
  List.filter p (Js.sort key l) = Js.sort key (List.filter p l).
Proof.
  induction l as [|x l IH]; [reflexivity|]. cbn.
  rewrite filter_insert_sorted by apply sort_sorted_le.
  rewrite IH. destruct (p x); reflexivity.
Qed.

End SortMore.

(** X10. [getClients] and [getEmailTemplates] list every client and every
    template of the store once, newest first. *)
Theorem getClients_newest_first (s : MemStorage.t) :
  Permutation (MemStorage.getClients s) (JsMap.values (MemStorage.clients s))
  /\ StronglySorted (fun a b => Client.createdAt b <= Client.createdAt a)
       (MemStorage.getClients s)
  /\ Permutation (MemStorage.getEmailTemplates s)
       (JsMap.values (MemStorage.emailTemplates s))
  /\ StronglySorted (fun a b => EmailTemplate.createdAt b <= EmailTemplate.createdAt a)
       (MemStorage.getEmailTemplates s).
Proof.
  unfold MemStorage.getClients, MemStorage.getEmailTemplates.
  split; [apply sort_perm|]. split.
  - eapply StronglySorted_weaken; [|apply sort_sorted_le]. cbn. intros a b. lia.
  - split; [apply sort_perm|].
    eapply StronglySorted_weaken; [|apply sort_sorted_le]. cbn. intros a b. lia.
Qed.

(** X11. [getEmailLogsForClient] lists exactly the logs of the store that
    belong to the client, newest first: it is [getEmailLogs], which lists
    every log newest first, without the logs of other clients. *)
Theorem getEmailLogsForClient_selects (clientId : Z) (s : MemStorage.t) :
  (forall l,
     In l (MemStorage.getEmailLogsForClient clientId s)
     <-> In l (JsMap.values (MemStorage.emailLogs s)) /\ EmailLog.clientId l = clientId)
  /\ StronglySorted (fun a b => EmailLog.sentAt b <= EmailLog.sentAt a)
       (MemStorage.getEmailLogsForClient clientId s)
  /\ Permutation (MemStorage.getEmailLogs s) (JsMap.values (MemStorage.emailLogs s))
  /\ MemStorage.getEmailLogsForClient clientId s
     = List.filter (fun l => EmailLog.clientId l =? clientId) (MemStorage.getEmailLogs s).
Proof.
  unfold MemStorage.getEmailLogsForClient, MemStorage.getEmailLogs.
  split; [|split; [|split]].
  - intros l. split; intros H.
    + eapply Permutation_in in H; [|apply sort_perm].
      apply List.filter_In in H as [H E]. apply Z.eqb_eq in E. tauto.
    + eapply Permutation_in; [apply Permutation_sym, sort_perm|].
      apply List.filter_In. rewrite Z.eqb_eq. exact H.
  - eapply StronglySorted_weaken; [|apply sort_sorted_le]. cbn. intros a b. lia.
  - apply sort_perm.
  - symmetry. apply filter_sort.
Qed.

(** ** Logs and the dashboard counts *)

(** X12. [createEmailLog] appends the new log at the end of the store's
    logs, under the id of the log counter, which no log had, with the
    clock's reading as its sent time and no delivery or open time. Client,
    subject, status and language are the given ones. A template id or
    scheduled-email id that is absent or 0 is stored as [null], any other id
    as it is; an error message that is absent or empty is stored as
    [null]. *)
Theorem createEmailLog_appends (now : Z) (i : InsertEmailLog.t) (s : MemStorage.t) :
  wf_store s ->
  let l := fst (MemStorage.createEmailLog now i s) in
  let s' := snd (MemStorage.createEmailLog now i s) in
  MemStorage.emailLogs s' = MemStorage.emailLogs s ++ [(EmailLog.id l, l)]
  /\ JsMap.get (EmailLog.id l) (MemStorage.emailLogs s) = None
  /\ EmailLog.sentAt l = now
  /\ EmailLog.deliveredAt l = None /\ EmailLog.openedAt l = None
  /\ (EmailLog.templateId l = None
      <-> InsertEmailLog.templateId i = None \/ InsertEmailLog.templateId i = Some 0)
  /\ (forall n, n <> 0 -> InsertEmailLog.templateId i = Some n ->
        EmailLog.templateId l = Some n)
  /\ (forall n, n <> 0 -> InsertEmailLog.scheduledEmailId i = Some n ->
        EmailLog.scheduledEmailId l = Some n)
  /\ wf_store s'
  /\ (EmailLog.scheduledEmailId l = None
      <-> InsertEmailLog.scheduledEmailId i = None
          \/ InsertEmailLog.scheduledEmailId i = Some 0)
  /\ (EmailLog.errorMessage l = None
      <-> InsertEmailLog.errorMessage i = None
          \/ InsertEmailLog.errorMessage i = Some "")
  /\ (forall m, m <> "" -> InsertEmailLog.errorMessage i = Some m ->
        EmailLog.errorMessage l = Some m)
  /\ EmailLog.id l = MemStorage.currentLogId s
  /\ EmailLog.clientId l = InsertEmailLog.clientId i
  /\ EmailLog.subject l = InsertEmailLog.subject i
  /\ EmailLog.status l = InsertEmailLog.status i
  /\ EmailLog.language l = InsertEmailLog.language i
  /\ MemStorage.currentLogId s' = MemStorage.currentLogId s + 1.
Proof.
  intros Hwf l s'. cbn.
  pose proof (issued_fresh _ _ (wf_logs_issued _ Hwf)) as Hfresh.
  split; [apply set_fresh, Hfresh|]. split; [apply get_None_keys, Hfresh|].
  do 3 (split; [reflexivity|]).
  split; [|split; [|split; [|split; [|split; [|split; [|split]]]]]].
  - destruct (InsertEmailLog.templateId i) as [n|]; cbn; [|tauto].
    destruct (Z.eqb_spec n 0) as [->|Hn]; split; try tauto; try discriminate.
    intros [H|H]; [discriminate|congruence].
  - intros n Hn ->. cbn. destruct (Z.eqb_spec n 0); [contradiction|reflexivity].
  - intros n Hn ->. cbn. destruct (Z.eqb_spec n 0); [contradiction|reflexivity].
  - apply (wf_createEmailLog now i s Hwf).
  - destruct (InsertEmailLog.scheduledEmailId i) as [n|]; cbn; [|tauto].
    destruct (Z.eqb_spec n 0) as [->|Hn]; split; try tauto; try discriminate.
    intros [H|H]; [discriminate|congruence].
  - destruct (InsertEmailLog.errorMessage i) as [[|a m]|]; cbn; split;
      try tauto; try discriminate.
    intros [H|H]; discriminate.
  - intros m Hm ->. cbn. destruct m; [contradiction|reflexivity].
  - repeat split.
Qed.

(** A log for template 0 and scheduled email 4, then one for template 3 and
    scheduled email 0 with an error message. *)
Lemma createEmailLog_appends_witness :
  let i := InsertEmailLog.mk 1 (Some 0) (Some 4) "Hello" "sent" "en" None in
  let j := InsertEmailLog.mk 1 (Some 3) (Some 0) "Hello" "failed" "fr" (Some "bounced") in
  let l := fst (MemStorage.createEmailLog 7 i Example.base) in
  let k := fst (MemStorage.createEmailLog 7 j Example.base) in
  MemStorage.emailLogs (snd (MemStorage.createEmailLog 7 i Example.base)) = [(1, l)]
  /\ EmailLog.templateId l = None /\ EmailLog.scheduledEmailId l = Some 4
  /\ EmailLog.templateId k = Some 3 /\ EmailLog.scheduledEmailId k = None
  /\ EmailLog.errorMessage k = Some "bounced" /\ EmailLog.language k = "fr".
Proof.
  intros i j l k.
  destruct (createEmailLog_appends 7 i Example.base wf_base)
    as (Happ & _ & _ & _ & _ & Hnull & _ & Hsch & _).
  destruct (createEmailLog_appends 7 j Example.base wf_base)
    as (_ & _ & _ & _ & _ & _ & Htpl & _ & _ & Hnull' & _ & Herr & _ & _ & _ & _ & Hlang
        & _).
  split; [exact Happ|]. split; [apply Hnull; right; reflexivity|].
  split; [apply (Hsch 4); [discriminate|reflexivity]|].
  split; [apply (Htpl 3); [discriminate|reflexivity]|].
  split; [apply Hnull'; right; reflexivity|].
  split; [apply (Herr "bounced"); [discriminate|reflexivity]|exact Hlang].
Defined.

Lemma filter_length_le {A} (p q : A -> bool) (l : list A) :
  (forall x, p x = true -> q x = true) ->
  (length (List.filter p l) <= length (List.filter q l) <= length l)%nat.
Proof.
  intros Hpq. induction l as [|x l IH]; cbn; [lia|].
  destruct (p x) eqn:Ep.
  - rewrite (Hpq x Ep). cbn. lia.
  - destruct (q x); cbn; lia.
Qed.

(** X13. Of the counts of [getEmailStats], the opened emails are never
    more than the sent emails, and those never more than the logs; the
    pending sends are never more than the scheduled emails. So the open rate
    is a share of at most the whole. *)
Theorem getEmailStats_counts_bounded (s : MemStorage.t) :
  (MemStorage.openedEmails s <= MemStorage.emailsSent s)%nat
  /\ (MemStorage.emailsSent s <= JsMap.size (MemStorage.emailLogs s))%nat
  /\ (MemStorage.pendingSends s <= JsMap.size (MemStorage.scheduledEmails s))%nat
  /\ MemStorage.totalClients s = length (MemStorage.getClients s).
Proof.
  unfold MemStorage.openedEmails, MemStorage.emailsSent, MemStorage.pendingSends,
    MemStorage.totalClients, JsMap.size.
  assert (Hlen : forall V (m : JsMap.t V), length (JsMap.values m) = length m)
    by (intros; apply length_map).
  split; [|split; [|split]].
  - refine (proj1 (filter_length_le _ MemStorage.countsAsSent _ _)).
    intros x Hx. unfold MemStorage.countsAsSent. rewrite Hx. apply orb_true_r.
  - rewrite <- Hlen.
    exact (proj2 (filter_length_le MemStorage.countsAsSent MemStorage.countsAsSent
                    _ (fun _ H => H))).
  - rewrite <- Hlen.
    refine (proj2 (filter_length_le (fun _ => false) _ _ _)). discriminate.
  - rewrite <- Hlen. symmetry. apply Permutation_length.
    unfold MemStorage.getClients. apply sort_perm.
Qed.




(** ** Users *)

Lemma find_values_set_fresh (p : User.t -> bool) (k : Z) (v : User.t)
    (m : JsMap.t User.t) :
  ~ In k (JsMap.keys m) ->
  List.find p (JsMap.values (JsMap.set k v m))
  = match List.find p (JsMap.values m) with
    | Some x => Some x
    | None => if p v then Some v else None
    end.
Proof.
  intros Hk. rewrite set_fresh by exact Hk. rewrite values_snoc.
  induction (JsMap.values m) as [|x l IH]; cbn; [reflexivity|].
  destruct (p x); [reflexivity|exact IH].
Qed.

(** X15. [createUser] stores the new user under an id that no user had;
    [getUser] of that id gives the user back and every other id is as
    before. User names are not checked for uniqueness: [getUserByUsername]
    answers the user created first under the name, so it gives the new user
    only if the name was free, and [undefined] exactly when no stored user
    has the name. *)
Theorem createUser_and_lookup (i : InsertUser.t) (s : Users.t) :
  issued (Users.users s) (Users.currentUserId s) ->
  let u := fst (Users.createUser i s) in
  let s' := snd (Users.createUser i s) in
  Users.getUser (User.id u) s = None
  /\ Users.getUser (User.id u) s' = Some u
  /\ (forall k, k <> User.id u -> Users.getUser k s' = Users.getUser k s)
  /\ (forall x, Users.getUserByUsername (InsertUser.username i) s = Some x ->
        Users.getUserByUsername (InsertUser.username i) s' = Some x)
  /\ (Users.getUserByUsername (InsertUser.username i) s = None ->
      Users.getUserByUsername (InsertUser.username i) s' = Some u)
  /\ (forall name,
        Users.getUserByUsername name s = None
        <-> forall x, In x (JsMap.values (Users.users s)) -> User.username x <> name)
  /\ issued (Users.users s') (Users.currentUserId s').
Proof.
  intros Hi u s'. pose proof (issued_fresh _ _ Hi) as Hfresh.
  unfold s', u, Users.getUser, Users.getUserByUsername, Users.createUser.
  cbn [fst snd Users.users Users.currentUserId User.id User.username].
  split; [apply get_None_keys, Hfresh|]. split; [apply get_set_eq|].
  split; [intros k Hk; apply get_set_ne; congruence|].
  split; [|split; [|split]].
  - intros x Hx. rewrite find_values_set_fresh by exact Hfresh. rewrite Hx. reflexivity.
  - intros Hx. rewrite find_values_set_fresh by exact Hfresh. rewrite Hx. cbn.
    rewrite String.eqb_refl. reflexivity.
  - intros name. split.
    + intros Hnone x Hin E.
      pose proof (List.find_none _ _ Hnone x Hin) as H. cbn in H.
      apply String.eqb_neq in H. contradiction.
    + intros Hall. destruct (List.find _ _) as [x|] eqn:E; [|reflexivity].
      apply List.find_some in E as [Hin E]. apply String.eqb_eq in E.
      exfalso. exact (Hall x Hin E).
  - apply issued_set_next, Hi.
Qed.

Lemma createUser_and_lookup_witness :
  let s1 := snd (Users.createUser (InsertUser.mk "ann" "pw1") Users.new) in
  let s2 := snd (Users.createUser (InsertUser.mk "ann" "pw2") s1) in
  Users.getUserByUsername "ann" s2 = Some (User.mk 1 "ann" "pw1")
  /\ Users.getUser 2 s2 = Some (User.mk 2 "ann" "pw2").
Proof.
  intros s1 s2.
  assert (H0 : issued (Users.users Users.new) (Users.currentUserId Users.new))
    by (apply issued_nil; cbn; lia).
  destruct (createUser_and_lookup (InsertUser.mk "ann" "pw1") Users.new H0)
    as (_ & _ & _ & _ & Hfirst & _ & H1).
  destruct (createUser_and_lookup (InsertUser.mk "ann" "pw2") s1 H1)
    as (_ & Hget & _ & Hkeep & _).
  split; [|exact Hget]. apply Hkeep. apply Hfirst. reflexivity.
Defined.

(** ** The timer of the scheduler *)

Lemma filter_all {A} (p : A -> bool) (l : list A) :
  Forall (fun x => p x = true) l -> List.filter p l = l.
Proof.
  induction 1 as [|x l Hx Hl IH]; cbn; [reflexivity|]. rewrite Hx, IH. reflexivity.
Qed.

(** X16. [start] on a running scheduler does nothing, so starting twice
    registers one timer, of 60000 milliseconds, and not two. [stop] on a
    stopped scheduler does nothing, and [stop] after [start] leaves the
    timers of the process exactly as they were before the start. *)
Theorem start_stop_idempotent (r : EmailScheduler.Loop) :
  EmailScheduler.start (EmailScheduler.start r) = EmailScheduler.start r
  /\ EmailScheduler.stop (EmailScheduler.stop r) = EmailScheduler.stop r
  /\ EmailScheduler.intervalId (EmailScheduler.start r) <> None
  /\ EmailScheduler.intervalId (EmailScheduler.stop r) = None
  /\ (EmailScheduler.intervalId r = None ->
      EmailScheduler.timers (EmailScheduler.start r)
      = EmailScheduler.timers r ++ [(EmailScheduler.nextTimer r, 60000)])
  /\ (EmailScheduler.intervalId r = None -> timersIssued r ->
      EmailScheduler.timers (EmailScheduler.stop (EmailScheduler.start r))
      = EmailScheduler.timers r).
Proof.
  unfold EmailScheduler.start, EmailScheduler.stop.
  destruct r as [[h|] ts next]; cbn.
  - repeat split; try discriminate.
  - repeat split; try discriminate.
    intros _ [Hts _]. cbn in Hts.
    rewrite List.filter_app. cbn. rewrite Z.eqb_refl. cbn. rewrite app_nil_r.
    apply filter_all. eapply List.Forall_impl; [|exact Hts].
    cbn. intros t Ht. destruct (Z.eqb_spec t.1 next); [lia|reflexivity].
Qed.

Lemma start_stop_idempotent_witness :
  let r := EmailScheduler.mkLoop None [(1, 5000)] 2 in
  EmailScheduler.timers (EmailScheduler.start (EmailScheduler.start r))
  = [(1, 5000); (2, 60000)]
  /\ EmailScheduler.timers (EmailScheduler.stop (EmailScheduler.start r)) = [(1, 5000)].
Proof.
  intros r. destruct (start_stop_idempotent r) as (Hss & _ & _ & _ & Hstart & Hstop).
  split.
  - rewrite Hss. apply Hstart. reflexivity.
  - apply Hstop; [reflexivity|]. split; [|exact I].
    constructor; [cbn; lia|constructor].
Defined.

(** ** Dispatch, tick and store together *)

Section SchedulerFacts.
Variable toLocaleDateString : Z -> string.
Variable personalizeContent : Js.value -> gmap string string -> outcome string.
Variable sendEmail : list EmailParams -> EmailParams -> outcome bool.

Local Abbreviation send :=
  (EmailScheduler.sendScheduledEmail toLocaleDateString personalizeContent sendEmail).
Local Abbreviation tick :=
  (EmailScheduler.processPendingEmails toLocaleDateString personalizeContent sendEmail).
Local Abbreviation accepted :=
  (accepted toLocaleDateString personalizeContent sendEmail).
Local Abbreviation send_outcome :=
  (send_outcome toLocaleDateString personalizeContent sendEmail).

Implicit Types (e : ScheduledEmail.t) (c : Client.t) (t : EmailTemplate.t)
  (w : World) (now : Z).

Lemma scheduledEmails_after_log_and_usage now (i : InsertEmailLog.t) (tid : Z)
    (s : MemStorage.t) :
  MemStorage.scheduledEmails
    (MemStorage.incrementTemplateUsage tid (snd (MemStorage.createEmailLog now i s)))
  = MemStorage.scheduledEmails s.
Proof.
  unfold MemStorage.incrementTemplateUsage.
  destruct (JsMap.get tid _); reflexivity.
Qed.

(** X17. A dispatch of a stored record always leaves it [sent] or [failed]:
    [sent] exactly when client and template resolve, subject and content
    resolve to something that is not the empty text, the renderer returns
    for both and the transport answers [true]; in every other case [failed],
    with an error message. *)
Theorem sendScheduledEmail_sent_iff_accepted now e e0 w :
  MemStorage.getScheduledEmail (ScheduledEmail.id e) (storage w) = Some e0 ->
  exists e',
    MemStorage.getScheduledEmail (ScheduledEmail.id e) (storage (snd (send now e w)))
    = Some e'
    /\ (ScheduledEmail.status e' = "sent" <-> accepted e w)
    /\ (ScheduledEmail.status e' = "failed" <-> ~ accepted e w)
    /\ (~ accepted e w -> ScheduledEmail.errorMessage e' <> None).
Proof.
  intros He0.
  destruct (send_outcome now e w)
    as [(Hno & msg & out & Hsend & _)
       |(c & t & ps & pc & Hc & Ht & Hs & Hn & Hps & Hpc & Hr & Hsend)];
    rewrite Hsend; cbn [snd storage].
  - rewrite (updateScheduledEmail_present _ _ _ _ He0).
    unfold MemStorage.getScheduledEmail. cbn. rewrite get_set_eq.
    eexists. split; [reflexivity|]. cbn. split; [|split].
    + split; [discriminate|contradiction].
    + tauto.
    + discriminate.
  - assert (Hacc : accepted e w) by (exists c, t, ps, pc; auto 10).
    unfold MemStorage.getScheduledEmail. rewrite scheduledEmails_after_log_and_usage.
    rewrite (updateScheduledEmail_present _ _ _ _ He0). cbn. rewrite get_set_eq.
    eexists. split; [reflexivity|]. cbn. split; [|split].
    + tauto.
    + split; [discriminate|contradiction].
    + contradiction.
Qed.

(** X18. A dispatch that the transport does not accept changes nothing but
    the record's status and error message: the clients, the templates with
    their usage counts, the logs and the counters are as before, and the
    transport was called at most once. A record that is no longer stored is
    not brought back. *)
Theorem sendScheduledEmail_failure_only_marks_record now e w :
  ~ accepted e w ->
  let s := storage w in
  let s' := storage (snd (send now e w)) in
  MemStorage.clients s' = MemStorage.clients s
  /\ MemStorage.emailTemplates s' = MemStorage.emailTemplates s
  /\ MemStorage.emailLogs s' = MemStorage.emailLogs s
  /\ MemStorage.currentLogId s' = MemStorage.currentLogId s
  /\ (forall k, k <> ScheduledEmail.id e ->
        MemStorage.getScheduledEmail k s' = MemStorage.getScheduledEmail k s)
  /\ (forall e0, MemStorage.getScheduledEmail (ScheduledEmail.id e) s = Some e0 ->
        exists msg,
          MemStorage.getScheduledEmail (ScheduledEmail.id e) s'
          = Some (Dispatch.failed e0 msg))
  /\ (MemStorage.getScheduledEmail (ScheduledEmail.id e) s = None -> s' = s)
  /\ (length (outbox (snd (send now e w))) <= S (length (outbox w)))%nat.
Proof.
  intros Hno s s'.
  destruct (send_outcome now e w)
    as [(_ & msg & out & Hsend & Hout)
       |(c & t & ps & pc & Hc & Ht & Hs & Hn & Hps & Hpc & Hr & _)].
  2:{ exfalso. apply Hno. exists c, t, ps, pc. auto 10. }
  unfold s', s. rewrite Hsend. cbn [snd storage outbox].
  unfold MemStorage.getScheduledEmail, MemStorage.updateScheduledEmail.
  destruct (JsMap.get (ScheduledEmail.id e) (MemStorage.scheduledEmails (storage w)))
    as [e0|] eqn:E; cbn.
  - do 4 (split; [reflexivity|]).
    split; [intros k Hk; apply get_set_ne; congruence|].
    split; [intros e1 [= <-]; exists msg; apply get_set_eq|].
    split; [discriminate|].
    destruct Hout as [->|[m ->]]; [lia|rewrite length_app; cbn; lia].
  - do 5 (split; [reflexivity|]). split; [discriminate|]. split; [reflexivity|].
    destruct Hout as [->|[m ->]]; [lia|rewrite length_app; cbn; lia].
Qed.

(** X19. The status update of a record that is not in the store is lost
    without notice, and nothing else depends on it: a dispatch of a record
    that is no longer stored, but whose message the transport accepts, still
    calls the transport, writes one log entry and counts the usage, and
    leaves the scheduled emails as they are. *)
Theorem sendScheduledEmail_of_missing_record now e w :
  wf_store (storage w) ->
  MemStorage.getScheduledEmail (ScheduledEmail.id e) (storage w) = None ->
  accepted e w ->
  let s := storage w in
  let s' := storage (snd (send now e w)) in
  MemStorage.scheduledEmails s' = MemStorage.scheduledEmails s
  /\ length (MemStorage.emailLogs s') = S (length (MemStorage.emailLogs s))
  /\ (exists m, outbox (snd (send now e w)) = outbox w ++ [m])
  /\ exists t,
       MemStorage.getEmailTemplate (ScheduledEmail.templateId e) s = Some t
       /\ option_map EmailTemplate.usageCount
            (MemStorage.getEmailTemplate (EmailTemplate.id t) s')
          = Some (Some (default 0 (EmailTemplate.usageCount t) + 1)).
Proof.
  intros Hwf Hnone Hacc s s'.
  destruct (send_outcome now e w)
    as [(Hno & _)|(c & t & ps & pc & Hc & Ht & Hs & Hn & Hps & Hpc & Hr & Hsend)];
    [contradiction|].
  unfold s', s. rewrite Hsend. cbn [snd storage outbox].
  assert (Hupd : MemStorage.updateScheduledEmail (ScheduledEmail.id e)
                   (PartialScheduledEmail.success "sent" now ps pc) (storage w)
                 = (None, storage w)).
  { unfold MemStorage.getScheduledEmail in Hnone.
    unfold MemStorage.updateScheduledEmail. rewrite Hnone. reflexivity. }
  rewrite Hupd. cbn [snd].
  assert (Etid : EmailTemplate.id t = ScheduledEmail.templateId e)
    by (eapply keyed_get; [apply (wf_templates _ Hwf)|exact Ht]).
  split; [apply scheduledEmails_after_log_and_usage|].
  split.
  - rewrite emailLogs_incrementTemplateUsage. cbn.
    rewrite set_fresh by apply (issued_fresh _ _ (wf_logs_issued _ Hwf)).
    rewrite length_app. cbn. lia.
  - split; [eexists; reflexivity|]. exists t. split; [exact Ht|].
    rewrite Etid. erewrite incrementTemplateUsage_present by exact Ht.
    unfold MemStorage.getEmailTemplate. cbn. rewrite get_set_eq. reflexivity.
Qed.

(** X20. On the dashboard, a dispatch of a stored pending record that the
    transport accepts moves one email from the pending sends to the sent
    emails, and leaves the number of clients as it is. *)
Theorem sendScheduledEmail_moves_dashboard_counts now e w :
  wf_store (storage w) ->
  MemStorage.getScheduledEmail (ScheduledEmail.id e) (storage w) = Some e ->
  ScheduledEmail.status e = "pending" ->
  accepted e w ->
  let s := storage w in
  let s' := storage (snd (send now e w)) in
  MemStorage.emailsSent s' = S (MemStorage.emailsSent s)
  /\ S (MemStorage.pendingSends s') = MemStorage.pendingSends s
  /\ MemStorage.openedEmails s' = MemStorage.openedEmails s
  /\ MemStorage.totalClients s' = MemStorage.totalClients s.
Proof.
  intros Hwf He Hp Hacc s s'.
  destruct (send_outcome now e w)
    as [(Hno & _)|(c & t & ps & pc & Hc & Ht & Hs & Hn & Hps & Hpc & Hr & Hsend)];
    [contradiction|].
  unfold s', s. rewrite Hsend. cbn [snd storage outbox].
  rewrite (updateScheduledEmail_present _ _ _ _ He). cbn [snd].
  pose proof (issued_fresh _ _ (wf_logs_issued _ Hwf)) as Hfresh.
  pose proof (issued_NoDup _ _ (wf_scheduled_issued _ Hwf)) as Hnd.
  unfold MemStorage.emailsSent, MemStorage.openedEmails, MemStorage.pendingSends,
    MemStorage.totalClients.
  rewrite emailLogs_incrementTemplateUsage, scheduledEmails_after_log_and_usage.
  assert (Hcl : forall tid s0,
             MemStorage.clients (MemStorage.incrementTemplateUsage tid s0)
             = MemStorage.clients s0).
  { intros tid s0. unfold MemStorage.incrementTemplateUsage.
    destruct (JsMap.get tid _); reflexivity. }
  rewrite Hcl. cbn.
  rewrite set_fresh by exact Hfresh. rewrite map_app. cbn [map snd].
  rewrite !filter_length_snoc. cbn. unfold JsMap.values.
  split; [lia|]. split; [|split; [lia|reflexivity]].
  pose proof (count_set_present
                (fun email => String.eqb (ScheduledEmail.status email) "pending")
                (ScheduledEmail.id e)
                (MemStorage.merge e
                   (PartialScheduledEmail.success "sent" now ps pc))
                e _ Hnd He) as H.
  cbn in H. rewrite Hp in H. cbn in H. unfold JsMap.values in *. lia.
Qed.

(** *** The tick as a whole *)

Lemma get_is_Some_keys {V} (k : Z) (m : JsMap.t V) :
  is_Some (JsMap.get k m) <-> In k (JsMap.keys m).
Proof.
  pose proof (get_None_keys k m) as H.
  destruct (JsMap.get k m) as [v|] eqn:E.
  - split; [intros _|eauto].
    destruct (in_dec Z.eq_dec k (JsMap.keys m)) as [Hin|Hin]; [exact Hin|].
    apply H in Hin. discriminate.
  - split; [intros [v Hv]; discriminate|]. intros Hin.
    exfalso. apply (proj1 H eq_refl), Hin.
Qed.

Lemma send_settles now e e0 w :
  MemStorage.getScheduledEmail (ScheduledEmail.id e) (storage w) = Some e0 ->
  exists e',
    MemStorage.getScheduledEmail (ScheduledEmail.id e) (storage (snd (send now e w)))
    = Some e' /\ settled e'.
Proof.
  intros He0.
  destruct (send_outcome now e w)
    as [(Hno & msg & out & Hsend & _)
       |(c & t & ps & pc & Hc & Ht & Hs & Hn & Hps & Hpc & Hr & Hsend)];
    rewrite Hsend; cbn [snd storage]; unfold MemStorage.getScheduledEmail.
  - rewrite (updateScheduledEmail_present _ _ _ _ He0). cbn. rewrite get_set_eq.
    eexists. split; [reflexivity|]. right. reflexivity.
  - rewrite scheduledEmails_after_log_and_usage.
    rewrite (updateScheduledEmail_present _ _ _ _ He0). cbn. rewrite get_set_eq.
    eexists. split; [reflexivity|]. left. reflexivity.
Qed.

Lemma for_of_settles now (l : list ScheduledEmail.t) :
  forall w,
    List.NoDup (map ScheduledEmail.id l) ->
    (forall e, In e l ->
       is_Some (MemStorage.getScheduledEmail (ScheduledEmail.id e) (storage w))) ->
    forall e, In e l ->
      exists e',
        MemStorage.getScheduledEmail (ScheduledEmail.id e)
          (storage (snd (for_of l (send now) w))) = Some e'
        /\ settled e'.
Proof.
  induction l as [|x l IH]; intros w Hnd Hall e Hin; [destruct Hin|].
  cbn in Hnd. apply List.NoDup_cons_iff in Hnd as [Hx Hnd].
  rewrite for_of_cons.
  destruct (send_frame toLocaleDateString personalizeContent sendEmail now x w)
    as [[_ _ Hsch Hkeys] _].
  destruct Hin as [->|Hin].
  - destruct (Hall e (or_introl eq_refl)) as [e0 He0].
    destruct (send_settles now e e0 w He0) as (e' & He' & Hset).
    exists e'. split; [|exact Hset].
    destruct (for_of_frame toLocaleDateString personalizeContent sendEmail
                now l (snd (send now e w))) as [[_ _ Hsch' _] _].
    unfold MemStorage.getScheduledEmail in *. rewrite Hsch' by exact Hx. exact He'.
  - apply IH; [exact Hnd| |exact Hin].
    intros y Hy. unfold MemStorage.getScheduledEmail.
    apply get_is_Some_keys. rewrite Hkeys. apply get_is_Some_keys.
    apply (Hall y). right. exact Hy.
Qed.

(** X21. After a tick on a well-formed store every record that was due is
    [sent] or [failed]; no record is due any more at that clock reading, so
    a second tick at the same reading changes nothing and sends nothing. *)
Theorem tick_settles_every_due_record now w :
  wf_store (storage w) ->
  let w' := snd (tick now w) in
  (forall e, In e (MemStorage.getPendingScheduledEmails now (storage w)) ->
     exists e',
       MemStorage.getScheduledEmail (ScheduledEmail.id e) (storage w') = Some e'
       /\ settled e')
  /\ MemStorage.getPendingScheduledEmails now (storage w') = []
  /\ snd (tick now w') = w'.
Proof.
  intros Hwf w'.
  pose proof (tick_wf toLocaleDateString personalizeContent sendEmail now w Hwf) as Hwf'.
  fold w' in Hwf'. unfold w' in *. rewrite tick_for_of in *. cbn [snd] in *.
  set (due := MemStorage.getPendingScheduledEmails now (storage w)) in *.
  set (w1 := snd (for_of due (send now) w)) in *.
  assert (Hset : forall e, In e due ->
            exists e', MemStorage.getScheduledEmail (ScheduledEmail.id e) (storage w1)
                       = Some e' /\ settled e').
  { apply for_of_settles; [apply due_ids_NoDup, Hwf|].
    intros e Hin. destruct (due_get now _ e Hwf Hin) as [He _]. rewrite He. eauto. }
  assert (Hempty : MemStorage.getPendingScheduledEmails now (storage w1) = []).
  { destruct (MemStorage.getPendingScheduledEmails now (storage w1)) as [|x l] eqn:E;
      [reflexivity|exfalso].
    assert (Hx : In x (MemStorage.getPendingScheduledEmails now (storage w1)))
      by (rewrite E; left; reflexivity).
    destruct (due_get now _ x Hwf' Hx) as [Hget Hp].
    apply In_getPendingScheduledEmails in Hx as (_ & _ & Hdue).
    destruct (in_dec Z.eq_dec (ScheduledEmail.id x) (map ScheduledEmail.id due))
      as [Hin|Hin].
    - apply in_map_iff in Hin as (e & Eid & Hin).
      destruct (Hset e Hin) as (e' & He' & [Hs|Hs]); rewrite Eid, Hget in He';
        injection He' as <-; rewrite Hp in Hs; discriminate.
    - destruct (for_of_frame toLocaleDateString personalizeContent sendEmail
                  now due w) as [[_ _ Hsch _] _].
      fold w1 in Hsch. unfold MemStorage.getScheduledEmail in Hget.
      rewrite (Hsch _ Hin) in Hget. apply Hin.
      apply in_map. apply In_getPendingScheduledEmails.
      split; [|split; assumption].
      apply get_Some_In in Hget. apply (in_map snd) in Hget. exact Hget. }
  split; [exact Hset|]. split; [exact Hempty|].
  rewrite tick_for_of. cbn [snd]. rewrite Hempty. reflexivity.
Qed.

Lemma send_counter now e w :
  MemStorage.currentScheduledEmailId (storage (snd (send now e w)))
  = MemStorage.currentScheduledEmailId (storage w).
Proof.
  destruct (send_outcome now e w)
    as [(_ & msg & out & Hsend & _)
       |(c & t & ps & pc & _ & _ & _ & _ & _ & _ & _ & Hsend)];
    rewrite Hsend; cbn [snd storage]; unfold MemStorage.updateScheduledEmail,
      MemStorage.incrementTemplateUsage;
    repeat match goal with |- context [JsMap.get ?k ?m] => destruct (JsMap.get k m) end;
    reflexivity.
Qed.

Lemma for_of_counter now (l : list ScheduledEmail.t) w :
  MemStorage.currentScheduledEmailId (storage (snd (for_of l (send now) w)))
  = MemStorage.currentScheduledEmailId (storage w).
Proof.
  revert w. induction l as [|e l IH]; intros w; [reflexivity|].
  rewrite for_of_cons, IH. apply send_counter.
Qed.

(** X22. A tick keeps the store well formed. It adds and removes no
    scheduled email, touches no client, and changes templates in their usage
    counts only. *)
Theorem tick_keeps_store_shape now w :
  wf_store (storage w) ->
  let s := storage w in
  let s' := storage (snd (tick now w)) in
  wf_store s'
  /\ MemStorage.clients s' = MemStorage.clients s
  /\ JsMap.keys (MemStorage.scheduledEmails s') = JsMap.keys (MemStorage.scheduledEmails s)
  /\ eraseUsage (MemStorage.emailTemplates s') = eraseUsage (MemStorage.emailTemplates s)
  /\ MemStorage.currentScheduledEmailId s' = MemStorage.currentScheduledEmailId s.
Proof.
  intros Hwf s s'. split; [apply tick_wf, Hwf|].
  unfold s', s. rewrite tick_for_of. cbn [snd].
  destruct (for_of_frame toLocaleDateString personalizeContent sendEmail now
              (MemStorage.getPendingScheduledEmails now (storage w)) w)
    as [[Hc Ht _ Hk] _].
  split; [exact Hc|]. split; [exact Hk|]. split; [exact Ht|].
  apply for_of_counter.
Qed.

(** X23. A stored record whose status is set to anything but [pending],
    [cancelled] for one, is in no due set afterwards, and a tick leaves it
    exactly as the update left it. *)
Theorem updated_status_is_skipped now (id : Z) (st : string) e w :
  wf_store (storage w) ->
  MemStorage.getScheduledEmail id (storage w) = Some e ->
  st <> "pending" ->
  let s1 := snd (MemStorage.updateScheduledEmail id (statusUpdate st) (storage w)) in
  let w' := snd (tick now (mkWorld s1 (outbox w))) in
  MemStorage.getScheduledEmail id s1 = Some (MemStorage.merge e (statusUpdate st))
  /\ ScheduledEmail.status (MemStorage.merge e (statusUpdate st)) = st
  /\ (forall x, In x (MemStorage.getPendingScheduledEmails now s1) ->
        ScheduledEmail.id x <> id)
  /\ MemStorage.getScheduledEmail id (storage w')
     = Some (MemStorage.merge e (statusUpdate st)).
Proof.
  intros Hwf He Hst s1 w'.
  assert (Hwf1 : wf_store s1) by (apply wf_updateScheduledEmail; [reflexivity|exact Hwf]).
  assert (H1 : MemStorage.getScheduledEmail id s1
               = Some (MemStorage.merge e (statusUpdate st))).
  { unfold s1. rewrite (updateScheduledEmail_present _ _ _ _ He).
    unfold MemStorage.getScheduledEmail. cbn. apply get_set_eq. }
  assert (Hskip : forall x, In x (MemStorage.getPendingScheduledEmails now s1) ->
                    ScheduledEmail.id x <> id).
  { intros x Hx Eid. destruct (due_get now s1 x Hwf1 Hx) as [Hget Hp].
    rewrite Eid, H1 in Hget. injection Hget as <-. cbn in Hp. contradiction. }
  split; [exact H1|]. split; [reflexivity|]. split; [exact Hskip|].
  unfold w'. rewrite tick_for_of. cbn [snd storage].
  destruct (for_of_frame toLocaleDateString personalizeContent sendEmail now
              (MemStorage.getPendingScheduledEmails now s1) (mkWorld s1 (outbox w)))
    as [[_ _ Hsch _] _].
  unfold MemStorage.getScheduledEmail in *. cbn [storage] in Hsch.
  rewrite Hsch; [exact H1|].
  intros Hin. apply in_map_iff in Hin as (x & Eid & Hx). exact (Hskip x Hx Eid).
Qed.

(** X24. Deleting a client or a template does not touch the scheduled
    emails that refer to it. A later dispatch of such a record calls no
    transport and leaves the record [failed] with [Client or template not
    found]. *)
Theorem dispatch_after_delete_fails now e w :
  wf_store (storage w) ->
  MemStorage.getScheduledEmail (ScheduledEmail.id e) (storage w) = Some e ->
  forall s1,
    s1 = snd (MemStorage.deleteClient (ScheduledEmail.clientId e) (storage w))
    \/ s1 = snd (MemStorage.deleteEmailTemplate (ScheduledEmail.templateId e) (storage w)) ->
    let w' := snd (send now e (mkWorld s1 (outbox w))) in
    MemStorage.scheduledEmails s1 = MemStorage.scheduledEmails (storage w)
    /\ MemStorage.getScheduledEmail (ScheduledEmail.id e) (storage w')
       = Some (Dispatch.failed e "Client or template not found")
    /\ outbox w' = outbox w
    /\ MemStorage.emailLogs (storage w') = MemStorage.emailLogs (storage w).
Proof.
  intros Hwf He s1 Hs1 w'.
  assert (Hsch : MemStorage.scheduledEmails s1 = MemStorage.scheduledEmails (storage w))
    by (destruct Hs1 as [->| ->]; reflexivity).
  assert (Hlogs : MemStorage.emailLogs s1 = MemStorage.emailLogs (storage w))
    by (destruct Hs1 as [->| ->]; reflexivity).
  assert (Hmiss : MemStorage.getClient (ScheduledEmail.clientId e) s1 = None
                  \/ MemStorage.getEmailTemplate (ScheduledEmail.templateId e) s1 = None).
  { destruct Hs1 as [->| ->]; [left|right].
    - unfold MemStorage.getClient. cbn.
      apply get_delete_eq, (issued_NoDup _ _ (wf_clients_issued _ Hwf)).
    - unfold MemStorage.getEmailTemplate. cbn.
      apply get_delete_eq, (issued_NoDup _ _ (wf_templates_issued _ Hwf)). }
  assert (He1 : MemStorage.getScheduledEmail (ScheduledEmail.id e) s1 = Some e)
    by (unfold MemStorage.getScheduledEmail in *; rewrite Hsch; exact He).
  split; [exact Hsch|]. unfold w'.
  rewrite send_not_found by exact Hmiss. cbn [snd storage outbox].
  rewrite (updateScheduledEmail_present _ _ _ _ He1). cbn.
  split; [unfold MemStorage.getScheduledEmail; cbn; apply get_set_eq|].
  split; [reflexivity|exact Hlogs].
Qed.

End SchedulerFacts.

(** ** Scheduling and unscheduling *)

Lemma wf_deleteScheduledEmail (id : Z) (s : MemStorage.t) :
  wf_store s -> wf_store (snd (MemStorage.deleteScheduledEmail id s)).
Proof.
  intros [H1 H2 H3 H4 H5 H6 H7]. constructor; cbn; try assumption.
  - apply keyed_delete, H5.
  - apply issued_delete, H6.
Qed.

Lemma In_values_delete {V} (k : Z) (v : V) (m : JsMap.t V) :
  In v (JsMap.values (JsMap.delete k m)) -> In v (JsMap.values m).
Proof.
  intros H. apply in_map_iff in H as ([k' v'] & E & H). cbn in E. subst v'.
  apply In_delete in H. apply (in_map snd) in H. exact H.
Qed.

(** X25. [deleteScheduledEmail] answers [true] exactly when the id was
    stored. Afterwards the id is not found, every other record is as before,
    and the due set of any clock reading is the one from before the delete
    without the deleted record: nothing becomes due by a delete, and the
    deleted record is never dispatched. *)
Theorem deleteScheduledEmail_removes (id : Z) (s : MemStorage.t) :
  wf_store s ->
  let s' := snd (MemStorage.deleteScheduledEmail id s) in
  (fst (MemStorage.deleteScheduledEmail id s) = true
   <-> is_Some (MemStorage.getScheduledEmail id s))
  /\ MemStorage.getScheduledEmail id s' = None
  /\ (forall k, k <> id ->
        MemStorage.getScheduledEmail k s' = MemStorage.getScheduledEmail k s)
  /\ (forall now x,
        In x (MemStorage.getPendingScheduledEmails now s')
        <-> In x (MemStorage.getPendingScheduledEmails now s) /\ ScheduledEmail.id x <> id)
  /\ wf_store s'.
Proof.
  intros Hwf s'.
  pose proof (wf_deleteScheduledEmail id s Hwf) as Hwf'. fold s' in Hwf'.
  pose proof (issued_NoDup _ _ (wf_scheduled_issued _ Hwf)) as Hnd.
  assert (Hgone : MemStorage.getScheduledEmail id s' = None)
    by (unfold MemStorage.getScheduledEmail; cbn; apply get_delete_eq, Hnd).
  assert (Hother : forall k, k <> id ->
            MemStorage.getScheduledEmail k s' = MemStorage.getScheduledEmail k s).
  { intros k Hk. unfold MemStorage.getScheduledEmail. cbn.
    apply get_delete_ne. congruence. }
  split; [apply bool_decide_eq_true|]. split; [exact Hgone|]. split; [exact Hother|].
  split; [|exact Hwf'].
  intros now x. rewrite !In_getPendingScheduledEmails. split.
  - intros (Hin & Hp & Hd).
    assert (Hx : MemStorage.getScheduledEmail (ScheduledEmail.id x) s' = Some x)
      by (apply stored_value_get; assumption).
    split; [|intros E; rewrite E, Hgone in Hx; discriminate].
    split; [|tauto]. eapply In_values_delete, Hin.
  - intros ((Hin & Hp & Hd) & Hne). split; [|tauto].
    pose proof (stored_value_get s x Hwf Hin) as Hx.
    rewrite <- (Hother _ Hne) in Hx. unfold MemStorage.getScheduledEmail in Hx.
    apply get_Some_In in Hx. apply (in_map snd) in Hx. exact Hx.
Qed.

Lemma deleteScheduledEmail_removes_witness :
  fst (MemStorage.deleteScheduledEmail 1 Example.scheduled2) = true
  /\ MemStorage.getScheduledEmail 1
       (snd (MemStorage.deleteScheduledEmail 1 Example.scheduled2)) = None
  /\ MemStorage.getPendingScheduledEmails Example.T2
       (snd (MemStorage.deleteScheduledEmail 1 Example.scheduled2))
     = [Example.emailAcme2].
Proof.
  destruct (deleteScheduledEmail_removes 1 Example.scheduled2 wf_scheduled2)
    as (Hret & Hgone & _).
  split; [apply Hret; eexists; reflexivity|]. split; [exact Hgone|reflexivity].
Defined.

Lemma scheduleEmail_due (zone : JsDate.Zone) (now clientId templateId : Z)
    (delay : Delay) (language : option string) (s : MemStorage.t) (now' : Z) :
  let e := fst (EmailScheduler.scheduleEmail zone now clientId templateId delay language s) in
  let s' := snd (EmailScheduler.scheduleEmail zone now clientId templateId delay language s) in
  ScheduledEmail.scheduledFor e <= now' ->
  In e (MemStorage.getPendingScheduledEmails now' s').
Proof.
  intros e s' Hle. apply In_getPendingScheduledEmails.
  split; [|split; [reflexivity|exact Hle]].
  unfold s', e. cbn.
  match goal with
  | |- In ?v (map snd (JsMap.set ?k ?v ?m)) =>
      exact (in_map snd _ (k, v) (In_set_self k v m))
  end.
Qed.

(** X26. In a time zone at a fixed offset from UTC, a record made by
    [scheduleEmail] is not due at the clock reading it was scheduled at,
    whatever the delay, so the tick of that instant does not dispatch it. In
    every zone it is due, as long as nothing changes it, at every clock
    reading from its due time on. With daylight saving the first part fails:
    in New York, a record scheduled with delay [immediate] at 06:30 UTC on
    5 November 2023 is due at once. *)
Theorem scheduleEmail_due_window (tza now clientId templateId : Z) (delay : Delay)
    (language : option string) (s : MemStorage.t) :
  let schedule zone now delay :=
    EmailScheduler.scheduleEmail zone now clientId templateId delay language s in
  let fixed := JsDate.fixed tza in
  ScheduledEmail.scheduledFor (fst (schedule fixed now delay))
  = EmailScheduler.scheduledFor fixed delay now
  /\ (forall now', now' <= now ->
        ~ In (fst (schedule fixed now delay))
            (MemStorage.getPendingScheduledEmails now' (snd (schedule fixed now delay))))
  /\ (forall zone now',
        ScheduledEmail.scheduledFor (fst (schedule zone now delay)) <= now' ->
        In (fst (schedule zone now delay))
          (MemStorage.getPendingScheduledEmails now' (snd (schedule zone now delay))))
  /\ In (fst (schedule Example.newYork 1699165800000 Immediate))
       (MemStorage.getPendingScheduledEmails 1699165800000
          (snd (schedule Example.newYork 1699165800000 Immediate))).
Proof.
  intros schedule fixed. pose proof (scheduledFor_gt tza delay now) as Hgt.
  split; [reflexivity|]. split; [|split].
  - intros now' Hle Hin. apply In_getPendingScheduledEmails in Hin as (_ & _ & Hd).
    cbn in Hd. fold fixed in Hgt. lia.
  - intros zone now'. apply scheduleEmail_due.
  - apply scheduleEmail_due. vm_compute. discriminate.
Qed.

Lemma scheduleEmail_due_window_witness :
  MemStorage.getPendingScheduledEmails Example.T0 Example.scheduled1 = []
  /\ In Example.email1
       (MemStorage.getPendingScheduledEmails (Example.T0 + 60000) Example.scheduled1).
Proof.
  destruct (scheduleEmail_due_window 0 Example.T0 1 1 Immediate None Example.base)
    as (_ & _ & Hdue & _).
  split; [reflexivity|]. apply (Hdue Example.utc). vm_compute. discriminate.
Defined.

(** X27. [scheduleEmail] does not look at the clients or the templates: it
    makes a record for any pair of ids. On a well-formed store the record
    gets an id that no record had, every other record is as before, and
    clients, templates and logs are untouched. The record's language is the
    one given, or [en] when none or the empty string is given. *)
Theorem scheduleEmail_adds_one_record (zone : JsDate.Zone)
    (now clientId templateId : Z) (delay : Delay)
    (language : option string) (s : MemStorage.t) :
  wf_store s ->
  let e := fst (EmailScheduler.scheduleEmail zone now clientId templateId delay language s) in
  let s' := snd (EmailScheduler.scheduleEmail zone now clientId templateId delay language s) in
  MemStorage.getScheduledEmail (ScheduledEmail.id e) s = None
  /\ MemStorage.getScheduledEmail (ScheduledEmail.id e) s' = Some e
  /\ (forall k, k <> ScheduledEmail.id e ->
        MemStorage.getScheduledEmail k s' = MemStorage.getScheduledEmail k s)
  /\ MemStorage.scheduledEmails s' = MemStorage.scheduledEmails s ++ [(ScheduledEmail.id e, e)]
  /\ ScheduledEmail.clientId e = clientId /\ ScheduledEmail.templateId e = templateId
  /\ ScheduledEmail.language e <> ""
  /\ (forall l, language = Some l -> l <> "" -> ScheduledEmail.language e = l)
  /\ (language = None \/ language = Some "" -> ScheduledEmail.language e = "en")
  /\ MemStorage.clients s' = MemStorage.clients s
  /\ MemStorage.emailTemplates s' = MemStorage.emailTemplates s
  /\ MemStorage.emailLogs s' = MemStorage.emailLogs s
  /\ wf_store s'.
Proof.
  intros Hwf e s'.
  pose proof (issued_fresh _ _ (wf_scheduled_issued _ Hwf)) as Hfresh.
  unfold MemStorage.getScheduledEmail. cbn.
  split; [apply get_None_keys, Hfresh|]. split; [apply get_set_eq|].
  split; [intros k Hk; apply get_set_ne; congruence|].
  split; [apply set_fresh, Hfresh|]. do 2 (split; [reflexivity|]).
  split; [destruct language as [[|]|]; discriminate|].
  split; [intros l -> Hl; destruct l; [contradiction|reflexivity]|].
  split; [intros [->| ->]; reflexivity|]. do 3 (split; [reflexivity|]).
  apply (wf_scheduleEmail zone now clientId templateId delay language s Hwf).
Qed.

Lemma scheduleEmail_adds_one_record_witness :
  MemStorage.getScheduledEmail 1 Example.scheduled1 = Some Example.email1
  /\ ScheduledEmail.language Example.email1 = "en"
  /\ ScheduledEmail.language Example.emailFr = "fr"
  /\ ScheduledEmail.clientId Example.emailGhost = 7.
Proof.
  destruct (scheduleEmail_adds_one_record Example.utc Example.T0 1 1 Immediate None
              Example.base wf_base) as (_ & Hget & _ & _ & _ & _ & _ & _ & Hen & _).
  destruct (scheduleEmail_adds_one_record Example.utc Example.T0 1 1 Immediate
              (Some "fr") Example.base wf_base) as (_ & _ & _ & _ & _ & _ & _ & Hfr & _).
  split; [exact Hget|]. split; [apply Hen; left; reflexivity|].
  split; [apply (Hfr "fr"); [reflexivity|discriminate]|reflexivity].
Defined.

(** ** The examples, dispatched *)

Lemma accepted_email1 :
  accepted Spec.dayNumber Spec.personalizeContent Spec.acceptAll Example.email1
    (mkWorld Example.scheduled1 []).
Proof.
  exists Example.acme, Example.followUp, "Hello Acme", "<p>Hi Acme of Acme Corp</p>".
  vm_compute. repeat split.
Qed.

Lemma not_accepted_emailGhost :
  ~ accepted Spec.dayNumber Spec.personalizeContent Spec.acceptAll Example.emailGhost
      (mkWorld Example.scheduled2 []).
Proof. intros (c & t & ps & pc & Hc & _). vm_compute in Hc. discriminate. Qed.

Lemma sendScheduledEmail_sent_iff_accepted_witness :
  exists e',
    MemStorage.getScheduledEmail 1
      (storage (snd (Example.send Example.T2 Example.email1
                       (mkWorld Example.scheduled1 [])))) = Some e'
    /\ ScheduledEmail.status e' = "sent".
Proof.
  destruct (sendScheduledEmail_sent_iff_accepted Spec.dayNumber Spec.personalizeContent
              Spec.acceptAll Example.T2 Example.email1 Example.email1
              (mkWorld Example.scheduled1 []) eq_refl)
    as (e' & Hget & Hsent & _).
  exists e'. split; [exact Hget|]. apply Hsent, accepted_email1.
Defined.

Lemma sendScheduledEmail_failure_only_marks_record_witness :
  let w' := snd (Example.send Example.T2 Example.emailGhost
                   (mkWorld Example.scheduled2 [])) in
  MemStorage.emailLogs (storage w') = []
  /\ MemStorage.emailTemplates (storage w') = [(1, Example.followUp)].
Proof.
  destruct (sendScheduledEmail_failure_only_marks_record Spec.dayNumber
              Spec.personalizeContent Spec.acceptAll Example.T2 Example.emailGhost
              (mkWorld Example.scheduled2 []) not_accepted_emailGhost)
    as (_ & Htm & Hlog & _).
  split; [exact Hlog|exact Htm].
Defined.

Lemma accepted_email1_unstored :
  accepted Spec.dayNumber Spec.personalizeContent Spec.acceptAll Example.email1
    (mkWorld Example.base []).
Proof.
  exists Example.acme, Example.followUp, "Hello Acme", "<p>Hi Acme of Acme Corp</p>".
  vm_compute. repeat split.
Qed.

Lemma sendScheduledEmail_of_missing_record_witness :
  let w' := snd (Example.send Example.T2 Example.email1 (mkWorld Example.base [])) in
  MemStorage.scheduledEmails (storage w') = []
  /\ length (MemStorage.emailLogs (storage w')) = 1%nat.
Proof.
  destruct (sendScheduledEmail_of_missing_record Spec.dayNumber Spec.personalizeContent
              Spec.acceptAll Example.T2 Example.email1 (mkWorld Example.base [])
              wf_base eq_refl accepted_email1_unstored)
    as (Hsch & Hlog & _).
  split; [exact Hsch|exact Hlog].
Defined.

Lemma sendScheduledEmail_moves_dashboard_counts_witness :
  let s := Example.scheduled1 in
  let s' := storage (snd (Example.send Example.T2 Example.email1 (mkWorld s []))) in
  MemStorage.pendingSends s = 1%nat /\ MemStorage.pendingSends s' = 0%nat
  /\ MemStorage.emailsSent s' = 1%nat.
Proof.
  intros s s'.
  destruct (sendScheduledEmail_moves_dashboard_counts Spec.dayNumber
              Spec.personalizeContent Spec.acceptAll Example.T2 Example.email1
              (mkWorld Example.scheduled1 []) wf_scheduled1 eq_refl eq_refl
              accepted_email1)
    as (Hsent & Hpend & _).
  cbn [storage] in Hsent, Hpend. fold s in Hsent, Hpend. fold Example.send in Hsent, Hpend.
  fold s' in Hsent, Hpend.
  split; [reflexivity|]. split.
  - apply Nat.succ_inj. exact Hpend.
  - exact Hsent.
Defined.

Lemma tick_settles_every_due_record_witness :
  let w' := snd (Example.tick Example.T2 (mkWorld Example.scheduled2 [])) in
  MemStorage.getPendingScheduledEmails Example.T2 (storage w') = []
  /\ snd (Example.tick Example.T2 w') = w'.
Proof.
  destruct (tick_settles_every_due_record Spec.dayNumber Spec.personalizeContent
              Spec.acceptAll Example.T2 (mkWorld Example.scheduled2 []) wf_scheduled2)
    as (_ & Hempty & Hsame).
  split; [exact Hempty|exact Hsame].
Defined.

Lemma tick_keeps_store_shape_witness :
  let s' := storage (snd (Example.tick Example.T2 (mkWorld Example.scheduled2 []))) in
  MemStorage.clients s' = [(1, Example.acme)]
  /\ JsMap.keys (MemStorage.scheduledEmails s') = [1; 2].
Proof.
  destruct (tick_keeps_store_shape Spec.dayNumber Spec.personalizeContent
              Spec.acceptAll Example.T2 (mkWorld Example.scheduled2 []) wf_scheduled2)
    as (_ & Hc & Hk & _).
  split; [exact Hc|exact Hk].
Defined.

Lemma updated_status_is_skipped_witness :
  let s1 := snd (MemStorage.updateScheduledEmail 1 (statusUpdate "cancelled")
                   Example.scheduled1) in
  let w' := snd (Example.tick Example.T2 (mkWorld s1 [])) in
  option_map ScheduledEmail.status (MemStorage.getScheduledEmail 1 (storage w'))
  = Some "cancelled".
Proof.
  destruct (updated_status_is_skipped Spec.dayNumber Spec.personalizeContent
              Spec.acceptAll Example.T2 1 "cancelled" Example.email1
              (mkWorld Example.scheduled1 []) wf_scheduled1 eq_refl)
    as (_ & _ & _ & Hget); [discriminate|].
  cbn zeta. unfold Example.tick. cbn [storage outbox] in Hget. rewrite Hget. reflexivity.
Defined.

Lemma dispatch_after_delete_fails_witness :
  let s1 := snd (MemStorage.deleteClient 1 Example.scheduled1) in
  let w' := snd (Example.send Example.T2 Example.email1 (mkWorld s1 [])) in
  MemStorage.getScheduledEmail 1 (storage w')
  = Some (Dispatch.failed Example.email1 "Client or template not found")
  /\ outbox w' = [].
Proof.
  destruct (dispatch_after_delete_fails Spec.dayNumber Spec.personalizeContent
              Spec.acceptAll Example.T2 Example.email1 (mkWorld Example.scheduled1 [])
              wf_scheduled1 eq_refl
              (snd (MemStorage.deleteClient 1 Example.scheduled1))
              (or_introl eq_refl))
    as (_ & Hget & Hout & _).
  split; [exact Hget|exact Hout].
Defined.
